(** * Tree_Diagram_Generator: the tree builders and the labeler

    A shallow embedding of [tree_library/json_tree_modified.py]: the three
    functions that fold the rows of a CSV file into nested trees
    ([construct_json], [construct_with_yl], [detailed_tree]) and the pass
    that numbers the nodes of the first one ([add_label]).

    Python objects are modelled as values of inductive types; a Python
    [dict] is an association list in insertion order, a Python exception
    is the [Raise] case of an error monad, and the cursor [track] that the
    builders move down the tree they are mutating becomes a recursive
    update that stores every changed child back in its parent. *)

From Stdlib Require Import ZArith Lia Ascii.
From stdpp Require Import base strings list gmap pretty sorting.

#[local] Set Warnings "-clear-no-such-hyp".

Local Open Scope string_scope.
Local Open Scope list_scope.

(** ** Exceptions *)

Inductive pyerr :=
| KeyError | IndexError | TypeError | AttributeError
| RecursionError | ReferenceError.

Inductive result (A : Type) :=
| Ok (a : A)
| Raise (e : pyerr).
Arguments Ok {A} a.
Arguments Raise {A} e.

Definition bind {A B} (m : result A) (k : A -> result B) : result B :=
  match m with
  | Ok a => k a
  | Raise e => Raise e
  end.

Notation "'let*' x ':=' m 'in' k" := (bind m (fun x => k))
  (at level 10, x pattern, m at level 100, k at level 200).

(** [for a in l: b = f(b, a)], stopping at the first exception. *)
Fixpoint foldM {A B} (f : B -> A -> result B) (b : B) (l : list A) : result B :=
  match l with
  | [] => Ok b
  | a :: l' => let* b' := f b a in foldM f b' l'
  end.

(** ** Python sequences and strings *)

(** [l[i]] for a Python int [i]: a negative index counts from the end. *)
Definition py_index {A} (l : list A) (i : Z) : result A :=
  let j := if (i <? 0)%Z then (Z.of_nat (length l) + i)%Z else i in
  if (j <? 0)%Z then Raise IndexError
  else match l !! Z.to_nat j with
       | Some x => Ok x
       | None => Raise IndexError
       end.

(** [l[:n]]: a negative bound drops that many elements from the end. *)
Definition py_slice_to {A} (l : list A) (n : Z) : list A :=
  if (n <? 0)%Z then take (Z.to_nat (Z.of_nat (length l) + n)) l
  else take (Z.to_nat n) l.

(** [p in s] on two strings. *)
Fixpoint is_substring (p s : string) : bool :=
  String.prefix p s ||
  match s with
  | EmptyString => false
  | String _ s' => is_substring p s'
  end.

(** [sep.join(l)] *)
Definition py_join (sep : string) (l : list string) : string :=
  String.concat sep l.

(** [sorted(l)] on strings: Python compares strings character by
    character, which is [String.le]. *)
Definition py_sorted (l : list string) : list string :=
  merge_sort String.le l.

(** ** Dictionaries in insertion order *)

Section dict.
Context {K V : Type} `{EqDecision K}.

Fixpoint dict_get (k : K) (d : list (K * V)) : option V :=
  match d with
  | [] => None
  | (k', v) :: d' => if decide (k = k') then Some v else dict_get k d'
  end.

Definition dict_mem (k : K) (d : list (K * V)) : bool :=
  bool_decide (is_Some (dict_get k d)).

(** [d[k] = v]: an existing key keeps its place, a new one goes last. *)
Fixpoint dict_set (k : K) (v : V) (d : list (K * V)) : list (K * V) :=
  match d with
  | [] => [(k, v)]
  | (k', v') :: d' =>
      if decide (k = k') then (k', v) :: d' else (k', v') :: dict_set k v d'
  end.

End dict.

(** ** Constants of the module *)

Definition DEPTH : Z := 4.
Definition IDX_CONTENT_TAG : Z := -2.
Definition IDX_YEAR_LEVEL : Z := -1.
Definition IDX_SUBTOPIC : Z := 1.

(** ** The input: a [csv.DictReader] *)

(** One row: a dictionary from column names to cells that are strings,
    [row[field]] being a lookup that raises [KeyError] on a name that the
    dictionary lacks. A cell that is not a string, such as the [None]
    that [csv.DictReader] stores for a line shorter than the header, has no
    counterpart here. *)
Definition record := gmap string string.

(** The reader of a file with a header line: [fieldnames] is a list. *)
Record reader := Reader {
  fieldnames : list string;
  rows : list record
}.

Definition row_get (row : record) (field : string) : result string :=
  match row !! field with
  | Some v => Ok v
  | None => Raise KeyError
  end.

(** The row that [csv.DictReader] makes of a line with as many cells as
    the header has names, the names being distinct:
    [dict(zip(fields, cells))]. *)
Definition csv_row (fields cells : list string) : record :=
  list_to_map (zip fields cells).

(** ** Tree values of the plain and the detailed builder

    Keys are strings and arrays hold strings: these two builders store
    cells of rows, and the cells of a [record] are strings. *)

#[local] Unset Elimination Schemes.
Inductive tree :=
| TStr (s : string)
| TArr (xs : list string)
| TMap (kvs : list (string * tree)).
#[local] Set Elimination Schemes.

(** [k in t] *)
Definition tree_contains (k : string) (t : tree) : bool :=
  match t with
  | TMap kvs => dict_mem k kvs
  | TArr xs => bool_decide (k ∈ xs)
  | TStr s => is_substring k s
  end.

(** [t[k]] for a string [k] *)
Definition tree_getitem (t : tree) (k : string) : result tree :=
  match t with
  | TMap kvs =>
      match dict_get k kvs with
      | Some v => Ok v
      | None => Raise KeyError
      end
  | _ => Raise TypeError
  end.

(** [t[k] = v] for a string [k] *)
Definition tree_setitem (t : tree) (k : string) (v : tree) : result tree :=
  match t with
  | TMap kvs => Ok (TMap (dict_set k v kvs))
  | _ => Raise TypeError
  end.

(** the bound method [t.append] *)
Definition tree_append (t : tree) : result (string -> tree) :=
  match t with
  | TArr xs => Ok (fun s => TArr (xs ++ [s]))
  | _ => Raise AttributeError
  end.

(** [if k not in track: track[k] = fresh] *)
Definition tree_setdefault (track : tree) (k : string) (fresh : tree) : result tree :=
  if tree_contains k track then Ok track else tree_setitem track k fresh.

(** The loop shared by both builders,
<<
    for field in fields:
        next_node = row[field]
        if next_node not in track:
            track[next_node] = {}
        track = track[next_node]
>>
    followed by [rest], the statements that run on the last [track]. The
    result is the object [track] pointed to on entry, after all the
    mutations made below it. *)
Fixpoint descend (fields : list string) (row : record)
    (rest : tree -> result tree) (track : tree) : result tree :=
  match fields with
  | [] => rest track
  | field :: fields' =>
      let* next_node := row_get row field in
      let* track := tree_setdefault track next_node (TMap []) in
      let* child := tree_getitem track next_node in
      let* child := descend fields' row rest child in
      tree_setitem track next_node child
  end.

(** *** construct_json *)

(** The statements of [construct_json] after its inner loop. *)
Definition json_last_layers (all_fields : list string) (row : record)
    (track : tree) : result tree :=
  let* field := py_index all_fields (-2) in
  let* next_node := row_get row field in
  let* track := tree_setdefault track next_node (TArr []) in
  let* field := py_index all_fields (-1) in
  let* sub_content := row_get row field in
  let* arr := tree_getitem track next_node in
  if tree_contains sub_content arr then Ok track
  else
    let* append := tree_append arr in
    tree_setitem track next_node (append sub_content).

Definition construct_json_row (all_fields : list string)
    (output : tree) (row : record) : result tree :=
  descend (py_slice_to all_fields (-2)) row
    (json_last_layers all_fields row) output.

Definition construct_json (data : reader) (depth : Z) : result tree :=
  let all_fields := py_slice_to (fieldnames data) depth in
  foldM (construct_json_row all_fields) (TMap []) (rows data).

(** *** detailed_tree *)

(** The statements of [detailed_tree] after its inner loop. *)
Definition detailed_leaf (all_fields : list string) (row : record)
    (track : tree) : result tree :=
  let* field := py_index all_fields (-1) in
  let* yl := row_get row field in
  let year_level := "Y" +:+ yl in
  let* track := tree_setdefault track year_level (TArr []) in
  let* arr := tree_getitem track year_level in
  let* append := tree_append arr in
  let* field := py_index all_fields (-2) in
  let* tag := row_get row field in
  tree_setitem track year_level (append tag).

Definition detailed_tree_row (all_fields : list string) (depth : Z)
    (output : tree) (row : record) : result tree :=
  descend (py_slice_to all_fields depth) row
    (detailed_leaf all_fields row) output.

Definition detailed_tree (data : reader) (depth : Z) : result tree :=
  let all_fields := fieldnames data in
  foldM (detailed_tree_row all_fields depth) (TMap []) (rows data).

(** ** Values of the year-level builder

    This builder also stores integers as dictionary keys and dictionaries
    as array elements. *)

Inductive key :=
| KStr (s : string)
| KInt (n : Z).

#[global] Instance key_eq_dec : EqDecision key.
Proof. solve_decision. Defined.

#[local] Unset Elimination Schemes.
Inductive value :=
| VStr (s : string)
| VList (xs : list value)
| VDict (kvs : list (key * value)).
#[local] Set Elimination Schemes.

(** [str(c)] for each character [c] of [s] *)
Fixpoint chars (s : string) : list string :=
  match s with
  | EmptyString => []
  | String c s' => String c EmptyString :: chars s'
  end.

(** [k in v] for a string [k]; a string never equals a list or a
    dictionary, and never equals an integer key. *)
Definition py_contains (k : string) (v : value) : bool :=
  match v with
  | VDict kvs => dict_mem (KStr k) kvs
  | VList xs =>
      existsb (fun x => match x with
                        | VStr s => bool_decide (s = k)
                        | _ => false
                        end) xs
  | VStr s => is_substring k s
  end.

(** [len(v)] *)
Definition py_len (v : value) : Z :=
  match v with
  | VStr s => Z.of_nat (String.length s)
  | VList xs => Z.of_nat (length xs)
  | VDict kvs => Z.of_nat (length kvs)
  end.

(** [v[k]] *)
Definition py_getitem (v : value) (k : key) : result value :=
  match v, k with
  | VDict kvs, _ =>
      match dict_get k kvs with
      | Some x => Ok x
      | None => Raise KeyError
      end
  | VList xs, KInt i => py_index xs i
  | VStr s, KInt i => let* c := py_index (chars s) i in Ok (VStr c)
  | _, KStr _ => Raise TypeError
  end.

(** [v[k] = x] *)
Definition py_setitem (v : value) (k : key) (x : value) : result value :=
  match v, k with
  | VDict kvs, _ => Ok (VDict (dict_set k x kvs))
  | VList xs, KInt i =>
      let j := if (i <? 0)%Z then (Z.of_nat (length xs) + i)%Z else i in
      if ((0 <=? j) && (j <? Z.of_nat (length xs)))%Z
      then Ok (VList (<[Z.to_nat j := x]> xs))
      else Raise IndexError
  | _, _ => Raise TypeError
  end.

(** the bound method [v.append] *)
Definition py_append (v : value) : result (value -> value) :=
  match v with
  | VList xs => Ok (fun x => VList (xs ++ [x]))
  | _ => Raise AttributeError
  end.

(** [v += s] for a string [s]: concatenation on a string, and on a list
    an extension by the characters of [s]. *)
Definition py_iadd_str (v : value) (s : string) : result value :=
  match v with
  | VStr a => Ok (VStr (a +:+ s))
  | VList xs => Ok (VList (xs ++ (VStr <$> chars s)))
  | VDict _ => Raise TypeError
  end.

(** *** construct_with_yl *)

(** The variables of [construct_with_yl] that outlive one row. *)
Record yl_state := YlState {
  yl_output : value;
  year_level_dict : list (string * gset string);
  yl_cur_idx : Z;
  yl_dis_idx : Z
}.

(** The search of the third level,
<<
    for i in range(len(track)):
        node = track[i]
        if next_node in node:
            cur_idx = i
            node_exists = True
>> *)
Fixpoint find_node (next_node : string) (track : value) (range : list Z)
    (cur_idx : Z) (node_exists : bool) : result (Z * bool) :=
  match range with
  | [] => Ok (cur_idx, node_exists)
  | i :: range' =>
      let* node := py_getitem track (KInt i) in
      if py_contains next_node node
      then find_node next_node track range' i true
      else find_node next_node track range' cur_idx node_exists
  end.

(** The entry of the row and the index of its raw tag,
<<
    track = track[cur_idx]
    dis_idx = len(track)
    track[dis_idx] = entry
    track = track[next_node]
    field = all_fields[DEPTH]
    next_node = row[field]
    if next_node not in track:
        track[next_node] = f"{dis_idx}"
    else:
        track[next_node] += f" {dis_idx}"
    dis_idx += 1
>>
    [track] is the second-level array; the result is that array after the
    mutations, with the new [dis_idx]. *)
Definition yl_tag_entry (all_fields : list string) (row : record)
    (entry next_node : string) (cur_idx : Z) (track : value) : result (value * Z) :=
  let* elem := py_getitem track (KInt cur_idx) in
  let dis_idx := py_len elem in
  let* elem := py_setitem elem (KInt dis_idx) (VStr entry) in
  let* inner := py_getitem elem (KStr next_node) in
  let* field := py_index all_fields DEPTH in
  let* tag_node := row_get row field in
  let* inner :=
    if py_contains tag_node inner
    then
      let* old := py_getitem inner (KStr tag_node) in
      let* new := py_iadd_str old (" " +:+ pretty dis_idx) in
      py_setitem inner (KStr tag_node) new
    else py_setitem inner (KStr tag_node) (VStr (pretty dis_idx)) in
  let* elem := py_setitem elem (KStr next_node) inner in
  let* track := py_setitem track (KInt cur_idx) elem in
  Ok (track, (dis_idx + 1)%Z).

(** The third level and the content tags below it: everything from
    [field = all_fields[DEPTH-1]] to [dis_idx += 1]. [track] is the
    second-level array; the result is that array after the mutations,
    with the new [cur_idx] and [dis_idx]. *)
Definition yl_third_level (all_fields : list string) (row : record)
    (entry : string) (cur_idx : Z) (track : value) : result (value * (Z * Z)) :=
  let* field := py_index all_fields (DEPTH - 1) in
  let* next_node := row_get row field in
  let* (cur_idx, node_exists) :=
    find_node next_node track (seqZ 0 (py_len track)) cur_idx false in
  let* (track, cur_idx) :=
    if node_exists then Ok (track, cur_idx)
    else
      let* append := py_append track in
      let track := append (VDict [(KStr next_node, VDict [])]) in
      Ok (track, (py_len track - 1)%Z) in
  let* (track, dis_idx) :=
    yl_tag_entry all_fields row entry next_node cur_idx track in
  Ok (track, (cur_idx, dis_idx)).

(** The first two levels,
<<
    for i in range(DEPTH-2):
        field = all_fields[i]
        next_node = row[field]
        if next_node not in track:
            if i == 0:
                track[next_node] = {}
            elif i == 1:
                track[next_node] = []
                cur_idx = -1
        track = track[next_node]
>>
    followed by [rest] on the last [track]. *)
Fixpoint yl_first_levels (range : list Z) (all_fields : list string)
    (row : record) (rest : Z -> value -> result (value * (Z * Z)))
    (cur_idx : Z) (track : value) : result (value * (Z * Z)) :=
  match range with
  | [] => rest cur_idx track
  | i :: range' =>
      let* field := py_index all_fields i in
      let* next_node := row_get row field in
      let* (track, cur_idx) :=
        if py_contains next_node track then Ok (track, cur_idx)
        else if (i =? 0)%Z then
          let* track := py_setitem track (KStr next_node) (VDict []) in
          Ok (track, cur_idx)
        else if (i =? 1)%Z then
          let* track := py_setitem track (KStr next_node) (VList []) in
          Ok (track, (-1)%Z)
        else Ok (track, cur_idx) in
      let* child := py_getitem track (KStr next_node) in
      let* (child, idxs) :=
        yl_first_levels range' all_fields row rest cur_idx child in
      let* track := py_setitem track (KStr next_node) child in
      Ok (track, idxs)
  end.

(** [year_level_dict[key].add(token)] *)
Definition yl_add (key token : string) (d : list (string * gset string))
    : result (list (string * gset string)) :=
  match dict_get key d with
  | Some s => Ok (dict_set key (s ∪ {[token]}) d)
  | None => Raise KeyError
  end.

(** The record of a year level for the first two levels,
<<
    if subtopic not in year_level_dict:
        year_level_dict[subtopic] = set()
    year_level_dict[subtopic].add(f"Y{year_level}")
    year_level_dict['All levels'].add(f'Y{year_level}')
>> *)
Definition yl_record (subtopic year_level : string)
    (d : list (string * gset string)) : result (list (string * gset string)) :=
  let d := if dict_mem subtopic d then d else dict_set subtopic ∅ d in
  let* d := yl_add subtopic ("Y" +:+ year_level) d in
  yl_add "All levels" ("Y" +:+ year_level) d.

(** The body of the loop over the rows. *)
Definition yl_row (all_fields : list string) (st : yl_state) (row : record)
    : result yl_state :=
  let* field := py_index all_fields IDX_CONTENT_TAG in
  let* next_tag := row_get row field in
  let* field := py_index all_fields IDX_YEAR_LEVEL in
  let* year_level := row_get row field in
  let* field := py_index all_fields IDX_SUBTOPIC in
  let* subtopic := row_get row field in
  let entry := "Y" +:+ year_level +:+ " " +:+ next_tag in
  let* yld := yl_record subtopic year_level (year_level_dict st) in
  let* (output, idxs) :=
    yl_first_levels (seqZ 0 (DEPTH - 2)) all_fields row
      (yl_third_level all_fields row entry) (yl_cur_idx st) (yl_output st) in
  Ok (YlState output yld idxs.1 idxs.2).

(** The loop that reports the year levels,
<<
    for key, val in year_level_dict.items():
        sorted_val = sorted(list(val))
        track[key] = ' '.join(sorted_val)
>> *)
Definition yl_report (track : value) (item : string * gset string) : result value :=
  let sorted_val := py_sorted (elements item.2) in
  py_setitem track (KStr item.1) (VStr (py_join " " sorted_val)).

Definition yl_init : yl_state :=
  YlState (VDict []) [("All levels", ∅)] (-1) 0.

Definition construct_with_yl (data : reader) : result value :=
  let all_fields := fieldnames data in
  let* st := foldM (yl_row all_fields) yl_init (rows data) in
  foldM yl_report (yl_output st) (year_level_dict st).

(** ** The labeler *)

(** [f"{depth}.{serial}: {name}"] *)
Definition label (depth serial : nat) (name : string) : string :=
  pretty depth +:+ "." +:+ pretty serial +:+ ": " +:+ name.

(** The loop over the strings of a terminal array,
<<
    for node in val:
        labeled_node = f"{depth+1}.{node_id[depth]}: {node}"
        track.append(labeled_node)
        node_id[depth] += 1
>> *)
Fixpoint label_leaves (depth : nat) (val : list string)
    (track : list string) (node_id : list nat) : result (list string * list nat) :=
  match val with
  | [] => Ok (track, node_id)
  | node :: val' =>
      match node_id !! depth with
      | None => Raise IndexError
      | Some n =>
          label_leaves depth val' (track ++ [label (depth + 1) n node])
            (<[depth := n + 1]> node_id)
      end
  end.

(** [recur_add_label(track, key, val, depth, node_id)]: the dictionary
    [track] and the counters [node_id] are mutated by the call, so the
    model returns both. *)
Fixpoint recur_add_label (val : tree) (key : string) (depth : nat)
    (track : list (string * tree)) (node_id : list nat)
    : result (list (string * tree) * list nat) :=
  match node_id !! depth with
  | None => Raise IndexError
  | Some n =>
      let labeled_node := label (depth + 1) n key in
      let node_id := <[depth := n + 1]> node_id in
      let depth := depth + 1 in
      match val with
      | TArr xs =>
          let* (sub, node_id) := label_leaves depth xs [] node_id in
          Ok (dict_set labeled_node (TArr sub) track, node_id)
      | TMap kvs =>
          let* (sub, node_id) :=
            (fix items (kvs : list (string * tree)) sub node_id :=
               match kvs with
               | [] => Ok (sub, node_id)
               | (next_key, next_val) :: kvs' =>
                   let* (sub, node_id) :=
                     recur_add_label next_val next_key depth sub node_id in
                   items kvs' sub node_id
               end) kvs [] node_id in
          Ok (dict_set labeled_node (TMap sub) track, node_id)
      | TStr _ => Raise AttributeError
      end
  end.

(** [for key, value in d.items(): recur_add_label(track, key, value, depth, node_id)] *)
Fixpoint label_items (depth : nat) (kvs : list (string * tree))
    (track : list (string * tree)) (node_id : list nat)
    : result (list (string * tree) * list nat) :=
  match kvs with
  | [] => Ok (track, node_id)
  | (key, value) :: kvs' =>
      let* (track, node_id) := recur_add_label value key depth track node_id in
      label_items depth kvs' track node_id
  end.

(** [add_label] together with the counters it leaves behind. *)
Definition add_label_run (data : tree) : result (list (string * tree) * list nat) :=
  match data with
  | TMap kvs => label_items 0 kvs [] (replicate (Z.to_nat DEPTH) 1)
  | _ => Raise AttributeError
  end.

Definition add_label (data : tree) : result tree :=
  let* (output, _) := add_label_run data in
  Ok (TMap output).

(** ** The labeler on a heap

    To speak of what [add_label] does to its argument, the objects are
    placed in a heap: a dictionary or a list is an object with an identity,
    its address, and a value is a string or a reference to an object. The
    address of a new object is the first free one. The counters [node_id]
    are an object that only the labeler holds; they stay a value that is
    passed along. *)

Inductive ref_value :=
| RStr (s : string)
| RRef (l : nat).

Inductive object :=
| ODict (items : list (string * ref_value))
| OList (elems : list string).

Abbreviation heap := (list object).

(** A computation that reads and writes the heap and may raise; the
    heap survives an exception. *)
Definition hM (A : Type) : Type := heap -> heap * result A.

Definition h_ret {A} (a : A) : hM A := fun h => (h, Ok a).

Definition h_raise {A} (e : pyerr) : hM A := fun h => (h, Raise e).

Definition h_bind {A B} (m : hM A) (k : A -> hM B) : hM B :=
  fun h =>
    match m h with
    | (h', Ok a) => k a h'
    | (h', Raise e) => (h', Raise e)
    end.

Notation "'let!' x ':=' m 'in' k" := (h_bind m (fun x => k))
  (at level 10, x pattern, m at level 100, k at level 200).

(** [{}] or [[]]: a new object *)
Definition h_alloc (o : object) : hM nat :=
  fun h => (h ++ [o], Ok (length h)).

(** A reference to no object cannot be held by a Python program. *)
Definition h_read (l : nat) : hM object :=
  fun h => (h, match h !! l with
               | Some o => Ok o
               | None => Raise ReferenceError
               end).

Definition h_write (l : nat) (o : object) : hM unit :=
  fun h => (<[l := o]> h, Ok tt).

(** [track[k] = v] *)
Definition h_setitem (track : nat) (k : string) (v : ref_value) : hM unit :=
  let! o := h_read track in
  match o with
  | ODict items => h_write track (ODict (dict_set k v items))
  | OList _ => h_raise TypeError
  end.

(** [track.append(s)] *)
Definition h_append (track : nat) (s : string) : hM unit :=
  let! o := h_read track in
  match o with
  | OList elems => h_write track (OList (elems ++ [s]))
  | ODict _ => h_raise AttributeError
  end.

(** The loop over the strings [val] of a terminal array; [track] is the
    address of the new list. *)
Fixpoint h_label_leaves (track depth : nat) (val : list string)
    (node_id : list nat) : hM (list nat) :=
  match val with
  | [] => h_ret node_id
  | node :: val' =>
      match node_id !! depth with
      | None => h_raise IndexError
      | Some n =>
          let! _ := h_append track (label (depth + 1) n node) in
          h_label_leaves track depth val' (<[depth := n + 1]> node_id)
      end
  end.

(** [recur_add_label(track, key, val, depth, node_id)] with [track] the
    address of a dictionary. The loops run over the items that [val]
    holds when they start. [limit] is the number of nested calls that
    the interpreter still allows. *)
Fixpoint h_recur_add_label (limit : nat) (track : nat) (key : string)
    (val : ref_value) (depth : nat) (node_id : list nat) : hM (list nat) :=
  match limit with
  | 0 => h_raise RecursionError
  | S limit' =>
      match node_id !! depth with
      | None => h_raise IndexError
      | Some n =>
          let labeled_node := label (depth + 1) n key in
          let node_id := <[depth := n + 1]> node_id in
          let depth := depth + 1 in
          let! o :=
            match val with
            | RStr _ => h_ret None
            | RRef l => let! o := h_read l in h_ret (Some o)
            end in
          match o with
          | Some (OList elems) =>
              let! sub := h_alloc (OList []) in
              let! _ := h_setitem track labeled_node (RRef sub) in
              h_label_leaves sub depth elems node_id
          | Some (ODict items) =>
              let! sub := h_alloc (ODict []) in
              let! _ := h_setitem track labeled_node (RRef sub) in
              (fix items_loop (items : list (string * ref_value)) node_id :=
                 match items with
                 | [] => h_ret node_id
                 | (next_key, next_val) :: items' =>
                     let! node_id :=
                       h_recur_add_label limit' sub next_key next_val depth node_id in
                     items_loop items' node_id
                 end) items node_id
          | None =>
              let! sub := h_alloc (ODict []) in
              let! _ := h_setitem track labeled_node (RRef sub) in
              h_raise AttributeError
          end
      end
  end.

(** [for key, value in items: recur_add_label(track, key, value, depth, node_id)] *)
Fixpoint h_label_items (limit : nat) (track depth : nat)
    (items : list (string * ref_value)) (node_id : list nat) : hM (list nat) :=
  match items with
  | [] => h_ret node_id
  | (key, value) :: items' =>
      let! node_id := h_recur_add_label limit track key value depth node_id in
      h_label_items limit track depth items' node_id
  end.

(** The default limit of the interpreter on nested calls. *)
Definition recursion_limit : nat := 1000.

(** [add_label(data)]: the result is the reference to the new dictionary. *)
Definition h_add_label (data : ref_value) : hM ref_value :=
  let! output := h_alloc (ODict []) in
  let node_id := replicate (Z.to_nat DEPTH) 1 in
  let! o :=
    match data with
    | RStr _ => h_raise AttributeError
    | RRef l => h_read l
    end in
  match o with
  | ODict items =>
      let! _ := h_label_items recursion_limit output 0 items node_id in
      h_ret (RRef output)
  | OList _ => h_raise AttributeError
  end.

(** * Notions used to state the properties *)

(** ** Names of a tree, depth by depth *)

(** The names that lie [d] levels below the entry [key: val], in the
    order of a depth-first traversal that follows insertion order: the
    key itself at level 0, then the keys of [val] or, when [val] is a
    terminal array, its strings. *)
Fixpoint entry_names (d : nat) (key : string) (val : tree) {struct d} : list string :=
  match d with
  | 0 => [key]
  | S d' =>
      match val with
      | TStr _ => []
      | TArr xs => match d' with 0 => xs | S _ => [] end
      | TMap kvs => flat_map (fun kv => entry_names d' kv.1 kv.2) kvs
      end
  end.

Definition items_names (d : nat) (kvs : list (string * tree)) : list string :=
  flat_map (fun kv => entry_names d kv.1 kv.2) kvs.

(** The names at depth [d] of a tree: its keys at depth 0. *)
Definition names_at (d : nat) (t : tree) : list string :=
  entry_names (S d) EmptyString t.

(** Two trees that differ in their names only. *)
#[local] Unset Elimination Schemes.
Inductive same_shape : tree -> tree -> Prop :=
| same_shape_str s s' : same_shape (TStr s) (TStr s')
| same_shape_arr xs ys : length xs = length ys -> same_shape (TArr xs) (TArr ys)
| same_shape_map kvs kvs' :
    Forall2 (fun a b => same_shape a.2 b.2) kvs kvs' ->
    same_shape (TMap kvs) (TMap kvs').
#[local] Set Elimination Schemes.

(** The names [l] of depth [d], numbered from [start] on. *)
Definition relabel (d start : nat) (l : list string) : list string :=
  imap (fun i s => label (d + 1) (start + i) s) l.

(** ** Characters of a label *)

(** The characters of a decimal numeral are digits; all that is needed
    here is that none is a colon. *)
Fixpoint no_colon (s : string) : Prop :=
  match s with
  | EmptyString => True
  | String c s' => c <> ":"%char /\ no_colon s'
  end.

(** ** Counters *)

(** The counters [node_id], each advanced by [f] of its depth. *)
Definition bump (f : nat -> nat) (node_id : list nat) : list nat :=
  imap (fun d c => c + f d) node_id.

(** The number of names that the entry [key: val], itself at depth
    [depth], has at depth [d]. *)
Definition entry_count (depth : nat) (key : string) (val : tree) (d : nat) : nat :=
  if decide (d < depth) then 0 else length (entry_names (d - depth) key val).

Definition items_count (depth : nat) (kvs : list (string * tree)) (d : nat) : nat :=
  if decide (d < depth) then 0 else length (items_names (d - depth) kvs).

(** Every key of [track] is a label of depth [depth] with a serial
    below [bound]. *)
Definition keys_below (depth bound : nat) (track : list (string * tree)) : Prop :=
  forall k, k ∈ track.*1 -> exists m s, k = label (depth + 1) m s /\ m < bound.

(** What one call of [recur_add_label] on [val] does. *)
Definition entry_labelled (val : tree) : Prop :=
  forall key depth track node_id track' node_id' n,
    recur_add_label val key depth track node_id = Ok (track', node_id') ->
    node_id !! depth = Some n ->
    keys_below depth n track ->
    exists key' sub,
      track' = track ++ [(key', sub)] /\
      same_shape val sub /\
      node_id' = bump (entry_count depth key val) node_id /\
      (forall e c, node_id !! (depth + e) = Some c ->
         entry_names e key' sub = relabel (depth + e) c (entry_names e key val)) /\
      (forall e, node_id !! (depth + e) = None -> entry_names e key val = []).

(** What the loop over the items [kvs] of a mapping does. *)
Definition items_labelled (kvs : list (string * tree)) : Prop :=
  forall depth track node_id track' node_id',
    label_items depth kvs track node_id = Ok (track', node_id') ->
    keys_below depth (default 0 (node_id !! depth)) track ->
    exists sub,
      track' = track ++ sub /\
      Forall2 (fun a b => same_shape a.2 b.2) kvs sub /\
      node_id' = bump (items_count depth kvs) node_id /\
      (forall e c, node_id !! (depth + e) = Some c ->
         items_names e sub = relabel (depth + e) c (items_names e kvs)) /\
      (forall e, node_id !! (depth + e) = None -> items_names e kvs = []).

(** A call of [recur_add_label] on [val] with [budget] counters left,
    the one of its own depth included, meets no missing counter. *)
Fixpoint fits (budget : nat) (val : tree) {struct budget} : Prop :=
  match budget with
  | 0 => False
  | S b =>
      match val with
      | TStr _ => False
      | TArr xs => xs = [] \/ 0 < b
      | TMap kvs => Forall (fun kv => fits b kv.2) kvs
      end
  end.

(** ** What the builders compute *)

(** [if s not in xs: xs.append(s)] *)
Definition add_new (xs : list string) (s : string) : list string :=
  if bool_decide (s ∈ xs) then xs else xs ++ [s].

(** The elements of [l] in the order of their first occurrence. *)
Fixpoint first_occ (l : list string) : list string :=
  match l with
  | [] => []
  | x :: l' => x :: filter (fun y => y <> x) (first_occ l')
  end.

(** A row as a builder sees it: the keys to walk down, and the string to
    store in the array at the end of this path. *)
Definition path_entry : Type := list string * string.

(** The first keys of the entries. *)
Definition heads (es : list path_entry) : list string :=
  omap (fun e => head e.1) es.

(** The entries that start with key [k], without this key. *)
Definition below (k : string) (es : list path_entry) : list path_entry :=
  omap (fun e => match e.1 with
                 | k' :: ks => if decide (k' = k) then Some (ks, e.2) else None
                 | [] => None
                 end) es.

(** The tree with [m] levels of mappings that holds the entries [es]:
    keys in the order of their first occurrence, and at the end of each
    path the array [arr] of the strings stored there. *)
Fixpoint grow (arr : list string -> list string) (m : nat) (es : list path_entry) : tree :=
  match m with
  | 0 => TArr (arr es.*2)
  | S m' => TMap ((fun k => (k, grow arr m' (below k es))) <$> first_occ (heads es))
  end.

(** The node at the end of a path of keys. *)
Fixpoint tree_lookup (path : list string) (t : tree) : option tree :=
  match path with
  | [] => Some t
  | k :: path' =>
      match t with
      | TMap kvs => dict_get k kvs ≫= tree_lookup path'
      | _ => None
      end
  end.

(** The name of column [i], counted as Python does. *)
Definition field_at (all_fields : list string) (i : Z) : string :=
  match py_index all_fields i with
  | Ok f => f
  | Raise _ => EmptyString
  end.

(** The values of a row in the columns [fields]. *)
Definition row_values (fields : list string) (row : record) : list string :=
  (fun f => row !!! f) <$> fields.

(** The entry of a row for [construct_json]: the path is made of all
    columns of [all_fields] but the last, whose value is stored. *)
Definition plain_entry (all_fields : list string) (row : record) : path_entry :=
  (row_values (py_slice_to all_fields (-1)) row, row !!! field_at all_fields (-1)).

(** The entry of a row for [detailed_tree]: the first [depth] columns,
    then the year level; the content tag is stored. *)
Definition detailed_entry (all_fields : list string) (depth : Z) (row : record) : path_entry :=
  (row_values (py_slice_to all_fields depth) row
     ++ ["Y" +:+ row !!! field_at all_fields (-1)],
   row !!! field_at all_fields (-2)).

(** The entries that start with the keys [path], without these keys. *)
Fixpoint under (path : list string) (es : list path_entry) : list path_entry :=
  match path with
  | [] => es
  | k :: path' => under path' (below k es)
  end.

(** ** Shape of the year-level tree *)

(** The entries of a topic, under the integer keys 1, 2, ... *)
Definition numbered (entries : list string) : list (key * value) :=
  imap (fun i s => (KInt (Z.of_nat (S i)), VStr s)) entries.

(** The mapping from the raw content tags of a topic to their indices:
    strings under string keys. *)
Definition tag_index (inner : list (key * value)) : Prop :=
  Forall (fun kv => exists tag idxs, kv = (KStr tag, VStr idxs)) inner.

(** An element of a second-level array: the topic with its tag indices
    first, then the numbered entries. *)
Definition topic_node (topic : string) (inner : list (key * value))
    (entries : list string) : value :=
  VDict ((KStr topic, VDict inner) :: numbered entries).

Definition is_topic_node (e : value) : Prop :=
  exists topic inner entries,
    e = topic_node topic inner entries /\ tag_index inner /\ entries <> [].

Definition is_topic_array (v : value) : Prop :=
  exists xs, v = VList xs /\ Forall is_topic_node xs.

Definition is_subtopic_map (v : value) : Prop :=
  exists kvs, v = VDict kvs /\ Forall (fun kv => is_topic_array kv.2) kvs.

(** The tree while the rows are read. *)
Definition is_yl_tree (v : value) : Prop :=
  exists kvs, v = VDict kvs /\ Forall (fun kv => is_subtopic_map kv.2) kvs.

(** The tree after the report: summary strings beside the first level. *)
Definition is_yl_result (v : value) : Prop :=
  exists kvs, v = VDict kvs /\
    Forall (fun kv => is_subtopic_map kv.2 \/ exists s, kv.2 = VStr s) kvs.

(** ** Trees in a heap *)

(** The value [v] represents the tree [t] in the heap [h]. *)
Fixpoint repr (h : heap) (t : tree) (v : ref_value) {struct t} : Prop :=
  match t, v with
  | TStr s, RStr s' => s = s'
  | TArr xs, RRef l => h !! l = Some (OList xs)
  | TMap kvs, RRef l =>
      exists items,
        h !! l = Some (ODict items) /\
        (fix all2 (kvs : list (string * tree)) (items : list (string * ref_value)) :=
           match kvs, items with
           | [], [] => True
           | (k, t') :: kvs', (k', v') :: items' =>
               k = k' /\ repr h t' v' /\ all2 kvs' items'
           | _, _ => False
           end) kvs items
  | _, _ => False
  end.

(** The tree that [v] represents in [h], read down to [fuel] levels. *)
Fixpoint reify (fuel : nat) (h : heap) (v : ref_value) : option tree :=
  match fuel with
  | 0 => None
  | S fuel' =>
      match v with
      | RStr s => Some (TStr s)
      | RRef l =>
          match h !! l with
          | None => None
          | Some (OList elems) => Some (TArr elems)
          | Some (ODict items) =>
              TMap <$> mapM (fun kv => (fun t => (kv.1, t)) <$> reify fuel' h kv.2) items
          end
      end
  end.

(** Every reference that the object holds is an address from [base] on. *)
Definition refs_from (base : nat) (o : object) : Prop :=
  match o with
  | ODict items => Forall (fun kv => match kv.2 with
                                     | RStr _ => True
                                     | RRef l => base <= l
                                     end) items
  | OList _ => True
  end.

(** The heap [h] is the heap [h0] followed by new objects whose
    references all point to new objects. *)
Definition keeps (h0 h : heap) : Prop :=
  exists new, h = h0 ++ new /\ Forall (refs_from (length h0)) new.

(** The computation [m] leaves the objects of [h0] as they are, whatever
    its outcome, and a result it returns satisfies [post]. *)
Definition sound {A} (h0 : heap) (m : hM A) (post : A -> Prop) : Prop :=
  forall h, keeps h0 h ->
    keeps h0 (m h).1 /\ forall a, (m h).2 = Ok a -> post a.

(** [repr] with every address of the tree in the range from [lo] to
    [hi], the latter excluded. *)
Fixpoint repr_in (lo hi : nat) (h : heap) (t : tree) (v : ref_value) {struct t} : Prop :=
  match t, v with
  | TStr s, RStr s' => s = s'
  | TArr xs, RRef l => lo <= l < hi /\ h !! l = Some (OList xs)
  | TMap kvs, RRef l =>
      lo <= l < hi /\
      exists items,
        h !! l = Some (ODict items) /\
        (fix all2 (kvs : list (string * tree)) (items : list (string * ref_value)) :=
           match kvs, items with
           | [], [] => True
           | (k, t') :: kvs', (k', v') :: items' =>
               k = k' /\ repr_in lo hi h t' v' /\ all2 kvs' items'
           | _, _ => False
           end) kvs items
  | _, _ => False
  end.

(** An item of a dictionary in the heap represents an item of a mapping. *)
Definition item_repr (lo hi : nat) (h : heap)
    (kv : string * tree) (item : string * ref_value) : Prop :=
  kv.1 = item.1 /\ repr_in lo hi h kv.2 item.2.

(** One call of the heap labeler does what [recur_add_label] does: the
    argument lies below [base], the dictionary [track] at or above it, and
    what [track] holds lies above [track]. *)
Definition entry_refined (val : tree) : Prop :=
  forall limit key depth track track_pure node_id h items v base track_pure' node_id',
    length node_id < limit + depth ->
    recur_add_label val key depth track_pure node_id = Ok (track_pure', node_id') ->
    repr_in 0 base h val v ->
    base <= track ->
    h !! track = Some (ODict items) ->
    Forall2 (item_repr (S track) (length h) h) track_pure items ->
    exists h' items',
      h_recur_add_label limit track key v depth node_id h = (h', Ok node_id') /\
      length h <= length h' /\
      (forall l, l < length h -> l <> track -> h' !! l = h !! l) /\
      h' !! track = Some (ODict items') /\
      Forall2 (item_repr (S track) (length h') h') track_pure' items'.

Definition items_refined (kvs : list (string * tree)) : Prop :=
  forall limit depth track track_pure node_id h items vitems base track_pure' node_id',
    length node_id < limit + depth ->
    label_items depth kvs track_pure node_id = Ok (track_pure', node_id') ->
    Forall2 (item_repr 0 base h) kvs vitems ->
    base <= track ->
    h !! track = Some (ODict items) ->
    Forall2 (item_repr (S track) (length h) h) track_pure items ->
    exists h' items',
      h_label_items limit track depth vitems node_id h = (h', Ok node_id') /\
      length h <= length h' /\
      (forall l, l < length h -> l <> track -> h' !! l = h !! l) /\
      h' !! track = Some (ODict items') /\
      Forall2 (item_repr (S track) (length h') h') track_pure' items'.

(** ** Rows that have the columns a builder reads *)

(** The row has a cell in every column of [fields]. *)
Definition complete (fields : list string) (row : record) : Prop :=
  Forall (fun f => is_Some (row !! f)) fields.

#[global] Instance complete_dec (fields : list string) (row : record) :
  Decision (complete fields row).
Proof. unfold complete. apply _. Defined.

(** ** Nodes and entries of a tree *)

(** The names directly below a node: the keys of a mapping, the strings
    of an array. *)
Definition children (t : tree) : list string :=
  match t with
  | TMap kvs => kvs.*1
  | TArr xs => xs
  | TStr _ => []
  end.

(** The tree read back as a table: one entry for every string of every
    array, with the keys that lead to it, in the order of the tree. *)
Fixpoint tree_entries (t : tree) : list path_entry :=
  match t with
  | TStr _ => []
  | TArr xs => (fun s => ([], s)) <$> xs
  | TMap kvs =>
      flat_map (fun kv => (fun e : path_entry => (kv.1 :: e.1, e.2)) <$> tree_entries kv.2) kvs
  end.

(** ** Trees that the labeler accepts *)

(** Every value in the tree is an array or a mapping. *)
Fixpoint containers (t : tree) : Prop :=
  match t with
  | TStr _ => False
  | TArr _ => True
  | TMap kvs =>
      (fix all (kvs : list (string * tree)) : Prop :=
         match kvs with
         | [] => True
         | (_, v) :: kvs' => containers v /\ all kvs'
         end) kvs
  end.

(** The string [s] does not hold the character [c]. *)
Fixpoint lacks (c : ascii) (s : string) : Prop :=
  match s with
  | EmptyString => True
  | String c' s' => c' <> c /\ lacks c s'
  end.


(** ** The year-level tree as a function of the rows *)

(** The cells that [construct_with_yl] reads in a row, in the order in
    which it reads them: the result is the entry of the row, whose path
    holds the keys of the four levels and whose string goes under the
    next number of the topic, and the subtopic with the year-level
    token. *)
Definition yl_cells (all_fields : list string) (row : record)
    : result (path_entry * (string * string)) :=
  let* field := py_index all_fields IDX_CONTENT_TAG in
  let* next_tag := row_get row field in
  let* field := py_index all_fields IDX_YEAR_LEVEL in
  let* year_level := row_get row field in
  let* field := py_index all_fields IDX_SUBTOPIC in
  let* subtopic := row_get row field in
  let* field := py_index all_fields 0 in
  let* node0 := row_get row field in
  let* field := py_index all_fields 1 in
  let* node1 := row_get row field in
  let* field := py_index all_fields (DEPTH - 1) in
  let* topic := row_get row field in
  let* field := py_index all_fields DEPTH in
  let* tag_node := row_get row field in
  Ok (([node0; node1; topic; tag_node], "Y" +:+ year_level +:+ " " +:+ next_tag),
      (subtopic, "Y" +:+ year_level)).

(** The cells of all rows, up to the first row in which one is missing. *)
Definition yl_all_cells (all_fields : list string) (rs : list record)
    : result (list (path_entry * (string * string))) :=
  foldM (fun cells row => let* c := yl_cells all_fields row in Ok (cells ++ [c])) [] rs.

(** The entries of a topic with the numbers they are stored under,
    written as the tag index writes them. *)
Definition indexed (es : list path_entry) : list path_entry :=
  imap (fun i e => (e.1, pretty (Z.of_nat (S i)))) es.

(** The tag index of a topic: for every raw tag, in the order of first
    occurrence, the numbers of the entries that have it. *)
Definition tag_indices (es : list path_entry) : list (key * value) :=
  (fun tag => (KStr tag, VStr (py_join " " (below tag (indexed es)).*2)))
  <$> first_occ (heads es).

(** The element of a second-level array for [topic]; the paths of [es]
    hold the raw tag only. *)
Definition yl_topic (topic : string) (es : list path_entry) : value :=
  topic_node topic (tag_indices es) es.*2.

(** The array of a subtopic: one element for every topic, in the order
    of first occurrence. *)
Definition yl_array (es : list path_entry) : value :=
  VList ((fun topic => yl_topic topic (below topic es)) <$> first_occ (heads es)).

Definition yl_subtopics (es : list path_entry) : value :=
  VDict ((fun k => (KStr k, yl_array (below k es))) <$> first_occ (heads es)).

(** The tree after the rows with the entries [es]. *)
Definition yl_tree (es : list path_entry) : value :=
  VDict ((fun k => (KStr k, yl_subtopics (below k es))) <$> first_occ (heads es)).

(** The year levels recorded under [k], from the subtopics and tokens
    [ts] of the rows. *)
Definition yl_levels (ts : list (string * string)) (k : string) : gset string :=
  list_to_set (filter (fun t => k = "All levels" \/ t.1 = k) ts).*2.

(** [year_level_dict] after the rows. *)
Definition yl_summary (ts : list (string * string)) : list (string * gset string) :=
  (fun k => (k, yl_levels ts k)) <$> first_occ ("All levels" :: ts.*1).

(** The result: the keys of the first level and of the summary in the
    order of first occurrence, a summary taking the place of a subtree
    with the same key. *)
Definition yl_result (es : list path_entry) (ts : list (string * string)) : value :=
  VDict ((fun k => (KStr k,
                    if decide (k ∈ "All levels" :: ts.*1)
                    then VStr (py_join " " (py_sorted (elements (yl_levels ts k))))
                    else yl_subtopics (below k es)))
         <$> first_occ (heads es ++ "All levels" :: ts.*1)).

(** The entry of a row for [construct_with_yl]: the keys of the four
    levels, and the string that goes under the next number of the
    topic. *)
Definition yl_entry (all_fields : list string) (row : record) : path_entry :=
  ([row !!! field_at all_fields 0; row !!! field_at all_fields 1;
    row !!! field_at all_fields (DEPTH - 1); row !!! field_at all_fields DEPTH],
   "Y" +:+ row !!! field_at all_fields IDX_YEAR_LEVEL
   +:+ " " +:+ row !!! field_at all_fields IDX_CONTENT_TAG).

(** The subtopic of a row with its year-level token. *)
Definition yl_token (all_fields : list string) (row : record) : string * string :=
  (row !!! field_at all_fields IDX_SUBTOPIC,
   "Y" +:+ row !!! field_at all_fields IDX_YEAR_LEVEL).

(** The columns that [construct_with_yl] reads, in the order in which it
    reads them first. *)
Definition yl_columns (all_fields : list string) : list string :=
  field_at all_fields
  <$> [IDX_CONTENT_TAG; IDX_YEAR_LEVEL; IDX_SUBTOPIC; 0%Z; (DEPTH - 1)%Z; DEPTH].

(** ** The driver, up to the files

    The first block of [create_json_tree] hands the reader to
    [construct_json] with the constant [DEPTH] and labels the result,
<<
    struct_json = construct_json(csvReader, DEPTH)
    labeled_json = add_label(struct_json)
>> *)
Definition labeled_json (data : reader) : result tree :=
  let* struct_json := construct_json data DEPTH in
  add_label struct_json.

(** ** A small table

    Seven columns, four rows; the first and the last row agree on the
    first four columns. It serves the examples of the properties below. *)
Definition sample_fields : list string :=
  ["strand"; "subtopic"; "topic"; "point"; "code"; "tag"; "year"].

Definition sample_rows : list record :=
  [csv_row sample_fields ["a"; "b"; "c"; "d"; "e"; "t1"; "3"];
   csv_row sample_fields ["a"; "b"; "c"; "d2"; "e"; "t2"; "10"];
   csv_row sample_fields ["a"; "b2"; "c"; "d"; "e2"; "t1"; "3"];
   csv_row sample_fields ["a"; "b"; "c"; "d"; "e3"; "t3"; "5"]].

Definition sample : reader := Reader sample_fields sample_rows.

(** What the builders and the labeler return for it. *)
Definition sample_plain : tree :=
  TMap [("a", TMap [("b", TMap [("c", TArr ["d"; "d2"])]);
                    ("b2", TMap [("c", TArr ["d"])])])].

Definition sample_labeled : tree :=
  TMap [("1.1: a", TMap [("2.1: b", TMap [("3.1: c", TArr ["4.1: d"; "4.2: d2"])]);
                         ("2.2: b2", TMap [("3.2: c", TArr ["4.3: d"])])])].

Definition sample_detailed : tree :=
  TMap [("a", TMap [("b", TMap [("Y3", TArr ["t1"]); ("Y10", TArr ["t2"]);
                                ("Y5", TArr ["t3"])]);
                    ("b2", TMap [("Y3", TArr ["t1"])])])].

Definition sample_level1 : list (key * value) :=
  [(KStr "b",
    VList [VDict [(KStr "d", VDict [(KStr "e", VStr "1"); (KStr "e3", VStr "2")]);
                  (KInt 1, VStr "Y3 t1"); (KInt 2, VStr "Y5 t3")];
           VDict [(KStr "d2", VDict [(KStr "e", VStr "1")]);
                  (KInt 1, VStr "Y10 t2")]]);
   (KStr "b2",
    VList [VDict [(KStr "d", VDict [(KStr "e2", VStr "1")]);
                  (KInt 1, VStr "Y3 t1")]])].

Definition sample_yl : value :=
  VDict [(KStr "a", VDict sample_level1);
         (KStr "All levels", VStr "Y10 Y3 Y5");
         (KStr "b", VStr "Y10 Y3 Y5"); (KStr "b2", VStr "Y3")].

(** * Properties *)

Example scenario_plain :
  construct_json
    (Reader ["strand"; "subtopic"; "topic"; "point"]
       [csv_row ["strand"; "subtopic"; "topic"; "point"] ["x"; "y"; "p"; "q"];
        csv_row ["strand"; "subtopic"; "topic"; "point"] ["x"; "y"; "p"; "r"]]) 4
  = Ok (TMap [("x", TMap [("y", TMap [("p", TArr ["q"; "r"])])])]).
Proof. vm_compute. reflexivity. Qed.

Example scenario_label :
  add_label (TMap [("x", TMap [("y", TMap [("p", TArr ["q"; "r"])]);
                               ("z", TMap [("p", TArr ["q"])])])])
  = Ok (TMap [("1.1: x", TMap [("2.1: y", TMap [("3.1: p", TArr ["4.1: q"; "4.2: r"])]);
                               ("2.2: z", TMap [("3.2: p", TArr ["4.3: q"])])])]).
Proof. vm_compute. reflexivity. Qed.

Example scenario_yl :
  construct_with_yl
    (Reader ["strand"; "subtopic"; "topic"; "point"; "code"; "tag"; "year"]
       [csv_row ["strand"; "subtopic"; "topic"; "point"; "code"; "tag"; "year"]
          ["a"; "b"; "c"; "d"; "e"; "t1"; "3"];
        csv_row ["strand"; "subtopic"; "topic"; "point"; "code"; "tag"; "year"]
          ["a"; "b"; "c"; "d"; "e"; "t2"; "10"];
        csv_row ["strand"; "subtopic"; "topic"; "point"; "code"; "tag"; "year"]
          ["a"; "b2"; "c"; "d2"; "e"; "t1"; "3"]])
  = Ok (VDict
          [(KStr "a",
            VDict
              [(KStr "b",
                VList
                  [VDict
                     [(KStr "d", VDict [(KStr "e", VStr "1 2")]);
                      (KInt 1, VStr "Y3 t1"); (KInt 2, VStr "Y10 t2")]]);
               (KStr "b2",
                VList
                  [VDict
                     [(KStr "d2", VDict [(KStr "e", VStr "1")]);
                      (KInt 1, VStr "Y3 t1")]])]);
           (KStr "All levels", VStr "Y10 Y3");
           (KStr "b", VStr "Y10 Y3"); (KStr "b2", VStr "Y3")]).
Proof. vm_compute. reflexivity. Qed.

(** ** The error monad *)

Lemma bind_Ok {A B} (m : result A) (k : A -> result B) (b : B) :
  bind m k = Ok b <-> exists a, m = Ok a /\ k a = Ok b.
Proof.
  destruct m as [a|e]; simpl; split.
  - eauto.
  - intros (a' & [= <-] & Hk). exact Hk.
  - discriminate.
  - intros (a' & [=] & _).
Qed.

(** Splits every hypothesis [bind m k = Ok b] into its two runs. *)
Ltac inv_bind :=
  repeat match goal with
  | H : bind _ _ = Ok _ |- _ =>
      let a := fresh "a" in
      let Ha := fresh "Hrun" in
      apply bind_Ok in H as (a & Ha & H)
  | H : Ok _ = Ok _ |- _ => injection H as H
  | H : Raise _ = Ok _ |- _ => discriminate H
  end.

(** An invariant of a monadic loop: [P] relates the elements consumed so
    far to the state. *)
Lemma foldM_invariant {A B} (f : B -> A -> result B) (P : list A -> B -> Prop)
    (l : list A) (b0 b : B) :
  P [] b0 ->
  (forall done a b b', P done b -> f b a = Ok b' -> P (done ++ [a]) b') ->
  foldM f b0 l = Ok b -> P l b.
Proof.
  intros H0 Hstep.
  cut (forall done b1, P done b1 -> foldM f b1 l = Ok b -> P (done ++ l) b).
  { intros Hcut. apply (Hcut [] b0 H0). }
  induction l as [|a l IH]; intros done b1 HP Hrun; simpl in Hrun.
  - injection Hrun as <-. by rewrite app_nil_r.
  - inv_bind. rewrite cons_middle, app_assoc. eapply IH; [|done].
    eapply Hstep; eauto.
Qed.

(** ** Python indexing *)

Lemma py_index_elem_of {A} (l : list A) (i : Z) (x : A) :
  py_index l i = Ok x -> x ∈ l.
Proof.
  unfold py_index. intros H.
  repeat case_match; simplify_eq; by eapply list_elem_of_lookup_2.
Qed.

Lemma py_index_nonneg {A} (l : list A) (i : Z) :
  (0 <= i)%Z ->
  py_index l i = match l !! Z.to_nat i with Some x => Ok x | None => Raise IndexError end.
Proof.
  intros Hi. unfold py_index.
  destruct (Z.ltb_spec i 0); [lia|]. destruct (Z.ltb_spec i 0); [lia|done].
Qed.

Lemma py_index_neg {A} (l : list A) (i : Z) :
  (i < 0)%Z ->
  py_index l i =
    if (Z.of_nat (length l) + i <? 0)%Z then Raise IndexError
    else match l !! Z.to_nat (Z.of_nat (length l) + i) with
         | Some x => Ok x
         | None => Raise IndexError
         end.
Proof. intros Hi. unfold py_index. destruct (Z.ltb_spec i 0); [done|lia]. Qed.

Lemma py_index_last {A} (l : list A) (x : A) : py_index (l ++ [x]) (-1) = Ok x.
Proof.
  rewrite py_index_neg, length_app by lia. simpl length.
  destruct (Z.ltb_spec (Z.of_nat (length l + 1) + -1) 0); [lia|].
  rewrite list_lookup_middle by lia. done.
Qed.

Lemma py_index_last2 {A} (l : list A) (x y : A) :
  py_index (l ++ [x; y]) (-2) = Ok x.
Proof.
  rewrite py_index_neg, length_app by lia. simpl length.
  destruct (Z.ltb_spec (Z.of_nat (length l + 2) + -2) 0); [lia|].
  rewrite list_lookup_middle by lia. done.
Qed.

Lemma py_index_minus2_Ok {A} (l : list A) (x : A) :
  py_index l (-2) = Ok x -> exists l' y, l = l' ++ [x; y].
Proof.
  rewrite py_index_neg by lia. intros H.
  destruct (Z.ltb_spec (Z.of_nat (length l) + -2) 0); [done|].
  destruct (l !! _) as [x'|] eqn:Hl; simplify_eq.
  apply list_elem_of_split_length in Hl as (l1 & l2 & -> & Hlen).
  rewrite length_app in *. simpl in *.
  destruct l2 as [|y [|z l2]]; simpl in *; try lia.
  exists l1, y. done.
Qed.

Lemma py_slice_to_minus2 {A} (l : list A) (x y : A) :
  py_slice_to (l ++ [x; y]) (-2) = l.
Proof.
  unfold py_slice_to. simpl (_ <? _)%Z. cbv iota.
  rewrite length_app. simpl length.
  replace (Z.to_nat (Z.of_nat (length l + 2) + -2)) with (length l) by lia.
  by rewrite take_app_length.
Qed.

Lemma py_slice_to_subseteq {A} (l : list A) (n : Z) : py_slice_to l n ⊆ l.
Proof.
  unfold py_slice_to. case_match; apply subseteq_take.
Qed.

Lemma py_slice_to_nonneg {A} (l : list A) (n : Z) :
  (0 <= n)%Z -> py_slice_to l n = take (Z.to_nat n) l.
Proof. intros Hn. unfold py_slice_to. destruct (Z.ltb_spec n 0); [lia|done]. Qed.

(** ** Empty inputs *)

(** C1, as the code has it: on a reader with a header and no rows,
    [construct_json] and [detailed_tree] (depth 4) return the empty
    mapping, and [construct_with_yl] returns the mapping that holds the one
    summary entry ["All levels"], whose value is the empty string. *)
Theorem empty_rows_builders (fields : list string) :
  construct_json (Reader fields []) 4 = Ok (TMap []) /\
  detailed_tree (Reader fields []) 4 = Ok (TMap []) /\
  construct_with_yl (Reader fields []) = Ok (VDict [(KStr "All levels", VStr EmptyString)]).
Proof. repeat split. Qed.

(** C1 as stated fails: the year-level builder does not return [{}] on an
    input without rows. *)
Lemma empty_rows_not_all_empty :
  ~ (forall data : reader, rows data = [] ->
       construct_json data 4 = Ok (TMap []) /\
       construct_with_yl data = Ok (VDict []) /\
       detailed_tree data 4 = Ok (TMap [])).
Proof.
  intros H.
  destruct (H (Reader ["strand"; "subtopic"; "topic"; "point"; "code"] []) eq_refl)
    as (_ & Hyl & _).
  vm_compute in Hyl. discriminate Hyl.
Qed.

(** ** The plain builder reads only its first [depth] columns *)

Lemma row_get_ext (r1 r2 : record) (f : string) :
  r1 !! f = r2 !! f -> row_get r1 f = row_get r2 f.
Proof. unfold row_get. by intros ->. Qed.

Lemma descend_ext (fields : list string) (r1 r2 : record)
    (rest1 rest2 : tree -> result tree) (track : tree) :
  (forall f, f ∈ fields -> r1 !! f = r2 !! f) ->
  (forall t, rest1 t = rest2 t) ->
  descend fields r1 rest1 track = descend fields r2 rest2 track.
Proof.
  intros Hrows Hrest. revert track.
  induction fields as [|f fields IH]; intros track; simpl; [done|].
  rewrite (row_get_ext r1 r2 f) by (apply Hrows; left).
  destruct (row_get r2 f) as [k|]; simpl; [|done].
  destruct (tree_setdefault track k (TMap [])) as [track1|]; simpl; [|done].
  destruct (tree_getitem track1 k) as [child|]; simpl; [|done].
  rewrite IH; [done|]. intros f' Hf'. apply Hrows. by right.
Qed.

Lemma json_last_layers_ext (all_fields : list string) (r1 r2 : record) (track : tree) :
  (forall f, f ∈ all_fields -> r1 !! f = r2 !! f) ->
  json_last_layers all_fields r1 track = json_last_layers all_fields r2 track.
Proof.
  intros Hrows. unfold json_last_layers.
  destruct (py_index all_fields (-2)) as [f2|] eqn:H2; simpl; [|done].
  rewrite (row_get_ext r1 r2 f2) by (eapply Hrows, py_index_elem_of, H2).
  destruct (row_get r2 f2) as [k|]; simpl; [|done].
  destruct (tree_setdefault track k (TArr [])) as [track1|]; simpl; [|done].
  destruct (py_index all_fields (-1)) as [f1|] eqn:H1; simpl; [|done].
  rewrite (row_get_ext r1 r2 f1) by (eapply Hrows, py_index_elem_of, H1).
  done.
Qed.

Lemma construct_json_row_ext (all_fields : list string) (r1 r2 : record) (output : tree) :
  (forall f, f ∈ all_fields -> r1 !! f = r2 !! f) ->
  construct_json_row all_fields output r1 = construct_json_row all_fields output r2.
Proof.
  intros Hrows. unfold construct_json_row. apply descend_ext.
  - intros f Hf. apply Hrows. by eapply py_slice_to_subseteq.
  - intros t. by apply json_last_layers_ext.
Qed.

Lemma construct_json_slice_only (d1 d2 : reader) (depth : Z) :
  py_slice_to (fieldnames d1) depth = py_slice_to (fieldnames d2) depth ->
  Forall2 (fun r1 r2 : record =>
             forall f, f ∈ py_slice_to (fieldnames d1) depth -> r1 !! f = r2 !! f)
          (rows d1) (rows d2) ->
  construct_json d1 depth = construct_json d2 depth.
Proof.
  unfold construct_json. intros <- Hrows.
  generalize (TMap []) as output.
  induction Hrows as [|r1 r2 rs1 rs2 Hr _ IH]; intros output; simpl; [done|].
  rewrite (construct_json_row_ext _ r1 r2) by done.
  destruct (construct_json_row _ output r2); simpl; auto.
Qed.

(** C10: two readers with the same first [depth] column names, whose rows
    agree pairwise on the values of these columns, give the same result of
    [construct_json], whatever their other columns hold. *)
Theorem construct_json_first_columns_only (d1 d2 : reader) (depth : Z)
    (Hdepth : (0 <= depth)%Z)
    (Hnames : take (Z.to_nat depth) (fieldnames d1) = take (Z.to_nat depth) (fieldnames d2))
    (Hrows : Forall2 (fun r1 r2 : record =>
                        forall f, f ∈ take (Z.to_nat depth) (fieldnames d1) ->
                                  r1 !! f = r2 !! f)
                     (rows d1) (rows d2)) :
  construct_json d1 depth = construct_json d2 depth.
Proof.
  apply construct_json_slice_only; rewrite !py_slice_to_nonneg by done; done.
Qed.

Lemma construct_json_first_columns_only_witness :
  construct_json
    (Reader ["strand"; "subtopic"; "topic"; "point"; "code"]
       [csv_row ["strand"; "subtopic"; "topic"; "point"; "code"] ["x"; "y"; "p"; "q"; "1"]]) 4
  = construct_json
      (Reader ["strand"; "subtopic"; "topic"; "point"; "extra"; "note"]
         [csv_row ["strand"; "subtopic"; "topic"; "point"; "extra"; "note"]
            ["x"; "y"; "p"; "q"; "2"; "3"]]) 4.
Proof.
  apply (construct_json_first_columns_only
           (Reader ["strand"; "subtopic"; "topic"; "point"; "code"]
              [csv_row ["strand"; "subtopic"; "topic"; "point"; "code"] ["x"; "y"; "p"; "q"; "1"]])
           (Reader ["strand"; "subtopic"; "topic"; "point"; "extra"; "note"]
              [csv_row ["strand"; "subtopic"; "topic"; "point"; "extra"; "note"]
                 ["x"; "y"; "p"; "q"; "2"; "3"]])
           4).
  - lia.
  - reflexivity.
  - constructor; [|constructor]. intros f Hf. simpl in Hf.
    repeat (apply elem_of_cons in Hf as [->|Hf]; [vm_compute; reflexivity|]).
    by apply elem_of_nil in Hf.
Defined.

(** ** Induction on trees *)

Lemma tree_ind (P : tree -> Prop) :
  (forall s, P (TStr s)) ->
  (forall xs, P (TArr xs)) ->
  (forall kvs, Forall (fun kv => P kv.2) kvs -> P (TMap kvs)) ->
  forall t, P t.
Proof.
  intros Hstr Harr Hmap.
  fix IH 1. intros [s|xs|kvs].
  - apply Hstr.
  - apply Harr.
  - apply Hmap. induction kvs as [|[k v] kvs IHkvs]; constructor.
    + apply IH.
    + apply IHkvs.
Qed.

(** ** Labels *)

Lemma pretty_N_char_no_colon (x : N) : pretty_N_char x <> ":"%char.
Proof. unfold pretty_N_char. repeat case_match; discriminate. Qed.

Lemma pretty_N_go_no_colon (x : N) (s : string) :
  no_colon s -> no_colon (pretty_N_go x s).
Proof.
  revert s. induction (N.lt_wf_0 x) as [x _ IH]; intros s Hs.
  destruct (decide (x = 0)%N) as [->|Hx].
  - by rewrite pretty_N_go_0.
  - rewrite pretty_N_go_step by lia. apply IH.
    + apply N.div_lt; lia.
    + split; [apply pretty_N_char_no_colon|done].
Qed.

Lemma pretty_nat_no_colon (n : nat) : no_colon (pretty n).
Proof.
  unfold pretty, pretty_nat, pretty, pretty_N.
  case_decide.
  - simpl. split; [discriminate|done].
  - by apply pretty_N_go_no_colon.
Qed.

Lemma no_colon_split (a a' r r' : string) :
  no_colon a -> no_colon a' ->
  a +:+ String ":" r = a' +:+ String ":" r' -> a = a'.
Proof.
  revert a'. induction a as [|c a IH]; intros [|c' a']; simpl; intros Ha Ha' Heq.
  - done.
  - injection Heq as <- _. by destruct Ha' as [[] _].
  - injection Heq as -> _. by destruct Ha as [[] _].
  - injection Heq as -> Heq. f_equal. eapply IH; [apply Ha|apply Ha'|done].
Qed.

(** Two labels of one depth with different serials are different. *)
Lemma label_serial_inj (depth m m' : nat) (s s' : string) :
  label depth m s = label depth m' s' -> m = m'.
Proof.
  unfold label. intros Heq.
  apply (inj (String.app (pretty depth))) in Heq.
  apply (inj (String.app ".")) in Heq.
  apply (inj pretty). eapply no_colon_split, Heq; apply pretty_nat_no_colon.
Qed.

Lemma label_length (depth m : nat) (s : string) :
  String.length s < String.length (label depth m s).
Proof.
  unfold label.
  assert (Hlen : forall a b, String.length (a +:+ b) = String.length a + String.length b).
  { intros a b. induction a; simpl; auto. }
  rewrite !Hlen. simpl. lia.
Qed.

Lemma label_neq (depth m : nat) (s : string) : label depth m s <> s.
Proof.
  intros Heq. pose proof (label_length depth m s) as Hlen. rewrite Heq in Hlen. lia.
Qed.

(** ** Dictionaries *)

Section dict_lemmas.
Context {K V : Type} `{EqDecision K}.
Implicit Types (k : K) (v : V) (d : list (K * V)).

Lemma dict_get_None k d : dict_get k d = None <-> k ∉ d.*1.
Proof.
  induction d as [|[k' v'] d IH]; simpl.
  - split; [intros _; apply not_elem_of_nil|done].
  - rewrite not_elem_of_cons. case_decide; [|rewrite IH]; intuition congruence.
Qed.

Lemma dict_get_Some_elem_of k v d : dict_get k d = Some v -> (k, v) ∈ d.
Proof.
  induction d as [|[k' v'] d IH]; simpl; [done|].
  case_decide; intros Hget; simplify_eq; [left|right; auto].
Qed.

Lemma dict_get_is_Some k d : is_Some (dict_get k d) <-> k ∈ d.*1.
Proof.
  destruct (dict_get k d) as [v|] eqn:Hget.
  - split; [intros _|eauto].
    destruct (decide (k ∈ d.*1)) as [|Hn]; [done|].
    apply dict_get_None in Hn. congruence.
  - split; [by intros [? ?]|]. intros Hin. by apply dict_get_None in Hget.
Qed.

Lemma dict_mem_true k d : dict_mem k d = true <-> k ∈ d.*1.
Proof. unfold dict_mem. by rewrite bool_decide_eq_true, dict_get_is_Some. Qed.

Lemma dict_mem_false k d : dict_mem k d = false <-> k ∉ d.*1.
Proof. unfold dict_mem. by rewrite bool_decide_eq_false, dict_get_is_Some. Qed.

Lemma dict_set_fresh k v d : k ∉ d.*1 -> dict_set k v d = d ++ [(k, v)].
Proof.
  induction d as [|[k' v'] d IH]; simpl; [done|].
  rewrite not_elem_of_cons. intros [Hne Hnin].
  case_decide; [done|]. by rewrite IH.
Qed.

Lemma dict_set_keys_present k v d : k ∈ d.*1 -> (dict_set k v d).*1 = d.*1.
Proof.
  induction d as [|[k' v'] d IH]; simpl.
  - by intros ?%elem_of_nil.
  - case_decide; [done|]. intros [?|Hin]%elem_of_cons; [done|].
    rewrite !fmap_cons. f_equal. by apply IH.
Qed.

Lemma dict_get_set k k' v d :
  dict_get k' (dict_set k v d) = if decide (k' = k) then Some v else dict_get k' d.
Proof.
  induction d as [|[k0 v0] d IH]; simpl.
  - repeat case_decide; congruence.
  - repeat (case_decide; simpl; simplify_eq); try done.
Qed.

Lemma dict_set_NoDup k v d : NoDup d.*1 -> NoDup (dict_set k v d).*1.
Proof.
  destruct (decide (k ∈ d.*1)) as [Hin|Hnin].
  - by rewrite dict_set_keys_present.
  - rewrite dict_set_fresh, fmap_app by done. simpl. intros Hnd.
    apply NoDup_app. split_and!; [done| |apply NoDup_singleton].
    intros x Hx ->%list_elem_of_singleton. done.
Qed.

End dict_lemmas.

(** ** The labeler, equation by equation *)

Lemma recur_add_label_eq (val : tree) (key : string) (depth : nat)
    (track : list (string * tree)) (node_id : list nat) :
  recur_add_label val key depth track node_id =
  match node_id !! depth with
  | None => Raise IndexError
  | Some n =>
      let labeled_node := label (depth + 1) n key in
      let node_id := <[depth := n + 1]> node_id in
      match val with
      | TArr xs =>
          let* (sub, node_id) := label_leaves (depth + 1) xs [] node_id in
          Ok (dict_set labeled_node (TArr sub) track, node_id)
      | TMap kvs =>
          let* (sub, node_id) := label_items (depth + 1) kvs [] node_id in
          Ok (dict_set labeled_node (TMap sub) track, node_id)
      | TStr _ => Raise AttributeError
      end
  end.
Proof.
  destruct val as [s|xs|kvs]; simpl; try done.
  destruct (node_id !! depth) as [n|]; [|done]. simpl.
  f_equal. generalize (<[depth:=n + 1]> node_id) as nid.
  generalize (@nil (string * tree)) as sub.
  induction kvs as [|[k v] kvs IH]; intros sub nid; simpl; [done|].
  destruct (recur_add_label v k (depth + 1) sub nid) as [[sub' nid']|]; simpl; auto.
Qed.

(** ** Counters and relabelling *)

Lemma relabel_nil (d c : nat) : relabel d c [] = [].
Proof. done. Qed.

Lemma relabel_cons (d c : nat) (s : string) (l : list string) :
  relabel d c (s :: l) = label (d + 1) c s :: relabel d (c + 1) l.
Proof.
  unfold relabel. rewrite imap_cons, Nat.add_0_r. f_equal.
  apply imap_ext. intros i x _. simpl. f_equal. lia.
Qed.

Lemma relabel_app (d c : nat) (l1 l2 : list string) :
  relabel d c (l1 ++ l2) = relabel d c l1 ++ relabel d (c + length l1) l2.
Proof.
  unfold relabel. rewrite imap_app. f_equal.
  apply imap_ext. intros i x _. simpl. f_equal. lia.
Qed.

Lemma relabel_length (d c : nat) (l : list string) : length (relabel d c l) = length l.
Proof. unfold relabel. by rewrite length_imap. Qed.

Lemma bump_length (f : nat -> nat) (node_id : list nat) :
  length (bump f node_id) = length node_id.
Proof. unfold bump. by rewrite length_imap. Qed.

Lemma bump_lookup (f : nat -> nat) (node_id : list nat) (d : nat) :
  bump f node_id !! d = (fun c => c + f d) <$> node_id !! d.
Proof. unfold bump. by rewrite list_lookup_imap. Qed.

Lemma bump_ext (f g : nat -> nat) (node_id : list nat) :
  (forall d, d < length node_id -> f d = g d) -> bump f node_id = bump g node_id.
Proof.
  intros Hfg. apply imap_ext. intros d c Hd. simpl.
  rewrite Hfg; [done|]. by eapply lookup_lt_Some.
Qed.

Lemma bump_bump (f g : nat -> nat) (node_id : list nat) :
  bump g (bump f node_id) = bump (fun d => f d + g d) node_id.
Proof.
  apply list_eq. intros d. rewrite !bump_lookup.
  destruct (node_id !! d); simpl; f_equal; lia.
Qed.

Lemma bump_zero (f : nat -> nat) (node_id : list nat) :
  (forall d, d < length node_id -> f d = 0) -> bump f node_id = node_id.
Proof.
  intros Hf. apply list_eq. intros d. rewrite bump_lookup.
  destruct (node_id !! d) eqn:Hd; simpl; [|done].
  rewrite Hf, Nat.add_0_r; [done|]. by eapply lookup_lt_Some.
Qed.

Lemma insert_bump (node_id : list nat) (depth n : nat) :
  node_id !! depth = Some n ->
  <[depth := n + 1]> node_id = bump (fun d => if decide (d = depth) then 1 else 0) node_id.
Proof.
  intros Hn. apply list_eq. intros d. rewrite bump_lookup.
  destruct (decide (d = depth)) as [->|Hne].
  - rewrite list_lookup_insert_eq by (by eapply lookup_lt_Some). by rewrite Hn.
  - rewrite list_lookup_insert_ne by done.
    destruct (node_id !! d); simpl; f_equal; lia.
Qed.

(** The loop over a terminal array appends the relabelled strings and
    advances the counter of its depth by their number. *)
Lemma label_leaves_run (depth : nat) (xs track : list string) (node_id : list nat)
    (track' : list string) (node_id' : list nat) :
  label_leaves depth xs track node_id = Ok (track', node_id') ->
  track' = track ++ relabel depth (default 0 (node_id !! depth)) xs /\
  node_id' = bump (fun d => if decide (d = depth) then length xs else 0) node_id /\
  (xs <> [] -> is_Some (node_id !! depth)).
Proof.
  revert track node_id. induction xs as [|x xs IH]; intros track node_id; simpl.
  - intros [= <- <-]. rewrite app_nil_r. split_and!; [done| |done].
    symmetry. apply bump_zero. intros d _. by case_decide.
  - destruct (node_id !! depth) as [n|] eqn:Hn; [|done]. intros Hrun.
    apply IH in Hrun as (-> & -> & _).
    rewrite list_lookup_insert_eq by (by eapply lookup_lt_Some). simpl.
    split_and!; [| |by eauto].
    + by rewrite relabel_cons, <-app_assoc.
    + rewrite (insert_bump _ _ _ Hn), bump_bump. apply bump_ext.
      intros d _. case_decide; simpl; lia.
Qed.

Lemma label_leaves_total (depth : nat) (xs track : list string) (node_id : list nat) :
  is_Some (node_id !! depth) ->
  exists r, label_leaves depth xs track node_id = Ok r.
Proof.
  revert track node_id. induction xs as [|x xs IH]; intros track node_id [n Hn]; simpl.
  - eauto.
  - rewrite Hn. apply IH.
    rewrite list_lookup_insert_eq by (by eapply lookup_lt_Some). eauto.
Qed.

(** ** Shapes *)

Lemma same_shape_names (t u : tree) :
  same_shape t u ->
  forall d key key', length (entry_names d key t) = length (entry_names d key' u).
Proof.
  revert u. induction t as [s|xs|kvs IH] using tree_ind; intros u Hshape;
    inversion Hshape as [|? ys Hlen|? kvs' Hall]; subst; intros [|d] key key'; simpl; try done.
  - by destruct d.
  - clear Hshape. revert kvs' Hall.
    induction IH as [|[k v] kvs Hv _ IHkvs]; intros kvs' Hall;
      inversion Hall as [|? [k' v'] ? ? Hs Hall']; subst; simpl; [done|].
    rewrite !length_app. f_equal; [by apply Hv|by apply IHkvs].
Qed.

Lemma same_shape_refl (t : tree) : same_shape t t.
Proof.
  induction t as [s|xs|kvs IH] using tree_ind; constructor; [done|].
  induction IH; constructor; auto.
Qed.

Lemma same_shape_trans (t u v : tree) :
  same_shape t u -> same_shape u v -> same_shape t v.
Proof.
  revert u v. induction t as [s|xs|kvs IH] using tree_ind; intros u v Htu Huv;
    inversion Htu as [|? ys Hlen|? kvs' Hall]; subst;
    inversion Huv as [|? zs Hlen'|? kvs'' Hall']; subst; constructor; [congruence|].
  clear Htu Huv. revert kvs' kvs'' Hall Hall'.
  induction IH as [|[k a] kvs Ha _ IHkvs]; intros kvs' kvs'' Hall Hall';
    inversion Hall; subst; inversion Hall'; subst; constructor; eauto.
Qed.

(** ** One call of the labeler *)

Lemma keys_below_fresh (depth n : nat) (key : string) (track : list (string * tree)) :
  keys_below depth n track -> label (depth + 1) n key ∉ track.*1.
Proof.
  intros Hbelow Hin. apply Hbelow in Hin as (m & s & Heq & Hlt).
  apply label_serial_inj in Heq. lia.
Qed.

Lemma keys_below_snoc (depth n : nat) (key : string) (sub : tree)
    (track : list (string * tree)) :
  keys_below depth n track ->
  keys_below depth (n + 1) (track ++ [(label (depth + 1) n key, sub)]).
Proof.
  intros Hbelow k. rewrite fmap_app. simpl.
  intros [Hin| ->%list_elem_of_singleton]%elem_of_app.
  - apply Hbelow in Hin as (m & s & -> & Hlt). exists m, s. split; [done|lia].
  - exists n, key. split; [done|lia].
Qed.

Lemma entry_count_depth (depth : nat) (key : string) (val : tree) :
  entry_count depth key val depth = 1.
Proof. unfold entry_count. case_decide; [lia|]. by rewrite Nat.sub_diag. Qed.

Lemma items_labelled_of_entries (kvs : list (string * tree)) :
  Forall (fun kv => entry_labelled kv.2) kvs -> items_labelled kvs.
Proof.
  induction 1 as [|[k v] kvs Hv _ IH]; intros depth track node_id track' node_id'; simpl.
  - intros [= <- <-] _. exists []. rewrite app_nil_r. split_and!; try done.
    symmetry. apply bump_zero. intros d _. unfold items_count. by case_decide.
  - intros Hrun Hbelow. simpl in Hv. inv_bind. destruct a as [track1 node_id1].
    assert (exists n, node_id !! depth = Some n) as [n Hn].
    { rewrite recur_add_label_eq in Hrun0. destruct (node_id !! depth); [eauto|done]. }
    rewrite Hn in Hbelow. simpl in Hbelow.
    destruct (Hv k depth track node_id track1 node_id1 n Hrun0 Hn Hbelow)
      as (key' & sub1 & -> & Hshape1 & -> & Hnames1 & Hnone1).
    assert (Hkey' : key' = label (depth + 1) n k).
    { specialize (Hnames1 0 n). rewrite Nat.add_0_r in Hnames1.
      specialize (Hnames1 Hn). simpl in Hnames1.
      rewrite relabel_cons in Hnames1. by injection Hnames1. }
    subst key'.
    apply IH in Hrun as (sub & -> & Hshape & -> & Hnames & Hnone).
    { rewrite bump_lookup, Hn. simpl. rewrite entry_count_depth.
      by apply keys_below_snoc. }
    exists ((label (depth + 1) n k, sub1) :: sub). split_and!.
    + by rewrite <-app_assoc.
    + by constructor.
    + rewrite bump_bump. apply bump_ext. intros d _.
      unfold entry_count, items_count, items_names. simpl.
      case_decide; [done|]. by rewrite length_app.
    + intros e c Hc. unfold items_names. simpl.
      rewrite relabel_app. f_equal.
      * by apply Hnames1.
      * apply Hnames. rewrite bump_lookup, Hc. simpl. f_equal.
        unfold entry_count. case_decide; [lia|]. do 3 f_equal. lia.
    + intros e He. unfold items_names. simpl.
      rewrite (Hnone1 e He). simpl. apply Hnone.
      rewrite bump_lookup, He. done.
Qed.

Lemma entry_labelled_all (val : tree) : entry_labelled val.
Proof.
  induction val as [s|xs|kvs IH] using tree_ind;
    intros key depth track node_id track' node_id' n Hrun Hn Hbelow;
    rewrite recur_add_label_eq, Hn in Hrun; simpl in Hrun; [done| |].
  - (* a terminal array *)
    inv_bind. destruct a as [sub node_id1]. injection Hrun as <- <-.
    apply label_leaves_run in Hrun0 as (-> & -> & Hsome).
    exists (label (depth + 1) n key), (TArr (relabel (depth + 1)
      (default 0 (<[depth:=n + 1]> node_id !! (depth + 1))) xs)).
    split_and!.
    + apply dict_set_fresh. by apply keys_below_fresh.
    + constructor. by rewrite relabel_length.
    + rewrite (insert_bump _ _ _ Hn), bump_bump. apply bump_ext. intros d _.
      unfold entry_count. repeat case_decide; subst; try lia.
      * by rewrite Nat.sub_diag.
      * replace (depth + 1 - depth) with 1 by lia. simpl. lia.
      * destruct (d - depth) as [|[|e]] eqn:He; try lia. done.
    + intros [|[|e]] c Hc; simpl.
      * rewrite Nat.add_0_r in *. rewrite relabel_cons. simplify_eq. done.
      * rewrite list_lookup_insert_ne by lia. rewrite Hc. simpl.
        by replace (depth + 1) with (depth + 1 + 0) by lia.
      * done.
    + intros [|[|e]] He; simpl; try done.
      * rewrite Nat.add_0_r in He. congruence.
      * destruct xs as [|x xs]; [done|].
        destruct Hsome as [c Hc]; [done|].
        rewrite list_lookup_insert_ne in Hc by lia. congruence.
  - (* a mapping *)
    inv_bind. destruct a as [sub node_id1]. injection Hrun as <- <-.
    apply (items_labelled_of_entries _ IH) in Hrun0
      as (sub' & -> & Hshape & -> & Hnames & Hnone).
    { intros k Hk. by apply elem_of_nil in Hk. }
    exists (label (depth + 1) n key), (TMap sub'). split_and!.
    + apply dict_set_fresh. by apply keys_below_fresh.
    + by constructor.
    + rewrite (insert_bump _ _ _ Hn), bump_bump. apply bump_ext. intros d _.
      unfold entry_count, items_count. repeat case_decide; subst; try lia.
      * by rewrite Nat.sub_diag.
      * destruct (d - depth) as [|e] eqn:He; [lia|]. simpl.
        replace (d - (depth + 1)) with e by lia. done.
    + intros [|e] c Hc; simpl.
      * rewrite Nat.add_0_r in *. rewrite relabel_cons. simplify_eq. done.
      * replace (depth + S e) with (depth + 1 + e) in * by lia.
        apply Hnames. by rewrite list_lookup_insert_ne by lia.
    + intros [|e] He; simpl.
      * rewrite Nat.add_0_r in He. congruence.
      * replace (depth + S e) with (depth + 1 + e) in * by lia.
        apply Hnone. by rewrite list_lookup_insert_ne by lia.
Qed.

Lemma items_labelled_all (kvs : list (string * tree)) : items_labelled kvs.
Proof.
  apply items_labelled_of_entries, Forall_forall. intros kv _. apply entry_labelled_all.
Qed.

(** ** The counters alone *)

(** The counters after a call depend on the tree only, not on [track]. *)
Lemma recur_add_label_counters (val : tree) :
  forall key depth track node_id track' node_id',
    recur_add_label val key depth track node_id = Ok (track', node_id') ->
    node_id' = bump (entry_count depth key val) node_id.
Proof.
  induction val as [s|xs|kvs IH] using tree_ind;
    intros key depth track node_id track' node_id' Hrun;
    rewrite recur_add_label_eq in Hrun;
    destruct (node_id !! depth) as [n|] eqn:Hn; simpl in Hrun; try done.
  - inv_bind. destruct a as [sub node_id1]. injection Hrun as <- <-.
    apply label_leaves_run in Hrun0 as (_ & -> & _).
    rewrite (insert_bump _ _ _ Hn), bump_bump. apply bump_ext. intros d _.
    unfold entry_count. repeat case_decide; subst; try lia.
    + by rewrite Nat.sub_diag.
    + replace (depth + 1 - depth) with 1 by lia. simpl. lia.
    + destruct (d - depth) as [|[|e]] eqn:He; try lia. done.
  - inv_bind. destruct a as [sub node_id1]. injection Hrun as <- <-.
    assert (Hitems : forall depth' track0 nid0 track1 nid1,
      label_items depth' kvs track0 nid0 = Ok (track1, nid1) ->
      nid1 = bump (items_count depth' kvs) nid0).
    { clear -IH. induction IH as [|[k v] kvs Hv _ IHkvs];
        intros depth' track0 nid0 track1 nid1; simpl.
      - intros [= <- <-]. symmetry. apply bump_zero. intros d _.
        unfold items_count. by case_decide.
      - intros Hrun. inv_bind. destruct a as [track2 nid2].
        apply Hv in Hrun0 as ->. apply IHkvs in Hrun as ->.
        rewrite bump_bump. apply bump_ext. intros d _.
        unfold entry_count, items_count, items_names. simpl.
        case_decide; [done|]. by rewrite length_app. }
    apply Hitems in Hrun0 as ->.
    rewrite (insert_bump _ _ _ Hn), bump_bump. apply bump_ext. intros d _.
    unfold entry_count, items_count. repeat case_decide; subst; try lia.
    + by rewrite Nat.sub_diag.
    + destruct (d - depth) as [|e] eqn:He; [lia|]. simpl.
      replace (d - (depth + 1)) with e by lia. done.
Qed.

(** ** Trees on which the labeler returns *)

Lemma recur_add_label_length (val : tree) key depth track node_id track' node_id' :
  recur_add_label val key depth track node_id = Ok (track', node_id') ->
  length node_id' = length node_id.
Proof. intros ->%recur_add_label_counters. apply bump_length. Qed.

Lemma recur_add_label_total (budget : nat) :
  forall val key depth track node_id,
    fits budget val ->
    depth + budget = length node_id ->
    exists r, recur_add_label val key depth track node_id = Ok r.
Proof.
  induction budget as [|b IH]; intros val key depth track node_id Hfits Hlen;
    [done|].
  rewrite recur_add_label_eq.
  destruct (lookup_lt_is_Some_2 node_id depth) as [n Hn]; [lia|].
  rewrite Hn. simpl. destruct val as [s|xs|kvs]; simpl in Hfits; [done| |].
  - assert (exists r, label_leaves (depth + 1) xs [] (<[depth:=n + 1]> node_id) = Ok r)
      as [[sub nid] ->]; [|simpl; eauto].
    destruct Hfits as [->|Hb]; [simpl; eauto|].
    apply label_leaves_total, lookup_lt_is_Some_2. rewrite length_insert. lia.
  - assert (exists r, label_items (depth + 1) kvs [] (<[depth:=n + 1]> node_id) = Ok r)
      as [[sub nid] ->]; [|simpl; eauto].
    assert (Hlen' : depth + 1 + b = length (<[depth:=n + 1]> node_id))
      by (rewrite length_insert; lia).
    revert Hlen'. generalize (<[depth:=n + 1]> node_id) as nid.
    generalize (@nil (string * tree)) as sub.
    induction Hfits as [|[k v] kvs Hv _ IHkvs]; intros sub nid Hlen'; simpl; [eauto|].
    destruct (IH v k (depth + 1) sub nid Hv Hlen') as [[sub1 nid1] Hrun].
    rewrite Hrun. simpl. apply IHkvs.
    apply recur_add_label_length in Hrun. lia.
Qed.

Lemma label_items_total (budget depth : nat) (kvs : list (string * tree)) :
  forall track node_id,
    Forall (fun kv => fits budget kv.2) kvs ->
    depth + budget = length node_id ->
    exists r, label_items depth kvs track node_id = Ok r.
Proof.
  induction kvs as [|[k v] kvs IH]; intros track node_id Hfits Hlen; simpl; [eauto|].
  apply Forall_cons in Hfits as [Hv Hfits].
  destruct (recur_add_label_total budget v k depth track node_id Hv Hlen)
    as [[track1 nid1] Hrun].
  rewrite Hrun. simpl. apply IH; [done|].
  apply recur_add_label_length in Hrun. lia.
Qed.

Lemma fits_same_shape (budget : nat) :
  forall t u, same_shape t u -> fits budget t -> fits budget u.
Proof.
  induction budget as [|b IH]; intros t u Hshape; [done|].
  inversion Hshape as [|xs ys Hlen|kvs kvs' Hall]; subst; simpl; [done| |].
  - intros [->|Hb]; [left|by right]. by destruct ys.
  - clear Hshape. induction Hall as [|[k v] [k' v'] kvs kvs' Hs _ IHall];
      intros Hfits; [done|].
    apply Forall_cons in Hfits as [Hv Hfits].
    constructor; [by eapply IH|by apply IHall].
Qed.

(** ** The whole pass *)

Lemma add_label_run_Ok (t : tree) (out : list (string * tree)) (node_id : list nat) :
  add_label_run t = Ok (out, node_id) ->
  exists kvs,
    t = TMap kvs /\
    same_shape t (TMap out) /\
    node_id = bump (fun d => length (names_at d t)) (replicate (Z.to_nat DEPTH) 1) /\
    (forall d, names_at d (TMap out) = relabel d 1 (names_at d t)).
Proof.
  destruct t as [s|xs|kvs]; unfold add_label_run; [done..|]. intros Hrun. exists kvs.
  destruct (items_labelled_all kvs 0 [] _ _ _ Hrun)
    as (sub & -> & Hshape & -> & Hnames & Hnone).
  { intros k Hk. by apply elem_of_nil in Hk. }
  rewrite app_nil_l. split_and!; [done|by constructor| |].
  - apply bump_ext. intros d _. unfold items_count, names_at.
    case_decide; [lia|]. by rewrite Nat.sub_0_r.
  - intros d. unfold names_at. cbn [entry_names].
    destruct (replicate (Z.to_nat DEPTH) 1 !! d) as [c|] eqn:Hc.
    + apply lookup_replicate in Hc as [-> Hd]. apply (Hnames d 1).
      by apply lookup_replicate.
    + pose proof (Hnone d Hc) as Hnil. unfold items_names in Hnil. rewrite Hnil.
      rewrite relabel_nil.
      apply nil_length_inv.
      pose proof (same_shape_names (TMap kvs) (TMap sub)
                    ltac:(by constructor) (S d) EmptyString EmptyString) as Hlen.
      simpl in Hlen. by rewrite <-Hlen, Hnil.
Qed.

Lemma add_label_Ok (t out : tree) :
  add_label t = Ok out ->
  same_shape t out /\ forall d, names_at d out = relabel d 1 (names_at d t).
Proof.
  unfold add_label. intros Hrun. inv_bind. destruct a as [sub nid].
  injection Hrun as <-.
  apply add_label_run_Ok in Hrun0 as (kvs & -> & Hshape & _ & Hnames). done.
Qed.

Lemma add_label_total (kvs : list (string * tree)) :
  Forall (fun kv => fits (Z.to_nat DEPTH) kv.2) kvs ->
  exists out, add_label (TMap kvs) = Ok out.
Proof.
  intros Hfits. unfold add_label, add_label_run.
  destruct (label_items_total (Z.to_nat DEPTH) 0 kvs [] (replicate (Z.to_nat DEPTH) 1))
    as [[sub nid] Hrun]; [done|by rewrite length_replicate|].
  rewrite Hrun. simpl. eauto.
Qed.

(** Labelling a non-empty mapping changes its first key, so the labeler
    never returns its argument. *)
Lemma add_label_changes (t out : tree) :
  add_label t = Ok out -> t <> TMap [] -> out <> t.
Proof.
  intros Hrun Hne Heq. subst out.
  pose proof Hrun as Hrun'.
  apply add_label_Ok in Hrun as [_ Hnames]. specialize (Hnames 0).
  destruct t as [s|xs|[|[k v] kvs]]; try done.
  unfold names_at in Hnames. simpl in Hnames.
  rewrite relabel_cons in Hnames. injection Hnames as Hk _.
  symmetry in Hk. by apply label_neq in Hk.
Qed.

(** ** First occurrences *)

Lemma elem_of_first_occ (x : string) (l : list string) : x ∈ first_occ l <-> x ∈ l.
Proof.
  induction l as [|y l IH]; simpl; [done|].
  rewrite !elem_of_cons, list_elem_of_filter, IH.
  destruct (decide (x = y)); naive_solver.
Qed.

Lemma NoDup_first_occ (l : list string) : NoDup (first_occ l).
Proof.
  induction l as [|y l IH]; simpl; constructor.
  - rewrite list_elem_of_filter. naive_solver.
  - by apply NoDup_filter.
Qed.

Lemma add_new_elem_of (x s : string) (xs : list string) :
  x ∈ add_new xs s <-> x ∈ xs \/ x = s.
Proof.
  unfold add_new. case_bool_decide.
  - naive_solver.
  - rewrite elem_of_app, list_elem_of_singleton. done.
Qed.

Lemma first_occ_snoc (l : list string) (x : string) :
  first_occ (l ++ [x]) = add_new (first_occ l) x.
Proof.
  induction l as [|y l IH]; simpl.
  - unfold add_new. rewrite bool_decide_eq_false_2; [done|]. apply not_elem_of_nil.
  - rewrite IH. unfold add_new.
    destruct (decide (x = y)) as [->|Hne].
    + rewrite (bool_decide_eq_true_2 (y ∈ y :: _)) by left.
      case_bool_decide; [done|].
      rewrite filter_app, filter_cons_False, filter_nil, app_nil_r by naive_solver.
      done.
    + case_bool_decide as Hin.
      * rewrite bool_decide_eq_true_2; [done|].
        right. rewrite list_elem_of_filter. done.
      * rewrite bool_decide_eq_false_2.
        -- rewrite filter_app, filter_cons_True, filter_nil by done. done.
        -- rewrite elem_of_cons, list_elem_of_filter. naive_solver.
Qed.

Lemma foldl_add_new (l : list string) : foldl add_new [] l = first_occ l.
Proof.
  induction l as [|x l IH] using rev_ind; [done|].
  by rewrite foldl_snoc, IH, first_occ_snoc.
Qed.

(** ** Entries *)

Lemma heads_snoc (es : list path_entry) (k : string) (ks : list string) (s : string) :
  heads (es ++ [(k :: ks, s)]) = heads es ++ [k].
Proof. unfold heads. by rewrite omap_app. Qed.

Lemma below_snoc (k k' : string) (es : list path_entry) (ks : list string) (s : string) :
  below k' (es ++ [(k :: ks, s)]) =
    below k' es ++ (if decide (k = k') then [(ks, s)] else []).
Proof. unfold below. rewrite omap_app. simpl. by case_decide. Qed.

Lemma below_not_head (k : string) (es : list path_entry) :
  k ∉ heads es -> below k es = [].
Proof.
  unfold heads, below. induction es as [|[[|k' ks] s] es IH]; simpl; [done|auto|].
  rewrite not_elem_of_cons. intros [Hne Hnin]. case_decide; [congruence|auto].
Qed.

(** ** A mapping given by its keys and a function *)

Section keyed.
Context {V : Type}.
Implicit Types (g : string -> V) (l : list string).

Lemma keyed_keys g l : ((fun k => (k, g k)) <$> l).*1 = l.
Proof. rewrite <-list_fmap_compose. apply list_fmap_id. Qed.

Lemma dict_get_keyed g l k :
  dict_get k ((fun k => (k, g k)) <$> l) = if decide (k ∈ l) then Some (g k) else None.
Proof.
  induction l as [|k' l IH]; [done|]. cbn [fmap list_fmap dict_get].
  destruct (decide (k = k')) as [->|Hne].
  - rewrite decide_True; [done|left].
  - rewrite IH. destruct (decide (k ∈ l)) as [Hin|Hnin].
    + rewrite decide_True; [done|by right].
    + rewrite decide_False; [done|]. by intros [?|?]%elem_of_cons.
Qed.

Lemma keyed_ext g g' l :
  (forall k, k ∈ l -> g k = g' k) ->
  (fun k => (k, g k)) <$> l = (fun k => (k, g' k)) <$> l.
Proof.
  intros Hext. apply list_fmap_ext. intros i k Hk.
  rewrite Hext; [done|]. by eapply list_elem_of_lookup_2.
Qed.

Lemma dict_set_keyed g l k v :
  NoDup l ->
  dict_set k v ((fun k => (k, g k)) <$> l)
  = (fun k' => (k', if decide (k' = k) then v else g k')) <$> add_new l k.
Proof.
  intros Hnd. unfold add_new. case_bool_decide as Hin.
  - induction Hnd as [|k' l Hk' Hnd IH]; simpl.
    + by apply elem_of_nil in Hin.
    + destruct (decide (k = k')) as [->|Hne].
      * rewrite decide_True by done. f_equal.
        apply keyed_ext. intros k Hk. rewrite decide_False; [done|].
        intros ->. done.
      * rewrite (decide_False (P := k' = k)) by done. f_equal. apply IH.
        apply elem_of_cons in Hin as [?|?]; done.
  - rewrite dict_set_fresh by (by rewrite keyed_keys).
    rewrite fmap_app. simpl. rewrite decide_True by done. f_equal.
    apply keyed_ext. intros k' Hk'. rewrite decide_False; [done|].
    intros ->. done.
Qed.

End keyed.

(** ** Insertion of one entry into a grown tree *)

Lemma tree_contains_grow (arr : list string -> list string) (m : nat)
    (es : list path_entry) (k : string) :
  tree_contains k (grow arr (S m) es) = bool_decide (k ∈ heads es).
Proof.
  simpl. unfold dict_mem. apply bool_decide_ext.
  rewrite dict_get_is_Some, keyed_keys. apply elem_of_first_occ.
Qed.

(** One step down: the child under [k] is replaced by [child], which
    holds one more entry. *)
Lemma grow_step (arr : list string -> list string) (m : nat) (es : list path_entry)
    (k : string) (ks : list string) (s : string) (fresh : tree) :
  fresh = grow arr m [] ->
  exists track,
    tree_setdefault (grow arr (S m) es) k fresh = Ok track /\
    tree_getitem track k = Ok (grow arr m (below k es)) /\
    tree_setitem track k (grow arr m (below k es ++ [(ks, s)]))
      = Ok (grow arr (S m) (es ++ [(k :: ks, s)])).
Proof.
  intros ->.
  exists (TMap ((fun k' => (k', grow arr m (below k' es)))
                  <$> add_new (first_occ (heads es)) k)).
  split_and!.
  - unfold tree_setdefault. rewrite tree_contains_grow.
    unfold add_new. rewrite (bool_decide_ext _ _ (elem_of_first_occ k (heads es))).
    case_bool_decide as Hin; [done|].
    simpl. rewrite dict_set_fresh by (by rewrite keyed_keys, elem_of_first_occ).
    rewrite fmap_app. simpl. by rewrite (below_not_head k es).
  - simpl. rewrite dict_get_keyed.
    rewrite decide_True; [done|]. apply add_new_elem_of. by right.
  - simpl. rewrite heads_snoc, first_occ_snoc.
    assert (Hpresent : add_new (add_new (first_occ (heads es)) k) k
                       = add_new (first_occ (heads es)) k).
    { unfold add_new at 1. rewrite bool_decide_eq_true_2; [done|].
      apply add_new_elem_of. by right. }
    rewrite dict_set_keyed, Hpresent.
    + do 2 f_equal. apply keyed_ext. intros k' _. rewrite below_snoc.
      case_decide; subst.
      * by rewrite decide_True.
      * rewrite decide_False by done. by rewrite app_nil_r.
    + rewrite <-first_occ_snoc. apply NoDup_first_occ.
Qed.

(** The shared loop walks down the keys of the row and leaves the rest
    of the entry to [rest]. *)
Lemma descend_grow (arr : list string -> list string) (fields : list string)
    (row : record) (rest : tree -> result tree) (j : nat)
    (ks : list string) (s : string) :
  Forall (fun f => is_Some (row !! f)) fields ->
  (forall es, rest (grow arr (S j) es) = Ok (grow arr (S j) (es ++ [(ks, s)]))) ->
  forall es,
    descend fields row rest (grow arr (length fields + S j) es)
    = Ok (grow arr (length fields + S j) (es ++ [(row_values fields row ++ ks, s)])).
Proof.
  intros Hrow Hrest. induction Hrow as [|f fields [k Hk] _ IH]; intros es.
  - apply Hrest.
  - cbn [descend length Nat.add].
    unfold row_get. rewrite Hk. cbn [bind].
    destruct (grow_step arr (length fields + S j) es k
                (row_values fields row ++ ks) s (TMap []))
      as (track & Hdef & Hget & Hset).
    { by rewrite Nat.add_succ_r. }
    rewrite Hdef. cbn [bind]. rewrite Hget. cbn [bind].
    rewrite IH. cbn [bind]. rewrite Hset.
    unfold row_values. rewrite fmap_cons, (lookup_total_correct _ _ _ Hk). done.
Qed.

Lemma descend_Ok_fields (fields : list string) (row : record)
    (rest : tree -> result tree) (track out : tree) :
  descend fields row rest track = Ok out ->
  Forall (fun f => is_Some (row !! f)) fields.
Proof.
  revert track out. induction fields as [|f fields IH]; intros track out; simpl.
  - constructor.
  - intros Hrun. inv_bind. constructor; [|by eapply IH].
    unfold row_get in Hrun0. destruct (row !! f); [eauto|done].
Qed.

Lemma descend_Ok_rest (fields : list string) (row : record)
    (rest : tree -> result tree) (track out : tree) :
  descend fields row rest track = Ok out ->
  exists t0 t1, rest t0 = Ok t1.
Proof.
  revert track out. induction fields as [|f fields IH]; intros track out; simpl.
  - eauto.
  - intros Hrun. inv_bind. by eapply IH.
Qed.

Lemma dict_set_same {K V} `{EqDecision K} (k : K) (v : V) (d : list (K * V)) :
  dict_get k d = Some v -> dict_set k v d = d.
Proof.
  induction d as [|[k' v'] d IH]; simpl; [done|].
  case_decide; intros Hget; simplify_eq; [done|]. by rewrite IH.
Qed.

Lemma tree_setitem_same (track : tree) (k : string) (v : tree) :
  tree_getitem track k = Ok v -> tree_setitem track k v = Ok track.
Proof.
  destruct track as [s|xs|kvs]; simpl; [done..|].
  destruct (dict_get k kvs) eqn:Hget; [|done]. intros [= ->].
  by rewrite dict_set_same.
Qed.

Lemma grow_0 (arr : list string -> list string) (es : list path_entry) :
  grow arr 0 es = TArr (arr es.*2).
Proof. done. Qed.

(** ** The plain builder grows the tree of first occurrences *)

Lemma row_get_Ok (row : record) (f v : string) :
  row_get row f = Ok v <-> row !! f = Some v.
Proof. unfold row_get. destruct (row !! f); naive_solver. Qed.

Lemma json_last_layers_grow (init : list string) (f2 f1 : string) (row : record)
    (k s : string) (es : list path_entry) :
  row !! f2 = Some k ->
  row !! f1 = Some s ->
  json_last_layers (init ++ [f2; f1]) row (grow first_occ 1 es)
  = Ok (grow first_occ 1 (es ++ [([k], s)])).
Proof.
  intros Hk Hs. unfold json_last_layers.
  rewrite py_index_last2. cbn [bind].
  rewrite (proj2 (row_get_Ok _ _ _) Hk). cbn [bind].
  destruct (grow_step first_occ 0 es k [] s (TArr [])) as (track & Hdef & Hget & Hset);
    [done|].
  rewrite Hdef. cbn [bind].
  replace (init ++ [f2; f1]) with ((init ++ [f2]) ++ [f1]) by by rewrite <-app_assoc.
  rewrite py_index_last. cbn [bind].
  rewrite (proj2 (row_get_Ok _ _ _) Hs). cbn [bind].
  rewrite Hget. cbn [bind]. rewrite grow_0 in Hget, Hset |- *.
  rewrite fmap_app, fmap_cons, fmap_nil, first_occ_snoc in Hset. cbn [snd] in Hset.
  cbn [tree_contains]. unfold add_new in Hset. case_bool_decide as Hin.
  - rewrite <-Hset. symmetry. by apply tree_setitem_same.
  - done.
Qed.

Lemma json_last_layers_Ok (all_fields : list string) (row : record) (t0 t1 : tree) :
  json_last_layers all_fields row t0 = Ok t1 ->
  exists init f2 f1 k s,
    all_fields = init ++ [f2; f1] /\ row !! f2 = Some k /\ row !! f1 = Some s.
Proof.
  unfold json_last_layers. intros Hrun. inv_bind.
  apply py_index_minus2_Ok in Hrun0 as (init & f1 & ->).
  replace (init ++ [a; f1]) with ((init ++ [a]) ++ [f1]) in Hrun3
    by by rewrite <-app_assoc.
  rewrite py_index_last in Hrun3. injection Hrun3 as <-.
  apply row_get_Ok in Hrun1, Hrun4. by exists init, a, f1, a0, a3.
Qed.

Lemma py_slice_to_minus1 {A} (l : list A) (x : A) :
  py_slice_to (l ++ [x]) (-1) = l.
Proof.
  unfold py_slice_to. simpl (_ <? _)%Z. cbv iota.
  rewrite length_app. simpl length.
  replace (Z.to_nat (Z.of_nat (length l + 1) + -1)) with (length l) by lia.
  by rewrite take_app_length.
Qed.

Lemma field_at_last (l : list string) (x : string) : field_at (l ++ [x]) (-1) = x.
Proof. unfold field_at. by rewrite py_index_last. Qed.

Lemma row_values_app (fields1 fields2 : list string) (row : record) :
  row_values (fields1 ++ fields2) row = row_values fields1 row ++ row_values fields2 row.
Proof. unfold row_values. by rewrite fmap_app. Qed.

Lemma row_values_length (fields : list string) (row : record) :
  length (row_values fields row) = length fields.
Proof. unfold row_values. by rewrite length_fmap. Qed.

(** The number of levels of mappings in the result of [construct_json]. *)
Lemma construct_json_row_grow (all_fields : list string) (row : record)
    (es : list path_entry) (out : tree) :
  construct_json_row all_fields
    (grow first_occ (S (length (py_slice_to all_fields (-2)))) es) row = Ok out ->
  out = grow first_occ (S (length (py_slice_to all_fields (-2))))
          (es ++ [plain_entry all_fields row]).
Proof.
  unfold construct_json_row. intros Hrun.
  pose proof (descend_Ok_fields _ _ _ _ _ Hrun) as Hfields.
  destruct (descend_Ok_rest _ _ _ _ _ Hrun) as (t0 & t1 & Hrest).
  apply json_last_layers_Ok in Hrest as (init & f2 & f1 & k & s & -> & Hk & Hs).
  rewrite py_slice_to_minus2 in *.
  replace (S (length init)) with (length init + 1) in * by lia.
  rewrite (descend_grow first_occ init row _ 0 [k] s Hfields) in Hrun.
  - injection Hrun as <-. unfold plain_entry.
    replace (init ++ [f2; f1]) with ((init ++ [f2]) ++ [f1]) by by rewrite <-app_assoc.
    rewrite py_slice_to_minus1, field_at_last, row_values_app.
    unfold row_values at 3. simpl.
    by rewrite (lookup_total_correct _ _ _ Hk), (lookup_total_correct _ _ _ Hs).
  - intros es'. by apply json_last_layers_grow.
Qed.

Lemma construct_json_grow (data : reader) (depth : Z) (out : tree) :
  construct_json data depth = Ok out ->
  let all_fields := py_slice_to (fieldnames data) depth in
  out = grow first_occ (S (length (py_slice_to all_fields (-2))))
          (plain_entry all_fields <$> rows data).
Proof.
  intros Hrun all_fields. unfold construct_json in Hrun. fold all_fields in Hrun.
  refine (foldM_invariant (construct_json_row all_fields)
    (fun done t => t = grow first_occ (S (length (py_slice_to all_fields (-2))))
                         (plain_entry all_fields <$> done))
    (rows data) (TMap []) out eq_refl _ Hrun).
  intros done row t t' -> Hrow. rewrite fmap_app. simpl.
  by apply construct_json_row_grow.
Qed.

(** ** The detailed builder grows the tree of all occurrences *)

Lemma detailed_leaf_grow (all_fields : list string) (row : record)
    (fl ft yl tag : string) (es : list path_entry) :
  py_index all_fields (-1) = Ok fl -> row !! fl = Some yl ->
  py_index all_fields (-2) = Ok ft -> row !! ft = Some tag ->
  detailed_leaf all_fields row (grow id 1 es)
  = Ok (grow id 1 (es ++ [(["Y" +:+ yl], tag)])).
Proof.
  intros Hfl Hyl Hft Htag. unfold detailed_leaf.
  rewrite Hfl. cbn [bind].
  rewrite (proj2 (row_get_Ok _ _ _) Hyl). cbn [bind].
  destruct (grow_step id 0 es ("Y" +:+ yl) [] tag (TArr []))
    as (track & Hdef & Hget & Hset); [done|].
  rewrite Hdef. cbn [bind]. rewrite Hget. cbn [bind].
  rewrite grow_0 in Hset |- *. cbn [tree_append bind].
  rewrite Hft. cbn [bind].
  rewrite (proj2 (row_get_Ok _ _ _) Htag). cbn [bind].
  rewrite fmap_app in Hset. exact Hset.
Qed.

Lemma detailed_leaf_Ok (all_fields : list string) (row : record) (t0 t1 : tree) :
  detailed_leaf all_fields row t0 = Ok t1 ->
  exists fl ft yl tag,
    py_index all_fields (-1) = Ok fl /\ row !! fl = Some yl /\
    py_index all_fields (-2) = Ok ft /\ row !! ft = Some tag.
Proof.
  unfold detailed_leaf. intros Hrun. inv_bind.
  apply row_get_Ok in Hrun1, Hrun6. by exists a, a4, a0, a5.
Qed.

Lemma detailed_tree_row_grow (all_fields : list string) (depth : Z) (row : record)
    (es : list path_entry) (out : tree) :
  detailed_tree_row all_fields depth
    (grow id (S (length (py_slice_to all_fields depth))) es) row = Ok out ->
  out = grow id (S (length (py_slice_to all_fields depth)))
          (es ++ [detailed_entry all_fields depth row]).
Proof.
  unfold detailed_tree_row. intros Hrun.
  pose proof (descend_Ok_fields _ _ _ _ _ Hrun) as Hfields.
  destruct (descend_Ok_rest _ _ _ _ _ Hrun) as (t0 & t1 & Hrest).
  apply detailed_leaf_Ok in Hrest as (fl & ft & yl & tag & Hfl & Hyl & Hft & Htag).
  replace (S (length (py_slice_to all_fields depth)))
    with (length (py_slice_to all_fields depth) + 1) in * by lia.
  rewrite (descend_grow id _ row _ 0 ["Y" +:+ yl] tag Hfields) in Hrun.
  - injection Hrun as <-. unfold detailed_entry, field_at.
    rewrite Hfl, Hft.
    by rewrite (lookup_total_correct _ _ _ Hyl), (lookup_total_correct _ _ _ Htag).
  - intros es'. by eapply detailed_leaf_grow.
Qed.

Lemma detailed_tree_grow (data : reader) (depth : Z) (out : tree) :
  detailed_tree data depth = Ok out ->
  let all_fields := fieldnames data in
  out = grow id (S (length (py_slice_to all_fields depth)))
          (detailed_entry all_fields depth <$> rows data).
Proof.
  intros Hrun all_fields. unfold detailed_tree in Hrun. fold all_fields in Hrun.
  refine (foldM_invariant (detailed_tree_row all_fields depth)
    (fun done t => t = grow id (S (length (py_slice_to all_fields depth)))
                         (detailed_entry all_fields depth <$> done))
    (rows data) (TMap []) out eq_refl _ Hrun).
  intros done row t t' -> Hrow. rewrite fmap_app. simpl.
  by apply detailed_tree_row_grow.
Qed.

(** ** Arrays of a grown tree *)

Lemma tree_lookup_grow (arr : list string -> list string) (m : nat) :
  forall es path xs,
    tree_lookup path (grow arr m es) = Some (TArr xs) ->
    length path = m /\ xs = arr (under path es).*2.
Proof.
  induction m as [|m IH]; intros es [|k path] xs; simpl; try done.
  - by intros [= <-].
  - rewrite dict_get_keyed. case_decide; [|done]. simpl.
    intros [<- ->]%IH. done.
Qed.

Lemma under_nil (path : list string) : under path [] = [].
Proof. induction path; simpl; auto. Qed.

Lemma below_filter (k : string) (path : list string) (es : list path_entry) :
  (filter (fun e => e.1 = path) (below k es)).*2
  = (filter (fun e => e.1 = k :: path) es).*2.
Proof.
  unfold below. induction es as [|[[|k' ks] s] es IH]; simpl; [done| |].
  - rewrite filter_cons_False by done. done.
  - destruct (decide (k' = k)) as [->|Hne].
    + destruct (decide (ks = path)) as [->|Hne'].
      * rewrite !filter_cons_True by done. simpl. by f_equal.
      * rewrite !filter_cons_False by (simpl; congruence). done.
    + rewrite filter_cons_False by (simpl; congruence). done.
Qed.

Lemma below_lengths (k : string) (n : nat) (es : list path_entry) :
  Forall (fun e => length e.1 = S n) es ->
  Forall (fun e => length e.1 = n) (below k es).
Proof.
  unfold below. induction 1 as [|[[|k' ks] s] es Hlen _ IH]; simpl in *; [done..|].
  case_decide; [|done]. constructor; [simpl; lia|done].
Qed.

(** For entries whose paths have the length of [path], those under
    [path] are those with this path. *)
Lemma under_values (path : list string) :
  forall es,
    Forall (fun e => length e.1 = length path) es ->
    (under path es).*2 = (filter (fun e => e.1 = path) es).*2.
Proof.
  induction path as [|k path IH]; intros es Hlen; simpl.
  - f_equal. symmetry. induction Hlen as [|[ks s] es Hks _ IHes]; [done|].
    rewrite filter_cons_True; [by f_equal|]. by destruct ks.
  - rewrite IH by (by apply below_lengths). apply below_filter.
Qed.

Lemma filter_fmap_values {A} (key : A -> list string) (val : A -> string)
    (path : list string) (l : list A) :
  (filter (fun e : path_entry => e.1 = path) ((fun a => (key a, val a)) <$> l)).*2
  = val <$> filter (fun a => key a = path) l.
Proof.
  induction l as [|a l IH]; [done|]. rewrite fmap_cons.
  destruct (decide (key a = path)) as [Heq|Hne].
  - rewrite !filter_cons_True by done. rewrite !fmap_cons. by f_equal.
  - rewrite !filter_cons_False by done. done.
Qed.

Lemma py_slice_to_neg {A} (l : list A) (n : Z) :
  (n < 0)%Z -> py_slice_to l n = take (Z.to_nat (Z.of_nat (length l) + n)) l.
Proof. intros Hn. unfold py_slice_to. destruct (Z.ltb_spec n 0); [done|lia]. Qed.

Lemma py_slice_to_minus2_length {A} (l : list A) :
  2 <= length l -> S (length (py_slice_to l (-2))) = length (py_slice_to l (-1)).
Proof.
  intros Hlen. rewrite !py_slice_to_neg by lia. rewrite !length_take. lia.
Qed.

Lemma construct_json_fields (data : reader) (depth : Z) (out : tree) :
  construct_json data depth = Ok out ->
  rows data <> [] ->
  exists init f2 f1, py_slice_to (fieldnames data) depth = init ++ [f2; f1].
Proof.
  unfold construct_json. destruct (rows data) as [|row rs]; [done|].
  simpl. intros Hrun _. inv_bind.
  apply descend_Ok_rest in Hrun0 as (t0 & t1 & Hrest).
  apply json_last_layers_Ok in Hrest as (init & f2 & f1 & _ & _ & -> & _).
  eauto.
Qed.

(** C5: every array in the result of [construct_json] is free of
    duplicates, and lists, in the order of their first occurrence among
    the rows, the values that the last used column takes in the rows
    whose other used columns spell the path of the array. *)
Theorem construct_json_arrays (data : reader) (depth : Z) (out : tree)
    (path xs : list string)
    (Hrun : construct_json data depth = Ok out)
    (Harr : tree_lookup path out = Some (TArr xs)) :
  NoDup xs /\
  xs = first_occ
         ((fun row : record =>
             row !!! field_at (py_slice_to (fieldnames data) depth) (-1))
          <$> filter (fun row =>
                row_values (py_slice_to (py_slice_to (fieldnames data) depth) (-1)) row
                = path)
              (rows data)).
Proof.
  pose proof (construct_json_fields _ _ _ Hrun) as Hfields.
  apply construct_json_grow in Hrun. cbv zeta in Hrun.
  set (all_fields := py_slice_to (fieldnames data) depth) in *.
  subst out. apply tree_lookup_grow in Harr as [Hlen ->].
  split; [apply NoDup_first_occ|]. f_equal.
  destruct (decide (rows data = [])) as [Hrows|Hrows].
  { rewrite Hrows, fmap_nil, under_nil. done. }
  destruct (Hfields Hrows) as (init & f2 & f1 & Hinit).
  unfold plain_entry.
  rewrite <-(filter_fmap_values (fun row => row_values (py_slice_to all_fields (-1)) row)
               (fun row => row !!! field_at all_fields (-1))).
  apply under_values, Forall_fmap, Forall_forall. intros r _. simpl.
  rewrite row_values_length, Hlen.
  symmetry. apply py_slice_to_minus2_length.
  rewrite Hinit, length_app. simpl. lia.
Qed.

Lemma construct_json_arrays_witness :
  NoDup ["q"; "r"] /\
  ["q"; "r"] =
    first_occ
      ((fun row : record => row !!! "point")
       <$> filter (fun row => row_values ["strand"; "subtopic"; "topic"] row = ["x"; "y"; "p"])
             [csv_row ["strand"; "subtopic"; "topic"; "point"] ["x"; "y"; "p"; "q"];
              csv_row ["strand"; "subtopic"; "topic"; "point"] ["x"; "y"; "p"; "r"];
              csv_row ["strand"; "subtopic"; "topic"; "point"] ["x"; "z"; "p"; "s"];
              csv_row ["strand"; "subtopic"; "topic"; "point"] ["x"; "y"; "p"; "q"]]).
Proof.
  apply (construct_json_arrays
           (Reader ["strand"; "subtopic"; "topic"; "point"; "code"]
              [csv_row ["strand"; "subtopic"; "topic"; "point"] ["x"; "y"; "p"; "q"];
               csv_row ["strand"; "subtopic"; "topic"; "point"] ["x"; "y"; "p"; "r"];
               csv_row ["strand"; "subtopic"; "topic"; "point"] ["x"; "z"; "p"; "s"];
               csv_row ["strand"; "subtopic"; "topic"; "point"] ["x"; "y"; "p"; "q"]])
           4
           (TMap [("x", TMap [("y", TMap [("p", TArr ["q"; "r"])]);
                              ("z", TMap [("p", TArr ["s"])])])])
           ["x"; "y"; "p"] ["q"; "r"]).
  - vm_compute. reflexivity.
  - vm_compute. reflexivity.
Defined.

(** ** The labeler on the trees of the plain builder *)

Lemma fits_grow (arr : list string -> list string) (m : nat) :
  forall es b, m + 2 <= b -> fits b (grow arr m es).
Proof.
  induction m as [|m IH]; intros es [|b] Hb; try lia; simpl.
  - right. lia.
  - apply Forall_fmap, Forall_forall. intros k _. simpl. apply IH. lia.
Qed.

Lemma construct_json_fits (data : reader) (depth : Z) (out : tree) :
  (0 <= depth <= DEPTH)%Z ->
  construct_json data depth = Ok out ->
  exists kvs, out = TMap kvs /\ Forall (fun kv => fits (Z.to_nat DEPTH) kv.2) kvs.
Proof.
  intros Hdepth ->%construct_json_grow. cbv zeta. cbn [grow]. eexists. split; [done|].
  apply Forall_fmap, Forall_forall. intros k _. cbn [snd compose]. apply fits_grow.
  rewrite py_slice_to_neg, py_slice_to_nonneg by lia.
  rewrite !length_take. unfold DEPTH in *. lia.
Qed.

(** C3: on a tree that [construct_json] returns for a depth of at most
    [DEPTH], [add_label] returns a tree of the same shape in which the
    names of each depth [d], keys and strings of terminal arrays alike,
    taken in traversal order across all parents, are the names of the
    input rewritten: the decimal numeral of [d+1], a full stop, the
    decimal numeral of the serial, a colon, a space, and the old name.
    The serial runs from 1 on through the whole depth. *)
Theorem add_label_plain_tree (data : reader) (depth : Z) (t : tree)
    (Hdepth : (0 <= depth <= DEPTH)%Z)
    (Hrun : construct_json data depth = Ok t) :
  exists out,
    add_label t = Ok out /\
    same_shape t out /\
    forall d,
      names_at d out
      = imap (fun i s => pretty (d + 1) +:+ "." +:+ pretty (1 + i) +:+ ": " +:+ s)
          (names_at d t).
Proof.
  destruct (construct_json_fits data depth t Hdepth Hrun) as (kvs & -> & Hfits).
  destruct (add_label_total kvs Hfits) as [out Hout].
  exists out. split; [done|]. by apply add_label_Ok.
Qed.

Lemma add_label_plain_tree_witness :
  exists out,
    add_label (TMap [("x", TMap [("y", TMap [("p", TArr ["q"; "r"])]);
                                 ("z", TMap [("p", TArr ["q"])])])]) = Ok out /\
    same_shape (TMap [("x", TMap [("y", TMap [("p", TArr ["q"; "r"])]);
                                  ("z", TMap [("p", TArr ["q"])])])]) out /\
    forall d,
      names_at d out
      = imap (fun i s => pretty (d + 1) +:+ "." +:+ pretty (1 + i) +:+ ": " +:+ s)
          (names_at d (TMap [("x", TMap [("y", TMap [("p", TArr ["q"; "r"])]);
                                         ("z", TMap [("p", TArr ["q"])])])])).
Proof.
  apply (add_label_plain_tree
           (Reader ["strand"; "subtopic"; "topic"; "point"]
              [csv_row ["strand"; "subtopic"; "topic"; "point"] ["x"; "y"; "p"; "q"];
               csv_row ["strand"; "subtopic"; "topic"; "point"] ["x"; "y"; "p"; "r"];
               csv_row ["strand"; "subtopic"; "topic"; "point"] ["x"; "z"; "p"; "q"]])
           4%Z).
  - unfold DEPTH. lia.
  - vm_compute. reflexivity.
Defined.

(** C4: a call of [recur_add_label], and a run of the loop over a
    terminal array, leave the number of counters unchanged and lower none
    of them; and when [add_label] returns, the counter of each depth is 1
    plus the number of labels inserted at this depth, which is the number
    of names the input has there. *)
Theorem counters_monotone_and_final (t : tree) (out : list (string * tree)) (node_id : list nat)
    (Hrun : add_label_run t = Ok (out, node_id)) :
  (forall d, d < Z.to_nat DEPTH ->
     node_id !! d = Some (1 + length (names_at d (TMap out))) /\
     length (names_at d (TMap out)) = length (names_at d t)) /\
  (forall val key depth track nid track' nid',
     recur_add_label val key depth track nid = Ok (track', nid') ->
     length nid' = length nid /\
     forall d c, nid !! d = Some c -> exists c', nid' !! d = Some c' /\ c <= c') /\
  (forall depth val track nid track' nid',
     label_leaves depth val track nid = Ok (track', nid') ->
     length nid' = length nid /\
     forall d c, nid !! d = Some c -> exists c', nid' !! d = Some c' /\ c <= c').
Proof.
  split_and!.
  - intros d Hd.
    apply add_label_run_Ok in Hrun as (kvs & -> & Hshape & -> & Hnames).
    rewrite (Hnames d), relabel_length, bump_lookup.
    rewrite (proj2 (lookup_replicate _ _ _ _)) by done. done.
  - intros val key depth track nid track' nid' ->%recur_add_label_counters.
    split; [apply bump_length|]. intros d c Hc.
    rewrite bump_lookup, Hc. simpl. eexists. split; [done|lia].
  - intros depth val track nid track' nid' (_ & -> & _)%label_leaves_run.
    split; [apply bump_length|]. intros d c Hc.
    rewrite bump_lookup, Hc. simpl. eexists. split; [done|lia].
Qed.

Lemma counters_monotone_and_final_witness :
  [2; 3; 3; 4] !! 3
  = Some (1 + length (names_at 3
      (TMap [("1.1: x", TMap [("2.1: y", TMap [("3.1: p", TArr ["4.1: q"; "4.2: r"])]);
                              ("2.2: z", TMap [("3.2: p", TArr ["4.3: q"])])])]))) /\
  length (names_at 3
      (TMap [("1.1: x", TMap [("2.1: y", TMap [("3.1: p", TArr ["4.1: q"; "4.2: r"])]);
                              ("2.2: z", TMap [("3.2: p", TArr ["4.3: q"])])])]))
  = length (names_at 3
      (TMap [("x", TMap [("y", TMap [("p", TArr ["q"; "r"])]);
                         ("z", TMap [("p", TArr ["q"])])])])).
Proof.
  refine (proj1 (counters_monotone_and_final
    (TMap [("x", TMap [("y", TMap [("p", TArr ["q"; "r"])]);
                       ("z", TMap [("p", TArr ["q"])])])])
    [("1.1: x", TMap [("2.1: y", TMap [("3.1: p", TArr ["4.1: q"; "4.2: r"])]);
                      ("2.2: z", TMap [("3.2: p", TArr ["4.3: q"])])])]
    [2; 3; 3; 4] _) 3 _).
  - vm_compute. reflexivity.
  - vm_compute. lia.
Defined.

(** C8: on a non-empty tree returned by [construct_json], labelling the
    labelled tree once more succeeds and changes it. *)
Theorem add_label_not_idempotent (data : reader) (depth : Z) (t t1 : tree)
    (Hdepth : (0 <= depth <= DEPTH)%Z)
    (Hrun : construct_json data depth = Ok t)
    (Hne : t <> TMap [])
    (Hlab : add_label t = Ok t1) :
  exists t2, add_label t1 = Ok t2 /\ t2 <> t1.
Proof.
  destruct (construct_json_fits data depth t Hdepth Hrun) as (kvs & -> & Hfits).
  pose proof (add_label_Ok _ _ Hlab) as [Hshape _].
  inversion Hshape as [| |? kvs1 Hall]; subst.
  assert (Hfits1 : Forall (fun kv => fits (Z.to_nat DEPTH) kv.2) kvs1).
  { clear -Hall Hfits. induction Hall as [|[k v] [k' v'] kvs kvs1 Hs _ IH]; [done|].
    apply Forall_cons in Hfits as [Hv Hfits].
    constructor; [by eapply fits_same_shape|by apply IH]. }
  destruct (add_label_total kvs1 Hfits1) as [t2 Ht2].
  exists t2. split; [done|]. eapply add_label_changes; [done|].
  intros [= ->]. inversion Hall; subst. done.
Qed.

Lemma add_label_not_idempotent_witness :
  exists t2,
    add_label (TMap [("1.1: x", TMap [("2.1: y", TMap [("3.1: p", TArr ["4.1: q"; "4.2: r"])])])])
      = Ok t2 /\
    t2 <> TMap [("1.1: x", TMap [("2.1: y", TMap [("3.1: p", TArr ["4.1: q"; "4.2: r"])])])].
Proof.
  apply (add_label_not_idempotent
           (Reader ["strand"; "subtopic"; "topic"; "point"]
              [csv_row ["strand"; "subtopic"; "topic"; "point"] ["x"; "y"; "p"; "q"];
               csv_row ["strand"; "subtopic"; "topic"; "point"] ["x"; "y"; "p"; "r"]])
           4%Z
           (TMap [("x", TMap [("y", TMap [("p", TArr ["q"; "r"])])])])).
  - unfold DEPTH. lia.
  - vm_compute. reflexivity.
  - discriminate.
  - vm_compute. reflexivity.
Defined.

(** ** The builders return on well-formed inputs *)

Lemma foldM_grow {A} (f : tree -> A -> result tree) (g : list path_entry -> tree)
    (entry : A -> path_entry) (l : list A) :
  (forall es a, a ∈ l -> f (g es) a = Ok (g (es ++ [entry a]))) ->
  forall es, foldM f (g es) l = Ok (g (es ++ (entry <$> l))).
Proof.
  induction l as [|a l IH]; intros Hstep es; simpl.
  - by rewrite app_nil_r.
  - rewrite Hstep by left. simpl. rewrite IH.
    + by rewrite <-app_assoc.
    + intros es' a' Ha'. apply Hstep. by right.
Qed.

Lemma construct_json_total (data : reader) (depth : Z) :
  2 <= length (py_slice_to (fieldnames data) depth) ->
  Forall (fun row : record =>
            Forall (fun f => is_Some (row !! f)) (py_slice_to (fieldnames data) depth))
         (rows data) ->
  exists out, construct_json data depth = Ok out.
Proof.
  intros Hlen Hrows. unfold construct_json.
  set (all_fields := py_slice_to (fieldnames data) depth) in *.
  assert (exists init f2 f1, all_fields = init ++ [f2; f1]) as (init & f2 & f1 & Hfields).
  { destruct (py_index all_fields (-2)) as [f2|e] eqn:Hidx.
    - apply py_index_minus2_Ok in Hidx as (init & f1 & ->). eauto.
    - rewrite py_index_neg in Hidx by lia.
      destruct (Z.ltb_spec (Z.of_nat (length all_fields) + -2) 0); [lia|].
      destruct (lookup_lt_is_Some_2 all_fields
                  (Z.to_nat (Z.of_nat (length all_fields) + -2))) as [x Hx]; [lia|].
      by rewrite Hx in Hidx. }
  eexists.
  refine (foldM_grow (construct_json_row all_fields)
            (grow first_occ (S (length init))) (plain_entry all_fields) (rows data)
            _ []).
  intros es row Hrow. unfold construct_json_row.
  pose proof (proj1 (Forall_forall _ _) Hrows row Hrow) as Hcells.
  rewrite Hfields in *. rewrite py_slice_to_minus2.
  apply Forall_app in Hcells as [Hinit Hlast].
  apply Forall_cons in Hlast as [[k Hk] Hlast].
  apply Forall_cons in Hlast as [[s Hs] _].
  replace (S (length init)) with (length init + 1) by lia.
  rewrite (descend_grow first_occ init row _ 0 [k] s Hinit).
  - do 2 f_equal. unfold plain_entry.
    replace (init ++ [f2; f1]) with ((init ++ [f2]) ++ [f1]) by by rewrite <-app_assoc.
    rewrite py_slice_to_minus1, field_at_last, row_values_app.
    unfold row_values at 3. simpl.
    by rewrite (lookup_total_correct _ _ _ Hk), (lookup_total_correct _ _ _ Hs).
  - intros es'. by apply json_last_layers_grow.
Qed.

Lemma detailed_tree_total (data : reader) (depth : Z) :
  2 <= length (fieldnames data) ->
  Forall (fun row : record => Forall (fun f => is_Some (row !! f)) (fieldnames data))
         (rows data) ->
  exists out, detailed_tree data depth = Ok out.
Proof.
  intros Hlen Hrows. unfold detailed_tree.
  set (all_fields := fieldnames data) in *.
  assert (exists init ft fl, all_fields = init ++ [ft; fl]) as (init & ft & fl & Hfields).
  { destruct (py_index all_fields (-2)) as [f2|e] eqn:Hidx.
    - apply py_index_minus2_Ok in Hidx as (init & f1 & ->). eauto.
    - rewrite py_index_neg in Hidx by lia.
      destruct (Z.ltb_spec (Z.of_nat (length all_fields) + -2) 0); [lia|].
      destruct (lookup_lt_is_Some_2 all_fields
                  (Z.to_nat (Z.of_nat (length all_fields) + -2))) as [x Hx]; [lia|].
      by rewrite Hx in Hidx. }
  eexists.
  refine (foldM_grow (detailed_tree_row all_fields depth)
            (grow id (S (length (py_slice_to all_fields depth))))
            (detailed_entry all_fields depth) (rows data) _ []).
  intros es row Hrow. unfold detailed_tree_row.
  pose proof (proj1 (Forall_forall _ _) Hrows row Hrow) as Hcells.
  assert (Hwalk : Forall (fun f => is_Some (row !! f)) (py_slice_to all_fields depth)).
  { apply Forall_forall. intros f Hf.
    apply (proj1 (Forall_forall _ _) Hcells). by eapply py_slice_to_subseteq. }
  assert (Hfl : py_index all_fields (-1) = Ok fl).
  { rewrite Hfields.
    replace (init ++ [ft; fl]) with ((init ++ [ft]) ++ [fl]) by by rewrite <-app_assoc.
    apply py_index_last. }
  assert (Hft : py_index all_fields (-2) = Ok ft).
  { rewrite Hfields. apply py_index_last2. }
  destruct (proj1 (Forall_forall _ _) Hcells fl) as [yl Hyl].
  { by eapply py_index_elem_of. }
  destruct (proj1 (Forall_forall _ _) Hcells ft) as [tag Htag].
  { by eapply py_index_elem_of. }
  replace (S (length (py_slice_to all_fields depth)))
    with (length (py_slice_to all_fields depth) + 1) by lia.
  rewrite (descend_grow id _ row _ 0 ["Y" +:+ yl] tag Hwalk).
  - do 2 f_equal. unfold detailed_entry, field_at. rewrite Hfl, Hft.
    by rewrite (lookup_total_correct _ _ _ Hyl), (lookup_total_correct _ _ _ Htag).
  - intros es'. by eapply detailed_leaf_grow.
Qed.

(** ** The year levels recorded by the year-level builder *)

Lemma yl_add_Ok (key token : string) (d d' : list (string * gset string)) :
  yl_add key token d = Ok d' ->
  NoDup d.*1 ->
  NoDup d'.*1 /\
  forall k, dict_get k d' =
    if decide (k = key) then (fun s => s ∪ {[token]}) <$> dict_get k d
    else dict_get k d.
Proof.
  unfold yl_add. destruct (dict_get key d) as [s|] eqn:Hget; [|done].
  intros [= <-] Hnd. split; [by apply dict_set_NoDup|].
  intros k. rewrite dict_get_set. case_decide; subst; [by rewrite Hget|done].
Qed.

Lemma yl_record_Ok (subtopic year_level : string) (d d' : list (string * gset string))
    (all : gset string) :
  yl_record subtopic year_level d = Ok d' ->
  NoDup d.*1 ->
  dict_get "All levels" d = Some all ->
  NoDup d'.*1 /\
  dict_get "All levels" d' = Some (all ∪ {["Y" +:+ year_level]}).
Proof.
  unfold yl_record. intros Hrun Hnd Hall. inv_bind.
  assert (Hnd0 : NoDup (if dict_mem subtopic d then d else dict_set subtopic ∅ d).*1).
  { case_match; [done|by apply dict_set_NoDup]. }
  assert (Hall0 : dict_get "All levels"
                    (if dict_mem subtopic d then d else dict_set subtopic ∅ d)
                  = Some all).
  { case_match eqn:Hmem; [done|]. rewrite dict_get_set.
    case_decide; [|done]. subst.
    apply dict_mem_false in Hmem. apply dict_get_None in Hmem. congruence. }
  apply yl_add_Ok in Hrun0 as [Hnd1 Hget1]; [|done].
  apply yl_add_Ok in Hrun as [Hnd2 Hget2]; [|done].
  split; [done|]. rewrite Hget2, decide_True, Hget1 by done.
  case_decide; rewrite Hall0; simpl; f_equal; set_solver.
Qed.

Lemma yl_row_Ok (all_fields : list string) (st st' : yl_state) (row : record) :
  yl_row all_fields st row = Ok st' ->
  exists subtopic,
    yl_record subtopic (row !!! field_at all_fields (-1)) (year_level_dict st)
    = Ok (year_level_dict st').
Proof.
  unfold yl_row. intros Hrun. inv_bind. destruct a6 as [output idxs].
  injection Hrun as <-. simpl. exists a4.
  unfold IDX_YEAR_LEVEL in *. unfold field_at. rewrite Hrun2.
  apply row_get_Ok in Hrun3. by rewrite (lookup_total_correct _ _ _ Hrun3).
Qed.

(** After the rows, the set of ["All levels"] holds the token of each
    row, and no key of the summary occurs twice. *)
Lemma yl_rows_summary (all_fields : list string) (rs : list record) (st : yl_state) :
  foldM (yl_row all_fields) yl_init rs = Ok st ->
  NoDup (year_level_dict st).*1 /\
  dict_get "All levels" (year_level_dict st)
  = Some (list_to_set
            ((fun row : record => "Y" +:+ row !!! field_at all_fields (-1)) <$> rs)).
Proof.
  intros Hrun.
  refine (foldM_invariant (yl_row all_fields)
    (fun done st =>
       NoDup (year_level_dict st).*1 /\
       dict_get "All levels" (year_level_dict st)
       = Some (list_to_set
                 ((fun row : record => "Y" +:+ row !!! field_at all_fields (-1))
                  <$> done)))
    rs yl_init st _ _ Hrun).
  - split; [apply NoDup_singleton|done].
  - intros done row st1 st2 [Hnd Hall] [subtopic Hrec]%yl_row_Ok.
    destruct (yl_record_Ok _ _ _ _ _ Hrec Hnd Hall) as [Hnd' Hall'].
    split; [done|]. rewrite Hall'. f_equal.
    rewrite fmap_app, list_to_set_app_L. simpl. set_solver.
Qed.

(** The report writes each summary entry under its key. *)
Lemma yl_report_Ok (items : list (string * gset string)) :
  forall track out,
    foldM yl_report track items = Ok out ->
    NoDup items.*1 ->
    forall k s, (k, s) ∈ items ->
      py_getitem out (KStr k) = Ok (VStr (py_join " " (py_sorted (elements s)))).
Proof.
  induction items as [|[k0 s0] items IH]; intros track out Hrun Hnd k s Hin.
  - by apply elem_of_nil in Hin.
  - simpl in Hrun. inv_bind. apply NoDup_cons in Hnd as [Hk0 Hnd].
    apply elem_of_cons in Hin as [[= -> ->]|Hin]; [|by eapply IH].
    clear IH. unfold yl_report in Hrun0. simpl in Hrun0.
    destruct track as [?|?|kvs]; try done. injection Hrun0 as <-.
    assert (Hkeep : forall items track out v,
      foldM yl_report (VDict track) items = Ok out ->
      k0 ∉ items.*1 ->
      dict_get (KStr k0) track = Some v ->
      py_getitem out (KStr k0) = Ok v).
    { clear. induction items as [|[k1 s1] items IH]; intros track out v; simpl.
      - intros [= <-] _ Hget. simpl. by rewrite Hget.
      - intros Hrun [Hne Hnin]%not_elem_of_cons Hget.
        eapply IH; [done..|]. rewrite dict_get_set.
        rewrite decide_False; [done|]. congruence. }
    eapply Hkeep; [done..|]. rewrite dict_get_set. by rewrite decide_True.
Qed.

Lemma py_sorted_spec (s : gset string) :
  Sorted String.le (py_sorted (elements s)) /\
  NoDup (py_sorted (elements s)) /\
  forall t, t ∈ py_sorted (elements s) <-> t ∈ s.
Proof.
  unfold py_sorted. split_and!.
  - apply Sorted_merge_sort. apply _.
  - rewrite merge_sort_Permutation. apply NoDup_elements.
  - intros t. rewrite merge_sort_Permutation. apply elem_of_elements.
Qed.

(** C7: the entry ["All levels"] of the result of [construct_with_yl] is
    the tokens ["Y<last column>"] of the rows, sorted in ascending order,
    each once, joined by single spaces. *)
Theorem all_levels_summary (data : reader) (out : value)
    (Hrun : construct_with_yl data = Ok out) :
  exists sorted_val : list string,
    py_getitem out (KStr "All levels") = Ok (VStr (py_join " " sorted_val)) /\
    Sorted String.le sorted_val /\
    NoDup sorted_val /\
    forall t, t ∈ sorted_val <->
      exists row, row ∈ rows data /\
                  t = "Y" +:+ row !!! field_at (fieldnames data) IDX_YEAR_LEVEL.
Proof.
  unfold construct_with_yl in Hrun. inv_bind.
  destruct (yl_rows_summary _ _ _ Hrun0) as [Hnd Hall].
  apply dict_get_Some_elem_of in Hall.
  pose proof (yl_report_Ok _ _ _ Hrun Hnd _ _ Hall) as Hget.
  eexists. split; [exact Hget|].
  destruct (py_sorted_spec (list_to_set
    ((fun row : record => "Y" +:+ row !!! field_at (fieldnames data) (-1))
     <$> rows data))) as (Hsorted & Hnodup & Helem).
  split_and!; [done..|].
  intros t. rewrite Helem, elem_of_list_to_set, list_elem_of_fmap.
  unfold IDX_YEAR_LEVEL. naive_solver.
Qed.

Lemma all_levels_summary_witness :
  exists sorted_val : list string,
    py_getitem
      (VDict
         [(KStr "a",
           VDict [(KStr "b",
                   VList [VDict [(KStr "d", VDict [(KStr "e", VStr "1 2 3")]);
                                 (KInt 1, VStr "Y3 t1"); (KInt 2, VStr "Y10 t2");
                                 (KInt 3, VStr "Y3 t3")]])]);
          (KStr "All levels", VStr "Y10 Y3"); (KStr "b", VStr "Y10 Y3")])
      (KStr "All levels") = Ok (VStr (py_join " " sorted_val)) /\
    Sorted String.le sorted_val /\
    NoDup sorted_val /\
    forall t, t ∈ sorted_val <->
      exists row,
        row ∈ [csv_row ["strand"; "subtopic"; "topic"; "point"; "code"; "tag"; "year"]
                 ["a"; "b"; "c"; "d"; "e"; "t1"; "3"];
               csv_row ["strand"; "subtopic"; "topic"; "point"; "code"; "tag"; "year"]
                 ["a"; "b"; "c"; "d"; "e"; "t2"; "10"];
               csv_row ["strand"; "subtopic"; "topic"; "point"; "code"; "tag"; "year"]
                 ["a"; "b"; "c"; "d"; "e"; "t3"; "3"]] /\
        t = "Y" +:+ row !!! field_at
                              ["strand"; "subtopic"; "topic"; "point"; "code"; "tag"; "year"]
                              IDX_YEAR_LEVEL.
Proof.
  apply (all_levels_summary
           (Reader ["strand"; "subtopic"; "topic"; "point"; "code"; "tag"; "year"]
              [csv_row ["strand"; "subtopic"; "topic"; "point"; "code"; "tag"; "year"]
                 ["a"; "b"; "c"; "d"; "e"; "t1"; "3"];
               csv_row ["strand"; "subtopic"; "topic"; "point"; "code"; "tag"; "year"]
                 ["a"; "b"; "c"; "d"; "e"; "t2"; "10"];
               csv_row ["strand"; "subtopic"; "topic"; "point"; "code"; "tag"; "year"]
                 ["a"; "b"; "c"; "d"; "e"; "t3"; "3"]])).
  vm_compute. reflexivity.
Defined.

(** ** Dictionaries whose values satisfy a predicate *)

Section dict_values.
Context {K V : Type} `{EqDecision K} (P : V -> Prop).
Implicit Types (k : K) (v : V) (d : list (K * V)).

Lemma dict_get_Forall k v d :
  Forall (fun kv => P kv.2) d -> dict_get k d = Some v -> P v.
Proof.
  intros Hall Hget%dict_get_Some_elem_of.
  by apply (proj1 (Forall_forall _ _) Hall (k, v)).
Qed.

Lemma dict_set_Forall k v d :
  Forall (fun kv => P kv.2) d -> P v -> Forall (fun kv => P kv.2) (dict_set k v d).
Proof.
  intros Hall Hv. induction Hall as [|[k' v'] d Hv' Hd IH]; simpl.
  - by constructor.
  - case_decide; constructor; done.
Qed.

End dict_values.

(** ** Topic nodes *)

Lemma numbered_snoc (entries : list string) (entry : string) :
  numbered (entries ++ [entry])
  = numbered entries ++ [(KInt (Z.of_nat (S (length entries))), VStr entry)].
Proof.
  unfold numbered. rewrite imap_app. simpl. by rewrite Nat.add_0_r.
Qed.

Lemma numbered_length (entries : list string) : length (numbered entries) = length entries.
Proof. unfold numbered. by rewrite length_imap. Qed.

Lemma numbered_keys (entries : list string) (k : key) :
  k ∈ (numbered entries).*1 ->
  exists i, k = KInt (Z.of_nat (S i)) /\ i < length entries.
Proof.
  unfold numbered. intros ((k' & v) & -> & Hin)%list_elem_of_fmap.
  apply list_elem_of_lookup in Hin as [i Hi].
  rewrite list_lookup_imap in Hi.
  destruct (entries !! i) as [s|] eqn:Hs; simplify_eq/=.
  exists i. split; [done|]. by eapply lookup_lt_Some.
Qed.

Lemma py_len_topic_node (topic : string) inner (entries : list string) :
  py_len (topic_node topic inner entries) = Z.of_nat (S (length entries)).
Proof. simpl. by rewrite numbered_length. Qed.

Lemma py_contains_topic_node (next_node topic : string) inner (entries : list string) :
  py_contains next_node (topic_node topic inner entries) = bool_decide (next_node = topic).
Proof.
  simpl. unfold dict_mem. apply bool_decide_ext. rewrite dict_get_is_Some. simpl.
  rewrite elem_of_cons. split; [|intros ->; by left].
  intros [[= ->]|Hin]; [done|].
  by apply numbered_keys in Hin as (i & [=] & _).
Qed.

Lemma tag_index_set (inner : list (key * value)) (tag idxs : string) :
  tag_index inner -> tag_index (dict_set (KStr tag) (VStr idxs) inner).
Proof.
  unfold tag_index. induction 1 as [|[k v] inner Hkv Hrest IH]; simpl.
  - constructor; [by exists tag, idxs|constructor].
  - case_decide; subst; constructor; try done. by exists tag, idxs.
Qed.

Lemma tag_index_get (inner : list (key * value)) (k : key) (v : value) :
  tag_index inner -> dict_get k inner = Some v -> exists idxs, v = VStr idxs.
Proof.
  intros Hinner Hget%dict_get_Some_elem_of.
  destruct (proj1 (Forall_forall _ _) Hinner _ Hget) as (tag & idxs & [= _ ->]).
  eauto.
Qed.

(** The statements of the third level that work on the element found or
    created: the entry goes into the element itself, under the size the
    element had, and the index of the raw tag into the inner mapping. *)
Lemma topic_node_update (topic tag_node entry : string) inner (entries : list string) :
  tag_index inner ->
  exists inner',
    tag_index inner' /\
    (let elem := topic_node topic inner entries in
     let dis_idx := py_len elem in
     let* elem := py_setitem elem (KInt dis_idx) (VStr entry) in
     let* inner := py_getitem elem (KStr topic) in
     let* inner :=
       if py_contains tag_node inner
       then
         let* old := py_getitem inner (KStr tag_node) in
         let* new := py_iadd_str old (" " +:+ pretty dis_idx) in
         py_setitem inner (KStr tag_node) new
       else py_setitem inner (KStr tag_node) (VStr (pretty dis_idx)) in
     py_setitem elem (KStr topic) inner)
    = Ok (topic_node topic inner' (entries ++ [entry])).
Proof.
  intros Hinner. cbv zeta. rewrite py_len_topic_node.
  unfold topic_node at 1. cbn [py_setitem bind].
  assert (Hfresh : dict_set (KInt (Z.of_nat (S (length entries)))) (VStr entry)
                     ((KStr topic, VDict inner) :: numbered entries)
                   = (KStr topic, VDict inner) :: numbered (entries ++ [entry])).
  { rewrite dict_set_fresh, numbered_snoc; [done|]. simpl.
    rewrite not_elem_of_cons. split; [done|].
    intros (i & [= Hi] & Hlt)%numbered_keys. lia. }
  rewrite Hfresh. cbn [py_getitem dict_get]. rewrite decide_True by done.
  cbn [bind py_contains].
  destruct (dict_mem (KStr tag_node) inner) eqn:Hmem.
  - apply dict_mem_true, dict_get_is_Some in Hmem as [old Hold].
    cbn [py_getitem]. rewrite Hold. cbn [bind].
    destruct (tag_index_get _ _ _ Hinner Hold) as [idxs ->].
    cbn [py_iadd_str bind py_setitem dict_set]. rewrite decide_True by done.
    eexists. split; [|done]. by apply tag_index_set.
  - cbn [py_setitem bind dict_set]. rewrite decide_True by done.
    eexists. split; [|done]. by apply tag_index_set.
Qed.

(** ** The third level *)

Lemma find_node_true (next_node : string) (track : value) (range : list Z) :
  forall cur_idx node_exists cur_idx',
    find_node next_node track range cur_idx node_exists = Ok (cur_idx', true) ->
    (node_exists = true /\ cur_idx' = cur_idx) \/
    (cur_idx' ∈ range /\
     exists node, py_getitem track (KInt cur_idx') = Ok node /\
                  py_contains next_node node = true).
Proof.
  induction range as [|i range IH]; intros cur_idx node_exists cur_idx'; simpl.
  - intros [= -> ->]. by left.
  - intros Hrun. inv_bind. destruct (py_contains next_node a) eqn:Hnode.
    + apply IH in Hrun as [[_ ->]|(Hin & node & Hget & Hc)].
      * right. split; [left|]. eauto.
      * right. split; [by right|]. eauto.
    + apply IH in Hrun as [[-> ->]|(Hin & node & Hget & Hc)].
      * by left.
      * right. split; [by right|]. eauto.
Qed.

Lemma py_getitem_list (xs : list value) (i : Z) (x : value) :
  (0 <= i)%Z -> xs !! Z.to_nat i = Some x -> py_getitem (VList xs) (KInt i) = Ok x.
Proof. intros Hi Hx. simpl. by rewrite py_index_nonneg, Hx. Qed.

Lemma py_setitem_list (xs : list value) (i : Z) (x : value) :
  (0 <= i < Z.of_nat (length xs))%Z ->
  py_setitem (VList xs) (KInt i) x = Ok (VList (<[Z.to_nat i := x]> xs)).
Proof.
  intros Hi. simpl. destruct (Z.ltb_spec i 0); [lia|].
  destruct (Z.leb_spec 0 i); [|lia].
  destruct (Z.ltb_spec i (Z.of_nat (length xs))); [done|lia].
Qed.

Lemma is_topic_node_contains (next_node : string) (node : value) :
  is_topic_node node ->
  py_contains next_node node = true ->
  exists inner entries,
    node = topic_node next_node inner entries /\ tag_index inner.
Proof.
  intros (topic & inner & entries & -> & Hinner & _).
  rewrite py_contains_topic_node. intros ->%bool_decide_eq_true. eauto.
Qed.

Lemma yl_tag_entry_Ok (all_fields : list string) (row : record)
    (entry topic : string) (cur_idx : Z) (xs : list value)
    inner (entries : list string) (track' : value) (dis_idx' : Z) :
  (0 <= cur_idx)%Z ->
  xs !! Z.to_nat cur_idx = Some (topic_node topic inner entries) ->
  tag_index inner ->
  yl_tag_entry all_fields row entry topic cur_idx (VList xs) = Ok (track', dis_idx') ->
  exists inner',
    tag_index inner' /\
    dis_idx' = (py_len (topic_node topic inner entries) + 1)%Z /\
    track' = VList (<[Z.to_nat cur_idx :=
                       topic_node topic inner' (entries ++ [entry])]> xs).
Proof.
  intros Hcur Helem Hinner Hrun. unfold yl_tag_entry in Hrun.
  rewrite (py_getitem_list _ _ _ Hcur Helem) in Hrun. cbn [bind] in Hrun.
  inv_bind.
  destruct (topic_node_update topic a2 entry inner entries Hinner)
    as (inner' & Hinner' & Hupd).
  cbv zeta in Hupd. rewrite Hrun0 in Hupd. cbn [bind] in Hupd.
  rewrite Hrun1 in Hupd. cbn [bind] in Hupd.
  rewrite Hrun4 in Hupd. cbn [bind] in Hupd.
  rewrite Hrun5 in Hupd. injection Hupd as ->.
  rewrite py_setitem_list in Hrun6.
  - injection Hrun6 as <-. subst. rewrite py_len_topic_node, numbered_length. eauto.
  - apply lookup_lt_Some in Helem. lia.
Qed.

Lemma yl_third_level_Ok (all_fields : list string) (row : record) (entry : string)
    (cur_idx : Z) (xs : list value) (track' : value) (cur_idx' dis_idx' : Z) :
  Forall is_topic_node xs ->
  yl_third_level all_fields row entry cur_idx (VList xs)
  = Ok (track', (cur_idx', dis_idx')) ->
  exists topic inner entries inner' xs1,
    (xs1 = xs \/
     xs1 = xs ++ [topic_node topic [] []] /\ cur_idx' = Z.of_nat (length xs)) /\
    (0 <= cur_idx')%Z /\
    xs1 !! Z.to_nat cur_idx' = Some (topic_node topic inner entries) /\
    tag_index inner /\ tag_index inner' /\
    dis_idx' = (py_len (topic_node topic inner entries) + 1)%Z /\
    track' = VList (<[Z.to_nat cur_idx' :=
                       topic_node topic inner' (entries ++ [entry])]> xs1).
Proof.
  intros Hxs Hrun. unfold yl_third_level in Hrun. inv_bind.
  destruct a1 as [cur node_exists]. inv_bind. destruct a1 as [track1 cur1].
  inv_bind. destruct a1 as [track2 dis]. inv_bind. subst.
  destruct node_exists.
  - injection Hrun3 as <- <-.
    apply find_node_true in Hrun2 as [[? _]|(Hin & node & Hget & Hnode)]; [done|].
    apply elem_of_seqZ in Hin. cbn [py_len] in Hin.
    cbn [py_getitem] in Hget. rewrite py_index_nonneg in Hget by lia.
    destruct (xs !! Z.to_nat cur) as [node'|] eqn:Hlook; simplify_eq.
    destruct (is_topic_node_contains a0 node) as (inner & entries & -> & Hinner);
      [|done|].
    { eapply (proj1 (Forall_forall _ _) Hxs), list_elem_of_lookup_2, Hlook. }
    assert (Hcur : (0 <= cur)%Z) by lia.
    destruct (yl_tag_entry_Ok _ _ _ _ _ _ _ _ _ _ Hcur Hlook Hinner Hrun4)
      as (inner' & Hinner' & -> & ->).
    exists a0, inner, entries, inner', xs. split_and!; try done. by left.
  - cbn [py_append bind py_len] in Hrun3. injection Hrun3 as <- <-.
    assert (Hcur : (Z.of_nat (length (xs ++ [VDict [(KStr a0, VDict [])]])) - 1)%Z
                   = Z.of_nat (length xs)).
    { rewrite length_app. simpl. lia. }
    rewrite Hcur in *.
    assert (Hlook : (xs ++ [topic_node a0 [] []]) !! Z.to_nat (Z.of_nat (length xs))
                    = Some (topic_node a0 [] [])).
    { rewrite Nat2Z.id. by apply list_lookup_middle. }
    assert (Hpos : (0 <= Z.of_nat (length xs))%Z) by lia.
    assert (Hnil : tag_index []) by constructor.
    destruct (yl_tag_entry_Ok _ _ _ _ _ (xs ++ [topic_node a0 [] []]) [] [] _ _
                Hpos Hlook Hnil Hrun4)
      as (inner' & Hinner' & -> & ->).
    exists a0, [], [], inner', (xs ++ [topic_node a0 [] []]).
    split_and!; try done. by right.
Qed.

Lemma yl_third_level_array (all_fields : list string) (row : record) (entry : string)
    (cur_idx : Z) (xs : list value) (track' : value) (idxs : Z * Z) :
  Forall is_topic_node xs ->
  yl_third_level all_fields row entry cur_idx (VList xs) = Ok (track', idxs) ->
  is_topic_array track'.
Proof.
  intros Hxs Hrun. destruct idxs as [cur_idx' dis_idx'].
  apply yl_third_level_Ok in Hrun
    as (topic & inner & entries & inner' & xs1 & Hxs1 & Hcur & Hlook & _ & Hinner' & _ & ->);
    [|done].
  assert (Hnew : is_topic_node (topic_node topic inner' (entries ++ [entry]))).
  { exists topic, inner', (entries ++ [entry]). split_and!; [done..|].
    by destruct entries. }
  eexists. split; [done|].
  destruct Hxs1 as [->|[-> ->]].
  - apply Forall_insert; done.
  - rewrite Nat2Z.id.
    replace (length xs) with (length xs + 0) at 1 by lia.
    rewrite insert_app_r. simpl. apply Forall_app. split; [done|].
    by constructor.
Qed.

(** ** The first two levels *)

Lemma is_subtopic_map_empty : is_subtopic_map (VDict []).
Proof. exists []. split; [done|constructor]. Qed.

Lemma is_topic_array_empty : is_topic_array (VList []).
Proof. exists []. split; [done|constructor]. Qed.

Lemma yl_setdefault_Ok (P : value -> Prop) (kvs : list (key * value))
    (next_node : string) (fresh : value) (cur_idx cur_idx2 : Z) (r : value * Z) :
  Forall (fun kv => P kv.2) kvs ->
  P fresh ->
  (if py_contains next_node (VDict kvs) then Ok (VDict kvs, cur_idx)
   else let* track := py_setitem (VDict kvs) (KStr next_node) fresh in
        Ok (track, cur_idx2)) = Ok r ->
  exists kvs1, r.1 = VDict kvs1 /\ Forall (fun kv => P kv.2) kvs1.
Proof.
  intros Hkvs Hfresh Hrun. destruct (py_contains _ _).
  - injection Hrun as <-. eauto.
  - cbn [py_setitem bind] in Hrun. injection Hrun as <-.
    eexists. split; [done|]. by apply dict_set_Forall.
Qed.

Lemma yl_first_levels_tree (all_fields : list string) (row : record)
    (rest : Z -> value -> result (value * (Z * Z)))
    (cur_idx : Z) (track track' : value) (idxs : Z * Z) :
  (forall cur xs out idxs',
     Forall is_topic_node xs -> rest cur (VList xs) = Ok (out, idxs') ->
     is_topic_array out) ->
  is_yl_tree track ->
  yl_first_levels (seqZ 0 (DEPTH - 2)) all_fields row rest cur_idx track
  = Ok (track', idxs) ->
  is_yl_tree track'.
Proof.
  intros Hrest (kvs & -> & Hkvs) Hrun.
  change (seqZ 0 (DEPTH - 2)) with [0%Z; 1%Z] in Hrun.
  cbn [yl_first_levels] in Hrun.
  change (0 =? 0)%Z with true in Hrun. change (1 =? 0)%Z with false in Hrun.
  change (1 =? 1)%Z with true in Hrun. cbv iota in Hrun.
  apply bind_Ok in Hrun as (field0 & _ & Hrun).
  apply bind_Ok in Hrun as (node0 & _ & Hrun).
  apply bind_Ok in Hrun as ([track1 cur1] & Hdef0 & Hrun).
  apply (yl_setdefault_Ok is_subtopic_map) in Hdef0 as (kvs1 & Htrack & Hkvs1);
    [|done|apply is_subtopic_map_empty].
  simpl in Htrack. subst track1.
  apply bind_Ok in Hrun as (child & Hchild & Hrun).
  apply bind_Ok in Hrun as ([child' idxs'] & Hlevel1 & Hrun).
  apply bind_Ok in Hrun as (track0 & Hset0 & Hrun).
  injection Hrun as <- <-.
  cbn [py_getitem] in Hchild.
  destruct (dict_get (KStr node0) kvs1) as [child0|] eqn:Hget0; [|done].
  injection Hchild as <-.
  destruct (dict_get_Forall _ _ _ _ Hkvs1 Hget0) as (kvs2 & -> & Hkvs2).
  apply bind_Ok in Hlevel1 as (field1 & _ & Hrun).
  apply bind_Ok in Hrun as (node1 & _ & Hrun).
  apply bind_Ok in Hrun as ([track2 cur2] & Hdef1 & Hrun).
  apply (yl_setdefault_Ok is_topic_array) in Hdef1 as (kvs3 & Htrack & Hkvs3);
    [|done|apply is_topic_array_empty].
  simpl in Htrack. subst track2.
  apply bind_Ok in Hrun as (arr & Harr & Hrun).
  apply bind_Ok in Hrun as ([arr' idxs''] & Hthird & Hrun).
  apply bind_Ok in Hrun as (track3 & Hset1 & Hrun).
  injection Hrun as <- <-.
  cbn [py_getitem] in Harr.
  destruct (dict_get (KStr node1) kvs3) as [arr0|] eqn:Hget1; [|done].
  injection Harr as <-.
  destruct (dict_get_Forall _ _ _ _ Hkvs3 Hget1) as (xs & -> & Hxs).
  apply Hrest in Hthird; [|done].
  cbn [py_setitem] in Hset0, Hset1. injection Hset1 as <-. injection Hset0 as <-.
  eexists. split; [done|]. apply dict_set_Forall; [done|].
  eexists. split; [done|]. by apply dict_set_Forall.
Qed.

(** ** The tree row by row *)

Lemma yl_row_tree (all_fields : list string) (st st' : yl_state) (row : record) :
  is_yl_tree (yl_output st) ->
  yl_row all_fields st row = Ok st' ->
  is_yl_tree (yl_output st').
Proof.
  intros Htree Hrun. unfold yl_row in Hrun. inv_bind.
  destruct a6 as [output idxs]. injection Hrun as <-. simpl.
  eapply yl_first_levels_tree; [|done..].
  intros cur xs out idxs' Hxs Hthird. by eapply yl_third_level_array.
Qed.

Lemma yl_rows_tree (all_fields : list string) (rs : list record) (st : yl_state) :
  foldM (yl_row all_fields) yl_init rs = Ok st -> is_yl_tree (yl_output st).
Proof.
  intros Hrun.
  refine (foldM_invariant (yl_row all_fields) (fun _ st => is_yl_tree (yl_output st))
            rs yl_init st _ _ Hrun).
  - exists []. split; [done|constructor].
  - intros done row st1 st2 Htree Hrow. by eapply yl_row_tree.
Qed.

Lemma yl_report_result (items : list (string * gset string)) :
  forall track out,
    is_yl_result track ->
    foldM yl_report track items = Ok out ->
    is_yl_result out.
Proof.
  induction items as [|[k s] items IH]; intros track out Htrack; simpl.
  - by intros [= <-].
  - intros Hrun. inv_bind. eapply IH; [|done].
    destruct Htrack as (kvs & -> & Hkvs).
    unfold yl_report in Hrun0. cbn [py_setitem] in Hrun0. injection Hrun0 as <-.
    eexists. split; [done|].
    apply (dict_set_Forall (fun v => is_subtopic_map v \/ exists s, v = VStr s));
      [done|]. right. eauto.
Qed.

Lemma construct_with_yl_result (data : reader) (out : value) :
  construct_with_yl data = Ok out -> is_yl_result out.
Proof.
  unfold construct_with_yl. intros Hrun. inv_bind.
  eapply yl_report_result; [|done].
  destruct (yl_rows_tree _ _ _ Hrun0) as (kvs & -> & Hkvs).
  eexists. split; [done|]. eapply Forall_impl; [done|]. intros kv Hkv. by left.
Qed.

(** C2, as the code has it: every element of a second-level array of the
    result of [construct_with_yl] is a mapping that holds, first, the
    topic with the mapping of its raw tags and then, under the integer
    keys 1, 2, ..., n with n >= 1, the entries of its rows; and the third
    level stores the entry of a row in this element mapping itself, found
    or created at [cur_idx], under the integer key equal to the size the
    element mapping has at that time. *)
Theorem year_level_entries :
  (forall (data : reader) (out : value) (k0 k1 : key)
          (level1 : list (key * value)) (xs : list value) (e : value),
     construct_with_yl data = Ok out ->
     py_getitem out k0 = Ok (VDict level1) ->
     dict_get k1 level1 = Some (VList xs) ->
     e ∈ xs ->
     exists topic inner entries,
       e = VDict ((KStr topic, VDict inner) :: numbered entries) /\
       tag_index inner /\ entries <> []) /\
  (forall (all_fields : list string) (row : record) (entry : string)
          (cur_idx : Z) (xs : list value) (track' : value) (cur_idx' dis_idx' : Z),
     Forall is_topic_node xs ->
     yl_third_level all_fields row entry cur_idx (VList xs)
     = Ok (track', (cur_idx', dis_idx')) ->
     exists topic inner entries inner' xs1,
       let elem := VDict ((KStr topic, VDict inner) :: numbered entries) in
       (xs1 = xs \/ xs1 = xs ++ [VDict [(KStr topic, VDict [])]]) /\
       (0 <= cur_idx')%Z /\
       xs1 !! Z.to_nat cur_idx' = Some elem /\
       dis_idx' = (py_len elem + 1)%Z /\
       track' = VList (<[Z.to_nat cur_idx' :=
                  VDict ((KStr topic, VDict inner')
                         :: numbered entries ++ [(KInt (py_len elem), VStr entry)])]> xs1)).
Proof.
  split.
  - intros data out k0 k1 level1 xs e Hrun Hk0 Hk1 He.
    apply construct_with_yl_result in Hrun as (kvs & -> & Hkvs).
    cbn [py_getitem] in Hk0.
    destruct (dict_get k0 kvs) as [v|] eqn:Hget; [|done]. injection Hk0 as ->.
    destruct (dict_get_Forall (fun v => is_subtopic_map v \/ exists s, v = VStr s)
                _ _ _ Hkvs Hget) as [(kvs1 & [= <-] & Hlevel1)|[s [=]]].
    destruct (dict_get_Forall _ _ _ _ Hlevel1 Hk1) as (xs' & [= <-] & Hxs).
    destruct (proj1 (Forall_forall _ _) Hxs e He)
      as (topic & inner & entries & -> & Hinner & Hne).
    by exists topic, inner, entries.
  - intros all_fields row entry cur_idx xs track' cur_idx' dis_idx' Hxs Hrun.
    apply yl_third_level_Ok in Hrun
      as (topic & inner & entries & inner' & xs1 & Hxs1 & Hcur & Hlook & _ & _ & -> & ->);
      [|done].
    exists topic, inner, entries, inner', xs1. cbv zeta.
    split_and!; try done.
    + destruct Hxs1 as [->|[-> _]]; [by left|by right].
    + change (VDict ((KStr topic, VDict inner) :: numbered entries))
        with (topic_node topic inner entries).
      rewrite py_len_topic_node. unfold topic_node. by rewrite numbered_snoc.
Qed.

Lemma year_level_entries_witness :
  exists topic inner entries,
    VDict [(KStr "d", VDict [(KStr "e", VStr "1 2")]);
           (KInt 1, VStr "Y3 t1"); (KInt 2, VStr "Y10 t2")]
    = VDict ((KStr topic, VDict inner) :: numbered entries) /\
    tag_index inner /\ entries <> [].
Proof.
  apply (proj1 year_level_entries
           (Reader ["strand"; "subtopic"; "topic"; "point"; "code"; "tag"; "year"]
              [csv_row ["strand"; "subtopic"; "topic"; "point"; "code"; "tag"; "year"]
                 ["a"; "b"; "c"; "d"; "e"; "t1"; "3"];
               csv_row ["strand"; "subtopic"; "topic"; "point"; "code"; "tag"; "year"]
                 ["a"; "b"; "c"; "d"; "e"; "t2"; "10"]])
           (VDict
              [(KStr "a",
                VDict [(KStr "b",
                        VList [VDict [(KStr "d", VDict [(KStr "e", VStr "1 2")]);
                                      (KInt 1, VStr "Y3 t1"); (KInt 2, VStr "Y10 t2")]])]);
               (KStr "All levels", VStr "Y10 Y3"); (KStr "b", VStr "Y10 Y3")])
           (KStr "a") (KStr "b")
           [(KStr "b",
             VList [VDict [(KStr "d", VDict [(KStr "e", VStr "1 2")]);
                           (KInt 1, VStr "Y3 t1"); (KInt 2, VStr "Y10 t2")]])]
           [VDict [(KStr "d", VDict [(KStr "e", VStr "1 2")]);
                   (KInt 1, VStr "Y3 t1"); (KInt 2, VStr "Y10 t2")]]).
  - vm_compute. reflexivity.
  - vm_compute. reflexivity.
  - vm_compute. reflexivity.
  - left.
Defined.

(** C2 as stated fails: after one row, the element of the second-level
    array holds two keys, the topic and the integer 1, and the entry is
    not in the inner mapping of the topic. *)
Lemma year_level_elements_not_single_key :
  ~ (forall (data : reader) (out : value) (k0 k1 : key)
            (level1 : list (key * value)) (xs : list value) (e : value),
       construct_with_yl data = Ok out ->
       py_getitem out k0 = Ok (VDict level1) ->
       dict_get k1 level1 = Some (VList xs) ->
       e ∈ xs ->
       exists k v, e = VDict [(k, v)]).
Proof.
  intros H.
  destruct (H (Reader ["strand"; "subtopic"; "topic"; "point"; "code"]
                 [csv_row ["strand"; "subtopic"; "topic"; "point"; "code"]
                    ["a"; "b"; "c"; "d"; "3"]])
              (VDict
                 [(KStr "a",
                   VDict [(KStr "b",
                           VList [VDict [(KStr "d", VDict [(KStr "3", VStr "1")]);
                                         (KInt 1, VStr "Y3 d")]])]);
                  (KStr "All levels", VStr "Y3"); (KStr "b", VStr "Y3")])
              (KStr "a") (KStr "b")
              [(KStr "b",
                VList [VDict [(KStr "d", VDict [(KStr "3", VStr "1")]);
                              (KInt 1, VStr "Y3 d")]])]
              [VDict [(KStr "d", VDict [(KStr "3", VStr "1")]); (KInt 1, VStr "Y3 d")]]
              (VDict [(KStr "d", VDict [(KStr "3", VStr "1")]); (KInt 1, VStr "Y3 d")]))
    as (k & v & Heq).
  - vm_compute. reflexivity.
  - vm_compute. reflexivity.
  - vm_compute. reflexivity.
  - left.
  - discriminate Heq.
Qed.

(** ** The year-level builder returns on well-formed inputs *)

Lemma find_node_total (next_node : string) (xs : list value) (range : list Z) :
  (forall i, i ∈ range -> (0 <= i < Z.of_nat (length xs))%Z) ->
  forall cur_idx node_exists,
    exists r, find_node next_node (VList xs) range cur_idx node_exists = Ok r.
Proof.
  induction range as [|i range IH]; intros Hrange cur_idx node_exists; simpl.
  - eauto.
  - destruct (Hrange i) as [Hi0 Hi1]; [left|].
    destruct (lookup_lt_is_Some_2 xs (Z.to_nat i)) as [x Hx]; [lia|].
    rewrite py_index_nonneg, Hx by done. simpl.
    destruct (py_contains next_node x); apply IH; intros j Hj; apply Hrange; by right.
Qed.

Lemma yl_tag_entry_total (all_fields : list string) (row : record)
    (entry topic field tag_node : string) (cur_idx : Z) (xs : list value)
    inner (entries : list string) :
  (0 <= cur_idx)%Z ->
  xs !! Z.to_nat cur_idx = Some (topic_node topic inner entries) ->
  tag_index inner ->
  py_index all_fields DEPTH = Ok field ->
  row !! field = Some tag_node ->
  exists r, yl_tag_entry all_fields row entry topic cur_idx (VList xs) = Ok r.
Proof.
  intros Hcur Helem Hinner Hfield Htag. unfold yl_tag_entry.
  rewrite (py_getitem_list _ _ _ Hcur Helem). cbn [bind].
  destruct (topic_node_update topic tag_node entry inner entries Hinner)
    as (inner' & _ & Hupd).
  cbv zeta in Hupd.
  apply bind_Ok in Hupd as (elem1 & Hset & Hupd).
  apply bind_Ok in Hupd as (inner0 & Hget & Hupd).
  apply bind_Ok in Hupd as (inner1 & Hinner1 & Hupd).
  rewrite Hset. cbn [bind]. rewrite Hget. cbn [bind].
  rewrite Hfield. cbn [bind]. rewrite (proj2 (row_get_Ok _ _ _) Htag). cbn [bind].
  rewrite Hinner1. cbn [bind]. rewrite Hupd. cbn [bind].
  rewrite py_setitem_list; [simpl; eauto|].
  apply lookup_lt_Some in Helem. lia.
Qed.

Lemma yl_third_level_total (all_fields : list string) (row : record) (entry : string)
    (cur_idx : Z) (xs : list value) :
  Forall is_topic_node xs ->
  (DEPTH < Z.of_nat (length all_fields))%Z ->
  Forall (fun f => is_Some (row !! f)) all_fields ->
  exists r, yl_third_level all_fields row entry cur_idx (VList xs) = Ok r.
Proof.
  intros Hxs Hlen Hrow. unfold yl_third_level.
  assert (Hcell : forall i, (0 <= i < Z.of_nat (length all_fields))%Z ->
            exists f c, py_index all_fields i = Ok f /\ row !! f = Some c).
  { intros i Hi. destruct (lookup_lt_is_Some_2 all_fields (Z.to_nat i)) as [f Hf]; [lia|].
    destruct (proj1 (Forall_forall _ _) Hrow f) as [c Hc].
    { by eapply list_elem_of_lookup_2. }
    exists f, c. by rewrite py_index_nonneg, Hf by lia. }
  destruct (Hcell (DEPTH - 1)%Z) as (f3 & topic & Hf3 & Htopic); [unfold DEPTH in *; lia|].
  destruct (Hcell DEPTH) as (f4 & tag_node & Hf4 & Htag); [unfold DEPTH in *; lia|].
  rewrite Hf3. cbn [bind]. rewrite (proj2 (row_get_Ok _ _ _) Htopic). cbn [bind].
  destruct (find_node_total topic xs (seqZ 0 (py_len (VList xs)))) with
    (cur_idx := cur_idx) (node_exists := false) as [[cur node_exists] Hfind].
  { intros i Hi%elem_of_seqZ. simpl in Hi. lia. }
  rewrite Hfind. cbn [bind]. destruct node_exists.
  - cbn [bind].
    apply find_node_true in Hfind as [[? _]|(Hin & node & Hget & Hnode)]; [done|].
    apply elem_of_seqZ in Hin. cbn [py_len] in Hin.
    cbn [py_getitem] in Hget. rewrite py_index_nonneg in Hget by lia.
    destruct (xs !! Z.to_nat cur) as [node'|] eqn:Hlook; simplify_eq.
    destruct (is_topic_node_contains topic node) as (inner & entries & -> & Hinner);
      [|done|].
    { eapply (proj1 (Forall_forall _ _) Hxs), list_elem_of_lookup_2, Hlook. }
    assert (Hcur : (0 <= cur)%Z) by lia.
    destruct (yl_tag_entry_total all_fields row entry topic f4 tag_node cur xs
                inner entries Hcur Hlook Hinner Hf4 Htag) as [[track' dis] ->].
    simpl. eauto.
  - cbn [py_append bind py_len].
    assert (Hcur : (Z.of_nat (length (xs ++ [VDict [(KStr topic, VDict [])]])) - 1)%Z
                   = Z.of_nat (length xs)).
    { rewrite length_app. simpl. lia. }
    rewrite Hcur.
    assert (Hlook : (xs ++ [topic_node topic [] []]) !! Z.to_nat (Z.of_nat (length xs))
                    = Some (topic_node topic [] [])).
    { rewrite Nat2Z.id. by apply list_lookup_middle. }
    assert (Hpos : (0 <= Z.of_nat (length xs))%Z) by lia.
    assert (Hnil : tag_index []) by constructor.
    destruct (yl_tag_entry_total all_fields row entry topic f4 tag_node _ _ [] []
                Hpos Hlook Hnil Hf4 Htag) as [[track' dis] Hrun].
    unfold topic_node, numbered in Hrun. simpl in Hrun. rewrite Hrun.
    simpl. eauto.
Qed.

Lemma yl_setdefault_total (kvs : list (key * value)) (next_node : string)
    (fresh : value) (cur_idx cur_idx2 : Z) :
  exists kvs1 cur1,
    (if py_contains next_node (VDict kvs) then Ok (VDict kvs, cur_idx)
     else let* track := py_setitem (VDict kvs) (KStr next_node) fresh in
          Ok (track, cur_idx2)) = Ok (VDict kvs1, cur1) /\
    is_Some (dict_get (KStr next_node) kvs1).
Proof.
  simpl. destruct (dict_mem (KStr next_node) kvs) eqn:Hmem.
  - exists kvs, cur_idx. split; [done|]. by apply dict_get_is_Some, dict_mem_true.
  - eexists _, _. split; [done|]. rewrite dict_get_set, decide_True by done. eauto.
Qed.

Lemma yl_first_levels_total (all_fields : list string) (row : record) (entry : string)
    (cur_idx : Z) (track : value) :
  is_yl_tree track ->
  (DEPTH < Z.of_nat (length all_fields))%Z ->
  Forall (fun f => is_Some (row !! f)) all_fields ->
  exists r,
    yl_first_levels (seqZ 0 (DEPTH - 2)) all_fields row
      (yl_third_level all_fields row entry) cur_idx track = Ok r.
Proof.
  intros (kvs & -> & Hkvs) Hlen Hrow.
  assert (Hcell : forall i, (0 <= i < Z.of_nat (length all_fields))%Z ->
            exists f c, py_index all_fields i = Ok f /\ row_get row f = Ok c).
  { intros i Hi. destruct (lookup_lt_is_Some_2 all_fields (Z.to_nat i)) as [f Hf]; [lia|].
    destruct (proj1 (Forall_forall _ _) Hrow f) as [c Hc].
    { by eapply list_elem_of_lookup_2. }
    exists f, c. rewrite py_index_nonneg, Hf by lia. split; [done|].
    by apply row_get_Ok. }
  destruct (Hcell 0%Z) as (f0 & node0 & Hf0 & Hnode0); [unfold DEPTH in *; lia|].
  destruct (Hcell 1%Z) as (f1 & node1 & Hf1 & Hnode1); [unfold DEPTH in *; lia|].
  change (seqZ 0 (DEPTH - 2)) with [0%Z; 1%Z]. cbn [yl_first_levels].
  change (0 =? 0)%Z with true. change (1 =? 0)%Z with false.
  change (1 =? 1)%Z with true. cbv iota.
  rewrite Hf0. cbn [bind]. rewrite Hnode0. cbn [bind].
  pose proof (yl_setdefault_total kvs node0 (VDict []) cur_idx cur_idx)
    as (kvs1 & cur1 & Hdef0 & [child Hchild]).
  pose proof Hdef0 as Hdef0'.
  apply (yl_setdefault_Ok is_subtopic_map) in Hdef0' as (kvs1' & [= <-] & Hkvs1);
    [|done|apply is_subtopic_map_empty].
  rewrite Hdef0. cbn [bind py_getitem]. rewrite Hchild. cbn [bind].
  destruct (dict_get_Forall _ _ _ _ Hkvs1 Hchild) as (kvs2 & -> & Hkvs2).
  rewrite Hf1. cbn [bind]. rewrite Hnode1. cbn [bind].
  pose proof (yl_setdefault_total kvs2 node1 (VList []) cur1 (-1))
    as (kvs3 & cur3 & Hdef1 & [arr Harr]).
  pose proof Hdef1 as Hdef1'.
  apply (yl_setdefault_Ok is_topic_array) in Hdef1' as (kvs3' & [= <-] & Hkvs3);
    [|done|apply is_topic_array_empty].
  rewrite Hdef1. cbn [bind py_getitem]. rewrite Harr. cbn [bind].
  destruct (dict_get_Forall _ _ _ _ Hkvs3 Harr) as (xs & -> & Hxs).
  destruct (yl_third_level_total all_fields row entry cur3 xs Hxs Hlen Hrow)
    as [[arr' idxs] ->].
  cbn [bind py_setitem]. eauto.
Qed.

Lemma yl_record_total (subtopic year_level : string) (d : list (string * gset string)) :
  is_Some (dict_get "All levels" d) ->
  exists d', yl_record subtopic year_level d = Ok d'.
Proof.
  intros Hall. unfold yl_record. cbv zeta.
  set (d0 := if dict_mem subtopic d then d else dict_set subtopic ∅ d).
  assert (Hsub : is_Some (dict_get subtopic d0)).
  { subst d0. destruct (dict_mem subtopic d) eqn:Hmem.
    - by apply dict_get_is_Some, dict_mem_true.
    - rewrite dict_get_set, decide_True by done. eauto. }
  assert (Hall0 : is_Some (dict_get "All levels" d0)).
  { subst d0. destruct (dict_mem subtopic d); [done|].
    rewrite dict_get_set. case_decide; eauto. }
  destruct Hsub as [s Hs]. unfold yl_add at 1. rewrite Hs. cbn [bind].
  unfold yl_add. rewrite dict_get_set. case_decide; eauto.
  destruct Hall0 as [a ->]. eauto.
Qed.

Lemma yl_row_total (all_fields : list string) (st : yl_state) (row : record) :
  is_yl_tree (yl_output st) ->
  is_Some (dict_get "All levels" (year_level_dict st)) ->
  (DEPTH < Z.of_nat (length all_fields))%Z ->
  Forall (fun f => is_Some (row !! f)) all_fields ->
  exists st', yl_row all_fields st row = Ok st'.
Proof.
  intros Htree Hall Hlen Hrow. unfold yl_row.
  assert (Hcell : forall i, (- Z.of_nat (length all_fields) <= i
                             < Z.of_nat (length all_fields))%Z ->
            exists f c, py_index all_fields i = Ok f /\ row_get row f = Ok c).
  { intros i Hi. unfold py_index.
    set (j := if (i <? 0)%Z then (Z.of_nat (length all_fields) + i)%Z else i).
    assert (0 <= j < Z.of_nat (length all_fields))%Z as Hj.
    { subst j. destruct (Z.ltb_spec i 0); lia. }
    destruct (Z.ltb_spec j 0); [lia|].
    destruct (lookup_lt_is_Some_2 all_fields (Z.to_nat j)) as [f Hf]; [lia|].
    destruct (proj1 (Forall_forall _ _) Hrow f) as [c Hc].
    { by eapply list_elem_of_lookup_2. }
    exists f, c. rewrite Hf. split; [done|]. by apply row_get_Ok. }
  unfold IDX_CONTENT_TAG, IDX_YEAR_LEVEL, IDX_SUBTOPIC, DEPTH in *.
  destruct (Hcell (-2)%Z) as (ft & tag & -> & Htag); [lia|]. cbn [bind].
  rewrite Htag. cbn [bind].
  destruct (Hcell (-1)%Z) as (fy & yl & -> & Hyl); [lia|]. cbn [bind].
  rewrite Hyl. cbn [bind].
  destruct (Hcell 1%Z) as (fs & sub & -> & Hsub); [lia|]. cbn [bind].
  rewrite Hsub. cbn [bind].
  destruct (yl_record_total sub yl _ Hall) as [yld ->]. cbn [bind].
  destruct (yl_first_levels_total all_fields row ("Y" +:+ yl +:+ " " +:+ tag)
              (yl_cur_idx st) (yl_output st) Htree) as [[output idxs] Hrun];
    [unfold DEPTH; lia|done|].
  unfold DEPTH in Hrun. rewrite Hrun. simpl. eauto.
Qed.

Lemma construct_with_yl_total (data : reader) :
  5 <= length (fieldnames data) ->
  Forall (fun row : record => Forall (fun f => is_Some (row !! f)) (fieldnames data))
         (rows data) ->
  exists out, construct_with_yl data = Ok out.
Proof.
  intros Hlen Hrows. unfold construct_with_yl.
  assert (Hloop : forall st,
    is_yl_tree (yl_output st) ->
    is_Some (dict_get "All levels" (year_level_dict st)) ->
    exists st', foldM (yl_row (fieldnames data)) st (rows data) = Ok st' /\
                is_yl_tree (yl_output st')).
  { induction Hrows as [|row rs Hrow _ IH]; intros st Htree Hall; simpl; [eauto|].
    destruct (yl_row_total (fieldnames data) st row Htree Hall) as [st1 Hst1];
      [unfold DEPTH; lia|done|].
    rewrite Hst1. simpl. apply IH.
    - by eapply yl_row_tree.
    - apply yl_row_Ok in Hst1 as [subtopic Hrec].
      unfold yl_record in Hrec. apply bind_Ok in Hrec as (d1 & _ & Hadd).
      unfold yl_add in Hadd. destruct (dict_get "All levels" d1); [|done].
      injection Hadd as <-. rewrite dict_get_set, decide_True by done. eauto. }
  destruct (Hloop yl_init) as (st & -> & (kvs & Hout & _)).
  { exists []. split; [done|constructor]. }
  { simpl. eauto. }
  simpl. rewrite Hout. generalize kvs. generalize (year_level_dict st).
  induction l as [|[k s] items IH]; intros kvs'; simpl; [eauto|]. apply IH.
Qed.

(** ** The labeler writes to new objects only *)

Section frame.
Context (h0 : heap).

Lemma keeps_refl : keeps h0 h0.
Proof. exists []. by rewrite app_nil_r. Qed.

Lemma sound_ret {A} (a : A) (post : A -> Prop) : post a -> sound h0 (h_ret a) post.
Proof. intros Ha h Hh. split; [done|]. by intros a' [= <-]. Qed.

Lemma sound_raise {A} (e : pyerr) (post : A -> Prop) : sound h0 (h_raise e) post.
Proof. intros h Hh. split; [done|]. by intros a' [=]. Qed.

Lemma sound_bind {A B} (m : hM A) (k : A -> hM B) (mid : A -> Prop) (post : B -> Prop) :
  sound h0 m mid ->
  (forall a, mid a -> sound h0 (k a) post) ->
  sound h0 (h_bind m k) post.
Proof.
  intros Hm Hk h Hh. unfold h_bind.
  destruct (Hm h Hh) as [Hkeep Hmid]. destruct (m h) as [h' [a|e]]; simpl in *.
  - by apply Hk; [apply Hmid|].
  - split; [done|]. by intros b [=].
Qed.

Lemma sound_read (l : nat) : sound h0 (h_read l) (fun _ => True).
Proof. intros h Hh. split; [done|]. done. Qed.

Lemma sound_alloc (o : object) :
  refs_from (length h0) o ->
  sound h0 (h_alloc o) (fun l => length h0 <= l).
Proof.
  intros Ho h (new & -> & Hnew). split.
  - exists (new ++ [o]). simpl. split; [by rewrite app_assoc|].
    apply Forall_app. split; [done|by constructor].
  - simpl. intros l [= <-]. rewrite length_app. lia.
Qed.

Lemma sound_write (l : nat) (o : object) :
  length h0 <= l ->
  refs_from (length h0) o ->
  sound h0 (h_write l o) (fun _ => True).
Proof.
  intros Hl Ho h (new & -> & Hnew). split; [|done].
  exists (<[l - length h0 := o]> new). unfold h_write. cbn [fst]. split.
  - by rewrite insert_app_r_alt.
  - by apply Forall_insert.
Qed.

Lemma keeps_lookup_new (h : heap) (l : nat) (o : object) :
  keeps h0 h -> length h0 <= l -> h !! l = Some o -> refs_from (length h0) o.
Proof.
  intros (new & -> & Hnew) Hl Hlook.
  rewrite lookup_app_r in Hlook by done.
  eapply (proj1 (Forall_forall _ _) Hnew), list_elem_of_lookup_2, Hlook.
Qed.

Lemma sound_setitem (track : nat) (k : string) (sub : nat) :
  length h0 <= track ->
  length h0 <= sub ->
  sound h0 (h_setitem track k (RRef sub)) (fun _ => True).
Proof.
  intros Htrack Hsub h Hh. unfold h_setitem, h_bind, h_read.
  destruct (h !! track) as [[items|elems]|] eqn:Hlook; simpl.
  - apply sound_write; [done| |done].
    pose proof (keeps_lookup_new _ _ _ Hh Htrack Hlook) as Hitems.
    simpl in *. by apply (dict_set_Forall (fun v => match v with
                                                    | RStr _ => True
                                                    | RRef l => length h0 <= l
                                                    end)).
  - split; [done|]. by intros a [=].
  - split; [done|]. by intros a [=].
Qed.

Lemma sound_append (track : nat) (s : string) :
  length h0 <= track ->
  sound h0 (h_append track s) (fun _ => True).
Proof.
  intros Htrack h Hh. unfold h_append, h_bind, h_read.
  destruct (h !! track) as [[items|elems]|] eqn:Hlook; simpl.
  - split; [done|]. by intros a [=].
  - by apply sound_write.
  - split; [done|]. by intros a [=].
Qed.

Lemma sound_label_leaves (track depth : nat) (val : list string) (node_id : list nat) :
  length h0 <= track ->
  sound h0 (h_label_leaves track depth val node_id) (fun _ => True).
Proof.
  intros Htrack. revert node_id. induction val as [|node val IH]; intros node_id; simpl.
  - by apply sound_ret.
  - destruct (node_id !! depth); [|apply sound_raise].
    eapply sound_bind; [by apply sound_append|]. intros _ _. apply IH.
Qed.

Lemma sound_recur_add_label (limit : nat) :
  forall track key val depth node_id,
    length h0 <= track ->
    sound h0 (h_recur_add_label limit track key val depth node_id) (fun _ => True).
Proof.
  induction limit as [|limit IH]; intros track key val depth node_id Htrack; simpl.
  - apply sound_raise.
  - destruct (node_id !! depth) as [n|]; [|apply sound_raise].
    eapply sound_bind with (mid := fun _ => True).
    { destruct val as [s|l]; [by apply sound_ret|].
      eapply sound_bind; [apply sound_read|]. intros o _. by apply sound_ret. }
    intros [[items|elems]|] _.
    + eapply sound_bind; [by apply sound_alloc; constructor|]. intros sub Hsub.
      eapply sound_bind; [by apply sound_setitem|]. intros _ _.
      generalize (<[depth:=n + 1]> node_id) as nid.
      induction items as [|[k v] items IHitems]; intros nid.
      * by apply sound_ret.
      * eapply sound_bind; [by apply IH|]. intros nid' _. apply IHitems.
    + eapply sound_bind; [by apply sound_alloc|]. intros sub Hsub.
      eapply sound_bind; [by apply sound_setitem|]. intros _ _.
      by apply sound_label_leaves.
    + eapply sound_bind; [by apply sound_alloc; constructor|]. intros sub Hsub.
      eapply sound_bind; [by apply sound_setitem|]. intros _ _.
      apply sound_raise.
Qed.

Lemma sound_label_items (limit track depth : nat) (items : list (string * ref_value))
    (node_id : list nat) :
  length h0 <= track ->
  sound h0 (h_label_items limit track depth items node_id) (fun _ => True).
Proof.
  intros Htrack. revert node_id.
  induction items as [|[k v] items IH]; intros node_id; simpl.
  - by apply sound_ret.
  - eapply sound_bind; [by apply sound_recur_add_label|]. intros nid _. apply IH.
Qed.

Lemma sound_add_label (data : ref_value) :
  sound h0 (h_add_label data) (fun out => exists l, out = RRef l /\ length h0 <= l).
Proof.
  unfold h_add_label.
  eapply sound_bind; [by apply sound_alloc; constructor|]. intros output Houtput.
  eapply sound_bind with (mid := fun _ => True).
  { destruct data; [apply sound_raise|apply sound_read]. }
  intros [items|elems] _; [|apply sound_raise].
  eapply sound_bind; [by apply sound_label_items|]. intros _ _.
  apply sound_ret. eauto.
Qed.

End frame.

Lemma repr_extend (t : tree) :
  forall h new v, repr h t v -> repr (h ++ new) t v.
Proof.
  induction t as [s|xs|kvs IH] using tree_ind; intros h new [s'|l]; simpl; try done.
  - apply lookup_app_l_Some.
  - intros (items & Hlook & Hall). exists items.
    split; [by apply lookup_app_l_Some|].
    clear Hlook. revert items Hall.
    induction IH as [|[k t] kvs Ht _ IHkvs]; intros [|[k' v'] items]; try done.
    intros (-> & Hv & Hall). split_and!; [done|by apply Ht|by apply IHkvs].
Qed.


(** ** The heap labeler computes what the labeler computes *)

Lemma repr_in_map (lo hi : nat) (h : heap) (kvs : list (string * tree)) (l : nat) :
  repr_in lo hi h (TMap kvs) (RRef l) <->
  lo <= l < hi /\
  exists items, h !! l = Some (ODict items) /\ Forall2 (item_repr lo hi h) kvs items.
Proof.
  simpl. apply and_iff_compat_l. apply exist_proper. intros items.
  apply and_iff_compat_l. revert items.
  induction kvs as [|[k t] kvs IH]; intros [|[k' v'] items].
  - split; [constructor|done].
  - split; [done|]. intros Hall. inversion Hall.
  - split; [done|]. intros Hall. inversion Hall.
  - rewrite IH. split.
    + intros (-> & Hv & Hall). by constructor.
    + intros Hall. inversion Hall as [|? ? ? ? [Hk Hv] Hall']; subst.
      simpl in *. by subst.
Qed.

Lemma repr_in_mono (t : tree) :
  forall lo hi lo' hi' h h' v,
    lo' <= lo -> hi <= hi' ->
    (forall l, lo <= l < hi -> h' !! l = h !! l) ->
    repr_in lo hi h t v -> repr_in lo' hi' h' t v.
Proof.
  induction t as [s|xs|kvs IH] using tree_ind;
    intros lo hi lo' hi' h h' [s'|l] Hlo Hhi Hagree; try done.
  - simpl. intros [Hl Hlook]. split; [lia|]. by rewrite Hagree.
  - rewrite !repr_in_map. intros (Hl & items & Hlook & Hall).
    split; [lia|]. exists items. split; [by rewrite Hagree|].
    clear Hlook. induction Hall as [|[k t] [k' v'] kvs items [Hk Hv] _ IHall];
      [constructor|].
    apply Forall_cons in IH as [Ht IH]. constructor; [|by apply IHall].
    split; [done|]. simpl in *. by eapply Ht.
Qed.

Lemma repr_in_repr (t : tree) :
  forall lo hi h v, repr_in lo hi h t v -> repr h t v.
Proof.
  induction t as [s|xs|kvs IH] using tree_ind; intros lo hi h [s'|l]; try done.
  - simpl. by intros [_ Hlook].
  - rewrite repr_in_map. intros (_ & items & Hlook & Hall). simpl.
    exists items. split; [done|]. clear Hlook.
    induction Hall as [|[k t] [k' v'] kvs items [Hk Hv] _ IHall]; [done|].
    apply Forall_cons in IH as [Ht IH]. simpl in *.
    split_and!; [done|by eapply Ht|by apply IHall].
Qed.

Lemma repr_repr_in (t : tree) :
  forall h v, repr h t v -> repr_in 0 (length h) h t v.
Proof.
  induction t as [s|xs|kvs IH] using tree_ind; intros h [s'|l]; try done.
  - simpl. intros Hlook. split; [|done]. apply lookup_lt_Some in Hlook. lia.
  - rewrite repr_in_map. simpl. intros (items & Hlook & Hall).
    split; [apply lookup_lt_Some in Hlook; lia|].
    exists items. split; [done|]. clear Hlook. revert items Hall.
    induction IH as [|[k t] kvs Ht _ IHkvs]; intros [|[k' v'] items]; try done.
    intros (-> & Hv & Hall). constructor; [|by apply IHkvs].
    split; [done|]. by apply Ht.
Qed.

Lemma Forall2_item_repr_mono (lo hi lo' hi' : nat) (h h' : heap)
    (kvs : list (string * tree)) (items : list (string * ref_value)) :
  lo' <= lo -> hi <= hi' ->
  (forall l, lo <= l < hi -> h' !! l = h !! l) ->
  Forall2 (item_repr lo hi h) kvs items ->
  Forall2 (item_repr lo' hi' h') kvs items.
Proof.
  intros Hlo Hhi Hagree Hall. eapply Forall2_impl; [done|].
  intros kv item [Hk Hv]. split; [done|]. by eapply repr_in_mono.
Qed.

Lemma Forall2_item_repr_set (lo hi : nat) (h : heap) (k : string) (t : tree)
    (v : ref_value) (kvs : list (string * tree)) (items : list (string * ref_value)) :
  Forall2 (item_repr lo hi h) kvs items ->
  repr_in lo hi h t v ->
  Forall2 (item_repr lo hi h) (dict_set k t kvs) (dict_set k v items).
Proof.
  intros Hall Hv. induction Hall as [|[k1 t1] [k2 v2] kvs items [Hk Ht] Hall IH]; simpl.
  - by constructor.
  - simpl in Hk. subst k2. case_decide; constructor; done.
Qed.

(** *** The operations, as equations *)

Lemma h_setitem_dict (track : nat) (k : string) (v : ref_value) (h : heap)
    (items : list (string * ref_value)) :
  h !! track = Some (ODict items) ->
  h_setitem track k v h = (<[track := ODict (dict_set k v items)]> h, Ok tt).
Proof. intros Hlook. unfold h_setitem, h_bind, h_read. by rewrite Hlook. Qed.

Lemma h_append_list (track : nat) (s : string) (h : heap) (elems : list string) :
  h !! track = Some (OList elems) ->
  h_append track s h = (<[track := OList (elems ++ [s])]> h, Ok tt).
Proof. intros Hlook. unfold h_append, h_bind, h_read. by rewrite Hlook. Qed.

Lemma h_label_leaves_refines (depth : nat) (val : list string) :
  forall sub acc node_id h acc' node_id',
    h !! sub = Some (OList acc) ->
    label_leaves depth val acc node_id = Ok (acc', node_id') ->
    h_label_leaves sub depth val node_id h = (<[sub := OList acc']> h, Ok node_id').
Proof.
  induction val as [|node val IH]; intros sub acc node_id h acc' node_id' Hlook; simpl.
  - intros [= <- <-]. unfold h_ret. by rewrite list_insert_id.
  - destruct (node_id !! depth) as [n|]; [|done]. intros Hrun.
    unfold h_bind. rewrite (h_append_list _ _ _ _ Hlook).
    erewrite IH; [|by eapply list_lookup_insert_eq, lookup_lt_Some|done].
    by rewrite list_insert_insert_eq.
Qed.

Lemma h_bind_ext {A B} (m : hM A) (k1 k2 : A -> hM B) (h : heap) :
  (forall a h', k1 a h' = k2 a h') -> h_bind m k1 h = h_bind m k2 h.
Proof. intros Hk. unfold h_bind. destruct (m h) as [h' [a|e]]; auto. Qed.

Lemma h_recur_add_label_eq (limit track : nat) (key : string) (val : ref_value)
    (depth : nat) (node_id : list nat) (h : heap) :
  h_recur_add_label (S limit) track key val depth node_id h =
  match node_id !! depth with
  | None => h_raise IndexError h
  | Some n =>
      let labeled_node := label (depth + 1) n key in
      let node_id := <[depth := n + 1]> node_id in
      (let! o :=
         match val with
         | RStr _ => h_ret None
         | RRef l => let! o := h_read l in h_ret (Some o)
         end in
       match o with
       | Some (OList elems) =>
           let! sub := h_alloc (OList []) in
           let! _ := h_setitem track labeled_node (RRef sub) in
           h_label_leaves sub (depth + 1) elems node_id
       | Some (ODict items) =>
           let! sub := h_alloc (ODict []) in
           let! _ := h_setitem track labeled_node (RRef sub) in
           h_label_items limit sub (depth + 1) items node_id
       | None =>
           let! sub := h_alloc (ODict []) in
           let! _ := h_setitem track labeled_node (RRef sub) in
           h_raise AttributeError
       end) h
  end.
Proof.
  simpl. destruct (node_id !! depth) as [n|]; [|done]. cbv zeta.
  apply h_bind_ext. intros [[items|elems]|] h1; try done.
  apply h_bind_ext. intros sub h2. apply h_bind_ext. intros _ h3.
  generalize (<[depth:=n + 1]> node_id) as nid. revert h3.
  induction items as [|[k v] items IH]; intros h3 nid; simpl; [done|].
  apply h_bind_ext. intros nid' h4. apply IH.
Qed.

Lemma h_bind_read {A} (l : nat) (k : object -> hM A) (h : heap) (o : object) :
  h !! l = Some o -> h_bind (h_read l) k h = k o h.
Proof. intros Hlook. unfold h_bind, h_read. by rewrite Hlook. Qed.

Lemma h_bind_alloc {A} (o : object) (k : nat -> hM A) (h : heap) :
  h_bind (h_alloc o) k h = k (length h) (h ++ [o]).
Proof. done. Qed.

Lemma h_bind_setitem {A} (track : nat) (key : string) (v : ref_value)
    (k : unit -> hM A) (h : heap) (items : list (string * ref_value)) :
  h !! track = Some (ODict items) ->
  h_bind (h_setitem track key v) k h
  = k tt (<[track := ODict (dict_set key v items)]> h).
Proof. intros Hlook. unfold h_bind at 1. by rewrite (h_setitem_dict _ _ _ _ _ Hlook). Qed.

(** The heap after a new object [o] was linked under [key] in the
    dictionary [track]. *)
Lemma linked_lookups (h : heap) (track : nat) (o : object) (key : string)
    (items : list (string * ref_value)) :
  h !! track = Some (ODict items) ->
  let h2 := <[track := ODict (dict_set key (RRef (length h)) items)]> (h ++ [o]) in
  length h2 = S (length h) /\
  h2 !! length h = Some o /\
  h2 !! track = Some (ODict (dict_set key (RRef (length h)) items)) /\
  (forall l, l < length h -> l <> track -> h2 !! l = h !! l).
Proof.
  intros Hlook. cbv zeta. pose proof (lookup_lt_Some _ _ _ Hlook) as Hlt.
  split_and!.
  - rewrite length_insert, length_app. simpl. lia.
  - rewrite list_lookup_insert_ne by lia. by apply list_lookup_middle.
  - apply list_lookup_insert_eq. rewrite length_app. lia.
  - intros l Hl Hne. rewrite list_lookup_insert_ne by done. by apply lookup_app_l.
Qed.

Lemma items_refined_of_entries (kvs : list (string * tree)) :
  Forall (fun kv => entry_refined kv.2) kvs -> items_refined kvs.
Proof.
  induction 1 as [|[k t] kvs Ht _ IH];
    intros limit depth track track_pure node_id h items vitems base track_pure' node_id'
           Hlimit Hrun Hvitems Hbase Htrack Hitems.
  - inversion Hvitems; subst. simpl in Hrun. injection Hrun as <- <-.
    exists h, items. simpl. unfold h_ret. split_and!; done.
  - inversion Hvitems as [|? [k' v'] ? vitems' [Hk Hv] Hrest]; subst.
    simpl in Hk, Hv, Ht, Hrun. subst k'.
    apply bind_Ok in Hrun as ([track1 nid1] & Hentry & Hrun).
    destruct (Ht limit k depth track track_pure node_id h items v' base track1 nid1
                Hlimit Hentry Hv Hbase Htrack Hitems)
      as (h1 & items1 & Hrun1 & Hlen1 & Hagree1 & Htrack1 & Hitems1).
    pose proof (lookup_lt_Some _ _ _ Htrack) as Hlt.
    destruct (IH limit depth track track1 nid1 h1 items1 vitems' base
                track_pure' node_id')
      as (h' & items' & Hrun' & Hlen' & Hagree' & Htrack' & Hitems').
    { apply recur_add_label_length in Hentry. lia. }
    { done. }
    { eapply Forall2_item_repr_mono; [| |
        |exact Hrest]; [lia|done|].
      intros l Hl. apply Hagree1; lia. }
    { done. }
    { done. }
    { done. }
    exists h', items'. split_and!; try done.
    + simpl. unfold h_bind. by rewrite Hrun1.
    + lia.
    + intros l Hl Hne. rewrite Hagree' by (done || lia). by apply Hagree1.
Qed.

Lemma entry_refined_all (val : tree) : entry_refined val.
Proof.
  induction val as [s|xs|kvs IH] using tree_ind;
    intros limit key depth track track_pure node_id h items v base track_pure' node_id'
           Hlimit Hrun Hv Hbase Htrack Hitems;
    rewrite recur_add_label_eq in Hrun;
    destruct (node_id !! depth) as [n|] eqn:Hn; simpl in Hrun; try done.
  - (* a terminal array *)
    apply bind_Ok in Hrun as ([acc' nid'] & Hleaves & Hrun). injection Hrun as <- <-.
    destruct v as [s|l]; [done|]. destruct Hv as [Hl Hlook].
    pose proof (lookup_lt_Some _ _ _ Hn) as Hdepth.
    destruct limit as [|limit]; [lia|].
    destruct (linked_lookups h track (OList []) (label (depth + 1) n key) items Htrack)
      as (Hlen2 & Hsub2 & Htrack2 & Hagree2).
    set (h2 := <[track := ODict (dict_set (label (depth + 1) n key)
                                   (RRef (length h)) items)]> (h ++ [OList []])) in *.
    exists (<[length h := OList acc']> h2),
           (dict_set (label (depth + 1) n key) (RRef (length h)) items).
    pose proof (lookup_lt_Some _ _ _ Htrack) as Hlt.
    split_and!.
    + rewrite h_recur_add_label_eq, Hn. cbv zeta.
      unfold h_bind at 1. rewrite (h_bind_read _ _ _ _ Hlook). unfold h_ret.
      rewrite h_bind_alloc, (h_bind_setitem _ _ _ _ _ items)
        by (by apply lookup_app_l_Some).
      by apply (h_label_leaves_refines _ _ _ []).
    + rewrite length_insert. lia.
    + intros l' Hl' Hne. rewrite list_lookup_insert_ne by lia. by apply Hagree2.
    + rewrite list_lookup_insert_ne by lia. done.
    + rewrite length_insert, Hlen2.
      apply Forall2_item_repr_set.
      * eapply Forall2_item_repr_mono; [| | |exact Hitems]; [lia|lia|].
        intros l' Hl'. rewrite list_lookup_insert_ne by lia. apply Hagree2; lia.
      * simpl. split; [lia|]. apply list_lookup_insert_eq. lia.
  - (* a mapping *)
    apply bind_Ok in Hrun as ([sub_pure nid'] & Hloop & Hrun). injection Hrun as <- <-.
    destruct v as [s|l]; [done|].
    apply repr_in_map in Hv as (Hl & vitems & Hlook & Hvitems).
    pose proof (lookup_lt_Some _ _ _ Hn) as Hdepth.
    destruct limit as [|limit]; [lia|].
    destruct (linked_lookups h track (ODict []) (label (depth + 1) n key) items Htrack)
      as (Hlen2 & Hsub2 & Htrack2 & Hagree2).
    set (h2 := <[track := ODict (dict_set (label (depth + 1) n key)
                                   (RRef (length h)) items)]> (h ++ [ODict []])) in *.
    pose proof (lookup_lt_Some _ _ _ Htrack) as Hlt.
    destruct (items_refined_of_entries kvs IH limit (depth + 1) (length h) []
                (<[depth:=n + 1]> node_id) h2 [] vitems base sub_pure nid')
      as (h' & sitems & Hrun' & Hlen' & Hagree' & Hsub' & Hsitems).
    { rewrite length_insert. lia. }
    { done. }
    { eapply Forall2_item_repr_mono; [| | |exact Hvitems]; [lia|done|].
      intros l' Hl'. apply Hagree2; lia. }
    { lia. }
    { done. }
    { constructor. }
    exists h', (dict_set (label (depth + 1) n key) (RRef (length h)) items).
    split_and!.
    + rewrite h_recur_add_label_eq, Hn. cbv zeta.
      unfold h_bind at 1. rewrite (h_bind_read _ _ _ _ Hlook). unfold h_ret.
      rewrite h_bind_alloc, (h_bind_setitem _ _ _ _ _ items)
        by (by apply lookup_app_l_Some).
      exact Hrun'.
    + lia.
    + intros l' Hl' Hne. rewrite Hagree' by lia. by apply Hagree2.
    + rewrite Hagree' by lia. done.
    + apply Forall2_item_repr_set.
      * eapply Forall2_item_repr_mono; [| | |exact Hitems]; [lia|lia|].
        intros l' Hl'. rewrite Hagree' by lia. apply Hagree2; lia.
      * apply repr_in_map. split; [lia|]. exists sitems. split; [done|].
        eapply Forall2_item_repr_mono; [| | |exact Hsitems]; [lia|lia|done].
Qed.

Lemma items_refined_all (kvs : list (string * tree)) : items_refined kvs.
Proof.
  apply items_refined_of_entries, Forall_forall. intros kv _. apply entry_refined_all.
Qed.

(** When the argument represents a tree on which [add_label] returns,
    the heap labeler returns too, and its result represents the labelled
    tree. *)
Lemma h_add_label_refines (h : heap) (data : ref_value) (t out : tree) :
  repr h t data ->
  add_label t = Ok out ->
  exists l,
    (h_add_label data h).2 = Ok (RRef l) /\
    repr (h_add_label data h).1 out (RRef l).
Proof.
  intros Hrepr Hrun. unfold add_label in Hrun.
  apply bind_Ok in Hrun as ([out_pure nid'] & Hrun & Hout). injection Hout as <-.
  destruct t as [s|xs|kvs]; [done..|]. unfold add_label_run in Hrun.
  destruct data as [s|l]; [done|].
  apply repr_repr_in, repr_in_map in Hrepr as (Hl & vitems & Hlook & Hvitems).
  destruct (items_refined_all kvs recursion_limit 0 (length h) []
              (replicate (Z.to_nat DEPTH) 1) (h ++ [ODict []]) [] vitems (length h)
              out_pure nid')
    as (h' & items' & Hrun' & Hlen' & Hagree' & Htrack' & Hitems').
  { rewrite length_replicate. unfold recursion_limit, DEPTH. simpl. lia. }
  { done. }
  { eapply Forall2_item_repr_mono; [| | |exact Hvitems]; [lia|done|].
    intros l' Hl'. apply lookup_app_l. lia. }
  { lia. }
  { by apply list_lookup_middle. }
  { constructor. }
  exists (length h). unfold h_add_label.
  rewrite h_bind_alloc, (h_bind_read _ _ _ _ (lookup_app_l_Some _ _ _ _ Hlook)).
  unfold h_bind. rewrite Hrun'. simpl. split; [done|].
  simpl. exists items'. split; [done|].
  assert (Hall : Forall2 (fun kv item => kv.1 = item.1 /\ repr h' kv.2 item.2)
                   out_pure items').
  { eapply Forall2_impl; [done|]. intros kv item [Hk Hv]. split; [done|].
    by eapply repr_in_repr. }
  clear -Hall. induction Hall as [|[k t] [k' v'] kvs items [Hk Hv] _ IH]; [done|].
  simpl in *. done.
Qed.

(** C9: whatever the heap and the argument, and whether [add_label]
    returns or raises, the heap afterwards is the heap before followed by
    new objects: every object that existed keeps its address and its
    content, so a tree that the argument represented is still represented
    by it; the references held by the new objects point to new objects,
    and the result, when there is one, is a reference to a new object.
    When the argument represents a tree on which the labeler returns, the
    result represents the labelled tree. *)
Theorem add_label_input_unchanged (h : heap) (data : ref_value) :
  exists new,
    (h_add_label data h).1 = h ++ new /\
    (forall l o, h !! l = Some o -> (h_add_label data h).1 !! l = Some o) /\
    (forall t, repr h t data -> repr (h_add_label data h).1 t data) /\
    Forall (refs_from (length h)) new /\
    (forall out, (h_add_label data h).2 = Ok out ->
       exists l, out = RRef l /\ length h <= l) /\
    (forall t out, repr h t data -> add_label t = Ok out ->
       exists l, (h_add_label data h).2 = Ok (RRef l) /\
                 repr (h_add_label data h).1 out (RRef l)).
Proof.
  destruct (sound_add_label h data h (keeps_refl h)) as [(new & Hnew & Hrefs) Hout].
  exists new. rewrite Hnew. split_and!; try done.
  - intros l o. apply lookup_app_l_Some.
  - intros t. apply repr_extend.
  - intros t out Hrepr Hrun. rewrite <-Hnew. by eapply h_add_label_refines.
Qed.

Lemma add_label_input_unchanged_witness :
  repr (h_add_label (RRef 3)
          [OList ["q"; "r"]; ODict [("p", RRef 0)]; ODict [("y", RRef 1)];
           ODict [("x", RRef 2)]]).1
       (TMap [("x", TMap [("y", TMap [("p", TArr ["q"; "r"])])])]) (RRef 3).
Proof.
  destruct (add_label_input_unchanged
              [OList ["q"; "r"]; ODict [("p", RRef 0)]; ODict [("y", RRef 1)];
               ODict [("x", RRef 2)]] (RRef 3)) as (new & _ & _ & Hrepr & _).
  apply Hrepr. vm_compute. repeat (eexists; split_and?; try reflexivity).
Defined.

(** The heap labeler on an example: its result represents the tree that
    [add_label] returns. *)
Example h_add_label_example :
  let h := [OList ["q"; "r"]; OList ["s"]; ODict [("p", RRef 0); ("o", RRef 1)];
            ODict [("y", RRef 2)]; ODict [("x", RRef 3)]] in
  match h_add_label (RRef 4) h, reify 9 h (RRef 4) with
  | (h', Ok out), Some t => Ok <$> reify 9 h' out = Some (add_label t)
  | _, _ => False
  end.
Proof. vm_compute. reflexivity. Qed.
(** * Further properties of the builders *)

(** ** What a run of the plain and of the detailed builder ends in *)

Lemma fields_last_two {A} (l : list A) :
  2 <= length l -> exists init f2 f1, l = init ++ [f2; f1].
Proof.
  intros Hlen.
  destruct l as [|f1 l _] using rev_ind; [simpl in Hlen; lia|].
  destruct l as [|f2 l _] using rev_ind; [simpl in Hlen; lia|].
  exists l, f2, f1. by rewrite <-app_assoc.
Qed.

Lemma descend_grow_KeyError (arr : list string -> list string) (fields : list string)
    (row : record) (rest : tree -> result tree) (j : nat) :
  ~ complete fields row ->
  forall es, descend fields row rest (grow arr (length fields + S j) es) = Raise KeyError.
Proof.
  unfold complete. induction fields as [|f fields IH]; intros Hrow es.
  - destruct Hrow. constructor.
  - cbn [descend length Nat.add]. unfold row_get.
    destruct (row !! f) as [k|] eqn:Hk; [|done]. cbn [bind].
    destruct (grow_step arr (length fields + S j) es k [] EmptyString (TMap []))
      as (track & Hdef & Hget & _).
    { by rewrite Nat.add_succ_r. }
    rewrite Hdef. cbn [bind]. rewrite Hget. cbn [bind].
    rewrite IH; [done|]. intros Hfields. apply Hrow. constructor; eauto.
Qed.

Lemma descend_grow_Raise (arr : list string -> list string) (fields : list string)
    (row : record) (rest : tree -> result tree) (j : nat) (e : pyerr) :
  complete fields row ->
  (forall es, rest (grow arr (S j) es) = Raise e) ->
  forall es, descend fields row rest (grow arr (length fields + S j) es) = Raise e.
Proof.
  intros Hrow Hrest. induction Hrow as [|f fields [k Hk] _ IH]; intros es.
  - apply Hrest.
  - cbn [descend length Nat.add]. unfold row_get. rewrite Hk. cbn [bind].
    destruct (grow_step arr (length fields + S j) es k [] EmptyString (TMap []))
      as (track & Hdef & Hget & _).
    { by rewrite Nat.add_succ_r. }
    rewrite Hdef. cbn [bind]. rewrite Hget. cbn [bind]. by rewrite IH.
Qed.

Lemma json_last_layers_KeyError (init : list string) (f2 f1 : string) (row : record)
    (es : list path_entry) :
  ~ complete [f2; f1] row ->
  json_last_layers (init ++ [f2; f1]) row (grow first_occ 1 es) = Raise KeyError.
Proof.
  intros Hrow. unfold json_last_layers.
  rewrite py_index_last2. cbn [bind]. unfold row_get.
  destruct (row !! f2) as [k|] eqn:Hk; [|done]. cbn [bind].
  destruct (grow_step first_occ 0 es k [] EmptyString (TArr [])) as (track & Hdef & _);
    [done|].
  rewrite Hdef. cbn [bind].
  replace (init ++ [f2; f1]) with ((init ++ [f2]) ++ [f1]) by by rewrite <-app_assoc.
  rewrite py_index_last. cbn [bind].
  destruct (row !! f1) as [s|] eqn:Hs; [|done].
  destruct Hrow. repeat constructor; eauto.
Qed.

(** One row of [construct_json] on the tree of the rows before it. *)
Lemma construct_json_row_outcome (init : list string) (f2 f1 : string) (row : record)
    (es : list path_entry) :
  construct_json_row (init ++ [f2; f1]) (grow first_occ (S (length init)) es) row
  = if decide (complete (init ++ [f2; f1]) row)
    then Ok (grow first_occ (S (length init))
               (es ++ [plain_entry (init ++ [f2; f1]) row]))
    else Raise KeyError.
Proof.
  unfold construct_json_row. rewrite py_slice_to_minus2.
  replace (S (length init)) with (length init + 1) by lia.
  case_decide as Hrow.
  - apply Forall_app in Hrow as [Hinit Hlast].
    apply Forall_cons in Hlast as [[k Hk] Hlast].
    apply Forall_cons in Hlast as [[s Hs] _].
    rewrite (descend_grow first_occ init row _ 0 [k] s Hinit).
    + do 2 f_equal. unfold plain_entry.
      replace (init ++ [f2; f1]) with ((init ++ [f2]) ++ [f1]) by by rewrite <-app_assoc.
      rewrite py_slice_to_minus1, field_at_last, row_values_app.
      unfold row_values at 3. simpl.
      by rewrite (lookup_total_correct _ _ _ Hk), (lookup_total_correct _ _ _ Hs).
    + intros es'. by apply json_last_layers_grow.
  - destruct (decide (complete init row)) as [Hinit|Hinit].
    + apply descend_grow_Raise; [done|]. intros es'.
      apply json_last_layers_KeyError. intros Hlast. apply Hrow.
      by apply Forall_app.
    + by apply descend_grow_KeyError.
Qed.

Lemma construct_json_row_few_columns (all_fields : list string) (track : tree)
    (row : record) :
  length all_fields < 2 ->
  construct_json_row all_fields track row = Raise IndexError.
Proof.
  intros Hlen. unfold construct_json_row.
  assert (py_slice_to all_fields (-2) = []) as ->.
  { rewrite py_slice_to_neg by lia.
    replace (Z.to_nat _) with 0 by lia. done. }
  cbn [descend]. unfold json_last_layers.
  rewrite py_index_neg by lia.
  destruct (Z.ltb_spec (Z.of_nat (length all_fields) + -2) 0); [done|lia].
Qed.

(** The loop of [construct_json] over rows that are read with at least
    two columns. *)
Lemma construct_json_rows_outcome (init : list string) (f2 f1 : string)
    (rs : list record) :
  forall es,
    foldM (construct_json_row (init ++ [f2; f1]))
      (grow first_occ (S (length init)) es) rs
    = if decide (Forall (complete (init ++ [f2; f1])) rs)
      then Ok (grow first_occ (S (length init))
                 (es ++ (plain_entry (init ++ [f2; f1]) <$> rs)))
      else Raise KeyError.
Proof.
  induction rs as [|row rs IH]; intros es.
  - cbn [foldM fmap list_fmap]. rewrite decide_True by constructor. by rewrite app_nil_r.
  - cbn [foldM]. rewrite construct_json_row_outcome.
    destruct (decide (complete (init ++ [f2; f1]) row)) as [Hrow|Hrow].
    + cbn [bind]. rewrite IH.
      destruct (decide (Forall (complete (init ++ [f2; f1])) rs)) as [Hrs|Hrs].
      * rewrite decide_True by by constructor.
        by rewrite fmap_cons, <-app_assoc.
      * rewrite decide_False; [done|]. by intros [_ ?]%Forall_cons.
    + rewrite decide_False; [done|]. by intros [? _]%Forall_cons.
Qed.

(** X1: for a table with at least one row in which every row has a
    cell in each of the first [depth] columns, [construct_json] returns
    exactly when these columns are at least two, and raises IndexError
    exactly when they are fewer. *)
Theorem construct_json_outcome (data : reader) (depth : Z)
    (Hrows : rows data <> [])
    (Hcomplete : Forall (complete (py_slice_to (fieldnames data) depth)) (rows data)) :
  let all_fields := py_slice_to (fieldnames data) depth in
  (2 <= length all_fields <-> exists out, construct_json data depth = Ok out) /\
  (length all_fields < 2 <-> construct_json data depth = Raise IndexError).
Proof.
  intros all_fields. unfold construct_json. fold all_fields in Hcomplete |- *.
  destruct (rows data) as [|row rs] eqn:Hdata; [done|].
  destruct (decide (length all_fields < 2)) as [Hlen|Hlen].
  { cbn [foldM]. rewrite construct_json_row_few_columns by done. cbn [bind].
    split; split; [lia|by intros [? ?]|done|done]. }
  destruct (fields_last_two all_fields) as (init & f2 & f1 & Hfields); [lia|].
  rewrite Hfields in *.
  change (TMap []) with (grow first_occ (S (length init)) []).
  rewrite construct_json_rows_outcome, decide_True by done.
  split; split; [eauto|lia|lia|done].
Qed.

Lemma construct_json_outcome_witness :
  let all_fields := py_slice_to (fieldnames sample) 3 in
  (2 <= length all_fields <-> exists out, construct_json sample 3 = Ok out) /\
  (length all_fields < 2 <-> construct_json sample 3 = Raise IndexError).
Proof.
  apply (construct_json_outcome sample 3).
  - discriminate.
  - apply (bool_decide_unpack _). vm_compute. exact I.
Defined.

(** The statements after the loop of [detailed_tree], on the last
    mapping of the rows before. *)
Lemma detailed_leaf_outcome (init : list string) (ft fl : string) (row : record)
    (es : list path_entry) :
  detailed_leaf (init ++ [ft; fl]) row (grow id 1 es)
  = if decide (complete [fl; ft] row)
    then Ok (grow id 1 (es ++ [(["Y" +:+ row !!! fl], row !!! ft)]))
    else Raise KeyError.
Proof.
  assert (Hfl : py_index (init ++ [ft; fl]) (-1) = Ok fl).
  { replace (init ++ [ft; fl]) with ((init ++ [ft]) ++ [fl]) by by rewrite <-app_assoc.
    apply py_index_last. }
  assert (Hft : py_index (init ++ [ft; fl]) (-2) = Ok ft) by apply py_index_last2.
  case_decide as Hrow.
  - apply Forall_cons in Hrow as [[yl Hyl] Hrow].
    apply Forall_cons in Hrow as [[tag Htag] _].
    rewrite (lookup_total_correct _ _ _ Hyl), (lookup_total_correct _ _ _ Htag).
    by eapply detailed_leaf_grow.
  - unfold detailed_leaf. rewrite Hfl. cbn [bind]. unfold row_get.
    destruct (row !! fl) as [yl|] eqn:Hyl; [|done]. cbn [bind].
    destruct (grow_step id 0 es ("Y" +:+ yl) [] EmptyString (TArr []))
      as (track & Hdef & Hget & _); [done|].
    rewrite Hdef. cbn [bind]. rewrite Hget. cbn [bind].
    rewrite grow_0. cbn [tree_append bind]. rewrite Hft. cbn [bind].
    destruct (row !! ft) as [tag|] eqn:Htag; [|done].
    destruct Hrow. repeat constructor; eauto.
Qed.

(** With fewer than two columns the second-to-last one is missing. *)
Lemma detailed_leaf_few_columns (all_fields : list string) (row : record)
    (es : list path_entry) :
  length all_fields < 2 ->
  detailed_leaf all_fields row (grow id 1 es)
  = if decide (complete all_fields row) then Raise IndexError else Raise KeyError.
Proof.
  intros Hlen. unfold detailed_leaf.
  destruct all_fields as [|f [|f' l]]; [| |simpl in Hlen; lia].
  - rewrite decide_True by constructor. done.
  - change (py_index [f] (-1)) with (Ok (A:=string) f). cbn [bind]. unfold row_get.
    destruct (row !! f) as [yl|] eqn:Hyl.
    + rewrite decide_True by (repeat constructor; eauto). cbn [bind].
      destruct (grow_step id 0 es ("Y" +:+ yl) [] EmptyString (TArr []))
        as (track & Hdef & Hget & _); [done|].
      rewrite Hdef. cbn [bind]. rewrite Hget. cbn [bind].
      rewrite grow_0. cbn [tree_append bind]. done.
    + rewrite decide_False; [done|].
      intros [[? ?] _]%Forall_cons. congruence.
Qed.

Lemma complete_app (fields1 fields2 : list string) (row : record) :
  complete (fields1 ++ fields2) row <-> complete fields1 row /\ complete fields2 row.
Proof. apply Forall_app. Qed.

Lemma complete_subseteq (fields1 fields2 : list string) (row : record) :
  fields1 ⊆ fields2 -> complete fields2 row -> complete fields1 row.
Proof.
  unfold complete. rewrite !Forall_forall. intros Hsub Hrow f Hf. apply Hrow, Hsub, Hf.
Qed.

(** The columns that [detailed_tree] reads in a row, in the order in
    which it reads them. *)
Lemma detailed_tree_row_outcome (init : list string) (ft fl : string) (depth : Z)
    (row : record) (es : list path_entry) :
  let all_fields := init ++ [ft; fl] in
  let fields := py_slice_to all_fields depth in
  detailed_tree_row all_fields depth (grow id (S (length fields)) es) row
  = if decide (complete (fields ++ [fl; ft]) row)
    then Ok (grow id (S (length fields)) (es ++ [detailed_entry all_fields depth row]))
    else Raise KeyError.
Proof.
  intros all_fields fields. unfold detailed_tree_row. fold fields.
  replace (S (length fields)) with (length fields + 1) by lia.
  case_decide as Hrow.
  - apply complete_app in Hrow as [Hwalk Hlast].
    rewrite (descend_grow id fields row _ 0 ["Y" +:+ row !!! fl] (row !!! ft) Hwalk).
    + do 2 f_equal. unfold detailed_entry, field_at. fold fields. subst all_fields.
      rewrite py_index_last2.
      replace (init ++ [ft; fl]) with ((init ++ [ft]) ++ [fl]) by by rewrite <-app_assoc.
      by rewrite py_index_last.
    + intros es'. subst all_fields. rewrite detailed_leaf_outcome.
      by rewrite decide_True.
  - destruct (decide (complete fields row)) as [Hwalk|Hwalk].
    + apply descend_grow_Raise; [done|]. intros es'.
      subst all_fields. rewrite detailed_leaf_outcome.
      rewrite decide_False; [done|]. intros Hlast. apply Hrow. by apply complete_app.
    + by apply descend_grow_KeyError.
Qed.

Lemma detailed_tree_row_few_columns (all_fields : list string) (depth : Z)
    (row : record) (es : list path_entry) :
  length all_fields < 2 ->
  detailed_tree_row all_fields depth
    (grow id (S (length (py_slice_to all_fields depth))) es) row
  = if decide (complete all_fields row) then Raise IndexError else Raise KeyError.
Proof.
  intros Hlen. unfold detailed_tree_row.
  set (fields := py_slice_to all_fields depth).
  replace (S (length fields)) with (length fields + 1) by lia.
  destruct (decide (complete fields row)) as [Hwalk|Hwalk].
  - destruct (decide (complete all_fields row)) as [Hrow|Hrow].
    + apply descend_grow_Raise; [done|]. intros es'.
      rewrite detailed_leaf_few_columns by done. by rewrite decide_True.
    + apply descend_grow_Raise; [done|]. intros es'.
      rewrite detailed_leaf_few_columns by done. by rewrite decide_False.
  - rewrite decide_False.
    + by apply descend_grow_KeyError.
    + intros Hrow. apply Hwalk. revert Hrow. apply complete_subseteq.
      intros f Hf. by eapply py_slice_to_subseteq.
Qed.

Lemma detailed_tree_rows_outcome (init : list string) (ft fl : string) (depth : Z)
    (rs : list record) :
  let all_fields := init ++ [ft; fl] in
  let fields := py_slice_to all_fields depth in
  forall es,
    foldM (detailed_tree_row all_fields depth) (grow id (S (length fields)) es) rs
    = if decide (Forall (complete (fields ++ [fl; ft])) rs)
      then Ok (grow id (S (length fields))
                 (es ++ (detailed_entry all_fields depth <$> rs)))
      else Raise KeyError.
Proof.
  intros all_fields fields. induction rs as [|row rs IH]; intros es.
  - cbn [foldM fmap list_fmap]. rewrite decide_True by constructor. by rewrite app_nil_r.
  - cbn [foldM]. subst all_fields fields. rewrite detailed_tree_row_outcome.
    cbv zeta. destruct (decide (complete _ row)) as [Hrow|Hrow].
    + cbn [bind]. rewrite IH. destruct (decide (Forall _ rs)) as [Hrs|Hrs].
      * rewrite decide_True by by constructor. by rewrite fmap_cons, <-app_assoc.
      * rewrite decide_False; [done|]. by intros [_ ?]%Forall_cons.
    + rewrite decide_False; [done|]. by intros [? _]%Forall_cons.
Qed.

(** X5: for a table with at least one row in which every row has a
    cell in every column, [detailed_tree] returns exactly when there are
    at least two columns, and raises IndexError exactly when there are
    fewer, whatever [depth] is. *)
Theorem detailed_tree_outcome (data : reader) (depth : Z)
    (Hrows : rows data <> [])
    (Hcomplete : Forall (complete (fieldnames data)) (rows data)) :
  let all_fields := fieldnames data in
  (2 <= length all_fields <-> exists out, detailed_tree data depth = Ok out) /\
  (length all_fields < 2 <-> detailed_tree data depth = Raise IndexError).
Proof.
  intros all_fields. unfold detailed_tree. fold all_fields in Hcomplete |- *.
  destruct (rows data) as [|row rs] eqn:Hdata; [done|].
  destruct (decide (length all_fields < 2)) as [Hlen|Hlen].
  { cbn [foldM].
    change (TMap []) with (grow id (S (length (py_slice_to all_fields depth))) []).
    rewrite detailed_tree_row_few_columns by done.
    apply Forall_cons in Hcomplete as [Hrow _]. rewrite decide_True by done.
    cbn [bind]. split; split; [lia|by intros [? ?]|done|done]. }
  destruct (fields_last_two all_fields) as (init & ft & fl & Hfields); [lia|].
  clearbody all_fields. subst all_fields.
  change (TMap [])
    with (grow id (S (length (py_slice_to (init ++ [ft; fl]) depth))) []).
  rewrite detailed_tree_rows_outcome. cbv zeta. rewrite decide_True.
  - split; split; [eauto|lia|lia|done].
  - eapply Forall_impl; [done|]. intros r Hr. apply complete_app. split.
    + eapply complete_subseteq; [apply py_slice_to_subseteq|done].
    + eapply complete_subseteq; [|done]. set_solver.
Qed.

Lemma detailed_tree_outcome_witness :
  let all_fields := fieldnames sample in
  (2 <= length all_fields <-> exists out, detailed_tree sample 0 = Ok out) /\
  (length all_fields < 2 <-> detailed_tree sample 0 = Raise IndexError).
Proof.
  apply (detailed_tree_outcome sample 0).
  - discriminate.
  - apply (bool_decide_unpack _). vm_compute. exact I.
Defined.

(** ** Entries under a path *)

Lemma below_fmap {A} (key : A -> list string) (val : A -> string) (k : string)
    (l : list A) :
  below k ((fun a => (key a, val a)) <$> l)
  = (fun a => (tail (key a), val a)) <$> filter (fun a => head (key a) = Some k) l.
Proof.
  unfold below. induction l as [|a l IH]; [done|].
  rewrite fmap_cons. cbn [omap list_omap fst snd].
  destruct (key a) as [|k' ks] eqn:Hkey.
  - rewrite filter_cons_False by (rewrite Hkey; done). apply IH.
  - destruct (decide (k' = k)) as [->|Hne].
    + rewrite filter_cons_True by (by rewrite Hkey). rewrite fmap_cons, Hkey.
      simpl. f_equal. apply IH.
    + rewrite filter_cons_False by (rewrite Hkey; simpl; congruence). apply IH.
Qed.

Lemma under_fmap {A} (path : list string) :
  forall (key : A -> list string) (val : A -> string) (l : list A),
    under path ((fun a => (key a, val a)) <$> l)
    = (fun a => (drop (length path) (key a), val a))
      <$> filter (fun a => take (length path) (key a) = path) l.
Proof.
  induction path as [|k path IH]; intros key val l.
  - simpl. f_equal. symmetry. induction l as [|a l IHl]; [done|].
    rewrite filter_cons_True by done. by f_equal.
  - cbn [under length]. rewrite below_fmap, IH. rewrite list_filter_filter.
    erewrite (list_filter_iff _ (fun a => take (S (length path)) (key a) = k :: path)).
    + apply list_fmap_ext. intros i a Ha.
      destruct (key a); simpl; [by rewrite drop_nil|done].
    + intros a. destruct (key a) as [|k' ks]; simpl; [naive_solver|].
      split; [intros [-> [= ->]]; done|intros [= -> ->]; done].
Qed.

Lemma tree_lookup_grow_sub (arr : list string -> list string) (m : nat) :
  forall es path t,
    tree_lookup path (grow arr m es) = Some t ->
    length path <= m /\ t = grow arr (m - length path) (under path es).
Proof.
  induction m as [|m IH]; intros es [|k path] t; simpl; try done.
  - intros [= <-]. done.
  - intros [= <-]. split; [lia|done].
  - rewrite dict_get_keyed. case_decide; [|done]. simpl.
    intros [Hlen ->]%IH. split; [lia|done].
Qed.

Lemma head_below (k : string) (es : list path_entry) :
  k ∈ heads es <-> below k es <> [].
Proof.
  unfold heads, below. induction es as [|[[|k' ks] s] es IH]; simpl.
  - split; [by intros ?%elem_of_nil|done].
  - apply IH.
  - rewrite elem_of_cons. case_decide; subst; [naive_solver|].
    rewrite IH. naive_solver.
Qed.

(** The nodes of a grown tree: below the root there is one for every
    path that starts an entry. *)
Lemma tree_lookup_grow_eq (arr : list string -> list string) (m : nat) :
  forall es k path,
    tree_lookup (k :: path) (grow arr m es)
    = if decide (length (k :: path) <= m /\ under (k :: path) es <> [])
      then Some (grow arr (m - length (k :: path)) (under (k :: path) es))
      else None.
Proof.
  induction m as [|m IH]; intros es k path.
  - cbn [grow tree_lookup]. rewrite decide_False; [done|]. intros [? _]. simpl in *. lia.
  - cbn [grow tree_lookup]. rewrite dict_get_keyed.
    destruct (decide (k ∈ first_occ (heads es))) as [Hk|Hk].
    + cbn [mbind option_bind]. destruct path as [|k' path].
      * cbn [tree_lookup under length]. rewrite decide_True; [do 2 f_equal; lia|].
        split; [lia|]. by apply head_below, elem_of_first_occ.
      * rewrite IH. cbn [under length].
        destruct (decide (S (length path) <= m /\ _)) as [[? ?]|Hno].
        -- rewrite decide_True; [done|]. split; [simpl in *; lia|done].
        -- rewrite decide_False; [done|]. intros [? ?]. apply Hno.
           split; [simpl in *; lia|done].
    + cbn [mbind option_bind]. rewrite decide_False; [done|].
      intros [_ Hunder]. apply Hunder. cbn [under].
      rewrite elem_of_first_occ, head_below in Hk.
      apply dec_stable in Hk. rewrite Hk. apply under_nil.
Qed.

Lemma heads_under_fmap {A} (key : A -> list string) (val : A -> string)
    (path : list string) (l : list A) :
  heads (under path ((fun a => (key a, val a)) <$> l))
  = omap (fun a => key a !! length path)
         (filter (fun a => take (length path) (key a) = path) l).
Proof.
  rewrite under_fmap. unfold heads.
  induction (filter _ l) as [|a l' IH]; [done|].
  rewrite fmap_cons. cbn [omap list_omap fst]. rewrite IH.
  by rewrite head_lookup, lookup_drop, Nat.add_0_r.
Qed.

Lemma omap_fmap_Some {A B} (g : A -> option B) (h : A -> B) (l : list A) :
  Forall (fun a => g a = Some (h a)) l -> omap g l = h <$> l.
Proof.
  induction 1 as [|a l Ha _ IH]; [done|]. cbn [omap list_omap]. by rewrite Ha, IH.
Qed.

Lemma row_values_take (n : nat) (fields : list string) (row : record) :
  take n (row_values fields row) = row_values (take n fields) row.
Proof. unfold row_values. by rewrite fmap_take. Qed.

Lemma row_values_lookup (fields : list string) (row : record) (j : nat) (f : string) :
  fields !! j = Some f -> row_values fields row !! j = Some (row !!! f).
Proof. intros Hf. unfold row_values. by rewrite list_lookup_fmap, Hf. Qed.

Lemma field_at_lookup (all_fields : list string) (j : nat) (f : string) :
  all_fields !! j = Some f -> field_at all_fields (Z.of_nat j) = f.
Proof.
  intros Hf. unfold field_at. rewrite py_index_nonneg by lia.
  by rewrite Nat2Z.id, Hf.
Qed.

(** The keys of the rows that go through [path], for rows whose keys
    are the cells of [fields] followed by [extra]. *)
Lemma heads_under_rows (fields : list string) (extra : record -> list string)
    (val : record -> string) (path : list string) (rs : list record) :
  length path < length fields ->
  heads (under path ((fun row => (row_values fields row ++ extra row, val row)) <$> rs))
  = (fun row : record => row !!! field_at fields (Z.of_nat (length path)))
    <$> filter (fun row => row_values (take (length path) fields) row = path) rs.
Proof.
  intros Hlen. rewrite heads_under_fmap.
  erewrite (list_filter_iff _
              (fun row => row_values (take (length path) fields) row = path)).
  - apply omap_fmap_Some, Forall_forall. intros row _.
    destruct (lookup_lt_is_Some_2 fields (length path) Hlen) as [f Hf].
    rewrite lookup_app_l by (rewrite row_values_length; lia).
    by rewrite (row_values_lookup _ _ _ _ Hf), (field_at_lookup _ _ _ Hf).
  - intros row. rewrite take_app_le by (rewrite row_values_length; lia).
    by rewrite row_values_take.
Qed.

Lemma plain_entry_split (init : list string) (f2 f1 : string) (row : record) :
  plain_entry (init ++ [f2; f1]) row
  = (row_values (init ++ [f2]) row ++ [], row !!! f1).
Proof.
  unfold plain_entry.
  replace (init ++ [f2; f1]) with ((init ++ [f2]) ++ [f1]) by by rewrite <-app_assoc.
  by rewrite py_slice_to_minus1, field_at_last, app_nil_r.
Qed.

Lemma first_occ_nil_heads (path : list string) : first_occ (heads (under path [])) = [].
Proof. by rewrite under_nil. Qed.

(** X2: in the result of [construct_json], the keys of the mapping
    at a path are distinct, and they are the values of the next column in
    the rows whose first columns spell the path, in the order in which
    these values first occur. *)
Theorem construct_json_keys (data : reader) (depth : Z) (out : tree)
    (path : list string) (kvs : list (string * tree))
    (Hrun : construct_json data depth = Ok out)
    (Hnode : tree_lookup path out = Some (TMap kvs)) :
  let all_fields := py_slice_to (fieldnames data) depth in
  NoDup kvs.*1 /\
  kvs.*1 = first_occ
             ((fun row : record => row !!! field_at all_fields (Z.of_nat (length path)))
              <$> filter (fun row => row_values (take (length path) all_fields) row = path)
                    (rows data)).
Proof.
  intros all_fields.
  pose proof (construct_json_grow _ _ _ Hrun) as Hout. cbv zeta in Hout.
  fold all_fields in Hout.
  rewrite Hout in Hnode. apply tree_lookup_grow_sub in Hnode as [Hlen Hkvs].
  destruct (S (length (py_slice_to all_fields (-2))) - length path) as [|j] eqn:Hj;
    [done|].
  cbn [grow] in Hkvs. injection Hkvs as ->. rewrite keyed_keys.
  split; [apply NoDup_first_occ|]. f_equal.
  destruct (decide (rows data = [])) as [Hnil|Hrows].
  { rewrite Hnil. simpl. by rewrite under_nil. }
  destruct (construct_json_fields _ _ _ Hrun Hrows) as (init & f2 & f1 & Hfields).
  fold all_fields in Hfields. rewrite Hfields in *.
  rewrite py_slice_to_minus2 in Hj, Hlen.
  rewrite (list_fmap_ext _ _ (rows data)
             (fun _ row _ => plain_entry_split init f2 f1 row)).
  rewrite heads_under_rows by (rewrite length_app; simpl; lia).
  assert (Hpath : length path <= length init) by lia.
  replace (init ++ [f2; f1]) with ((init ++ [f2]) ++ [f1]) by by rewrite <-app_assoc.
  rewrite (take_app_le (init ++ [f2])) by (rewrite length_app; simpl; lia).
  destruct (lookup_lt_is_Some_2 (init ++ [f2]) (length path)) as [f Hf].
  { rewrite length_app. simpl. lia. }
  rewrite (field_at_lookup _ _ _ Hf).
  rewrite (field_at_lookup ((init ++ [f2]) ++ [f1]) _ f); [done|].
  by apply lookup_app_l_Some.
Qed.

Lemma construct_json_keys_witness :
  NoDup ["b"; "b2"] /\
  ["b"; "b2"]
  = first_occ
      ((fun row : record => row !!! "subtopic")
       <$> filter (fun row => row_values ["strand"] row = ["a"]) sample_rows).
Proof.
  apply (construct_json_keys sample 4 sample_plain ["a"]
           [("b", TMap [("c", TArr ["d"; "d2"])]); ("b2", TMap [("c", TArr ["d"])])]).
  - vm_compute. reflexivity.
  - vm_compute. reflexivity.
Defined.

Lemma heads_under_rows_last (fields : list string) (x val : record -> string)
    (path : list string) (rs : list record) :
  length path = length fields ->
  heads (under path ((fun row => (row_values fields row ++ [x row], val row)) <$> rs))
  = x <$> filter (fun row => row_values fields row = path) rs.
Proof.
  intros Hlen. rewrite heads_under_fmap.
  erewrite (list_filter_iff _ (fun row => row_values fields row = path)).
  - apply omap_fmap_Some, Forall_forall. intros row _.
    rewrite Hlen, <-(row_values_length fields row). apply list_lookup_middle. done.
  - intros row. rewrite Hlen, <-(row_values_length fields row).
    by rewrite take_app_length.
Qed.

(** X6: in the result of [detailed_tree], the keys of the mapping
    at a path are distinct and in the order of their first occurrence in
    the rows that spell the path: the values of the next column above the
    last level, and ["Y"] followed by the last column on the last
    level. *)
Theorem detailed_tree_keys (data : reader) (depth : Z) (out : tree)
    (path : list string) (kvs : list (string * tree))
    (Hrun : detailed_tree data depth = Ok out)
    (Hnode : tree_lookup path out = Some (TMap kvs)) :
  let all_fields := fieldnames data in
  let fields := py_slice_to all_fields depth in
  NoDup kvs.*1 /\
  kvs.*1 = first_occ
             ((fun row : record =>
                 if decide (length path < length fields)
                 then row !!! field_at fields (Z.of_nat (length path))
                 else "Y" +:+ row !!! field_at all_fields (-1))
              <$> filter (fun row => row_values (take (length path) fields) row = path)
                    (rows data)).
Proof.
  intros all_fields fields.
  pose proof (detailed_tree_grow _ _ _ Hrun) as Hout. cbv zeta in Hout.
  fold all_fields in Hout. fold fields in Hout.
  rewrite Hout in Hnode. apply tree_lookup_grow_sub in Hnode as [Hlen Hkvs].
  destruct (S (length fields) - length path) as [|j] eqn:Hj; [done|].
  cbn [grow] in Hkvs. injection Hkvs as ->. rewrite keyed_keys.
  split; [apply NoDup_first_occ|]. f_equal. unfold detailed_entry. fold fields.
  destruct (decide (length path < length fields)) as [Hlt|Hge].
  - by rewrite heads_under_rows.
  - assert (Heq : length path = length fields) by lia.
    rewrite heads_under_rows_last by done.
    by rewrite Heq, firstn_all.
Qed.

Lemma detailed_tree_keys_witness :
  NoDup ["Y3"; "Y10"; "Y5"] /\
  ["Y3"; "Y10"; "Y5"]
  = first_occ
      ((fun row : record =>
          if decide (2 < 2) then row !!! EmptyString else "Y" +:+ row !!! "year")
       <$> filter (fun row => row_values ["strand"; "subtopic"] row = ["a"; "b"])
             sample_rows).
Proof.
  apply (detailed_tree_keys sample 2 sample_detailed ["a"; "b"]
           [("Y3", TArr ["t1"]); ("Y10", TArr ["t2"]); ("Y5", TArr ["t3"])]).
  - vm_compute. reflexivity.
  - vm_compute. reflexivity.
Defined.

(** ** The entries of a grown tree *)

Lemma elem_of_flat_map {A B} (f : A -> list B) (l : list A) (b : B) :
  b ∈ flat_map f l <-> exists a, a ∈ l /\ b ∈ f a.
Proof.
  rewrite list_elem_of_In, in_flat_map. setoid_rewrite list_elem_of_In. done.
Qed.

Lemma flat_map_keyed {V B} (g : string -> V) (f : string * V -> list B) (l : list string) :
  flat_map f ((fun k => (k, g k)) <$> l) = flat_map (fun k => f (k, g k)) l.
Proof.
  induction l as [|k l IH]; [done|]. rewrite fmap_cons. cbn [flat_map]. by rewrite IH.
Qed.

Lemma tree_entries_grow (arr : list string -> list string) (m : nat)
    (es : list path_entry) :
  tree_entries (grow arr (S m) es)
  = flat_map (fun k => (fun e : path_entry => (k :: e.1, e.2))
                       <$> tree_entries (grow arr m (below k es)))
      (first_occ (heads es)).
Proof. cbn [grow tree_entries]. by rewrite flat_map_keyed. Qed.

Lemma elem_of_below (k : string) (p : list string) (s : string) (es : list path_entry) :
  (p, s) ∈ below k es <-> (k :: p, s) ∈ es.
Proof.
  unfold below. rewrite list_elem_of_omap. split.
  - intros ([[|k' ks] s'] & Hin & Heq); simpl in Heq; [done|].
    case_decide; simplify_eq. done.
  - intros Hin. exists (k :: p, s). split; [done|]. simpl. by rewrite decide_True.
Qed.

Lemma below_cons (k k' : string) (ks : list string) (s : string) (es : list path_entry) :
  below k ((k' :: ks, s) :: es)
  = (if decide (k' = k) then [(ks, s)] else []) ++ below k es.
Proof. unfold below. simpl. by case_decide. Qed.

Lemma flat_map_below_fresh (k0 : string) (p : list string) (s : string)
    (es : list path_entry) (ks : list string) :
  k0 ∉ ks ->
  flat_map (fun k => (fun e : path_entry => (k :: e.1, e.2))
                     <$> below k ((k0 :: p, s) :: es)) ks
  = flat_map (fun k => (fun e : path_entry => (k :: e.1, e.2)) <$> below k es) ks.
Proof.
  induction ks as [|k ks IH]; [done|].
  rewrite not_elem_of_cons. intros [Hne Hnin]. cbn [flat_map].
  rewrite below_cons, decide_False by done. by rewrite IH.
Qed.

(** Grouping the entries by their first key loses none and adds none. *)
Lemma group_by_head (es : list path_entry) :
  forall ks,
    NoDup ks -> heads es ⊆ ks -> Forall (fun e => e.1 <> []) es ->
    flat_map (fun k => (fun e : path_entry => (k :: e.1, e.2)) <$> below k es) ks ≡ₚ es.
Proof.
  induction es as [|[[|k0 p] s] es IH]; intros ks Hnd Hsub Hne.
  - clear. induction ks as [|k ks IH]; [done|]. simpl. exact IH.
  - apply Forall_cons in Hne as [? _]. done.
  - apply Forall_cons in Hne as [_ Hne].
    assert (Hk0 : k0 ∈ ks). { apply Hsub. unfold heads. simpl. left. }
    apply list_elem_of_split in Hk0 as (ks1 & ks2 & ->).
    apply NoDup_app in Hnd as (Hnd1 & Hdisj & Hnd2).
    apply NoDup_cons in Hnd2 as [Hk2 Hnd2].
    assert (Hk1 : k0 ∉ ks1). { intros Hin. apply (Hdisj _ Hin). left. }
    rewrite !flat_map_app. cbn [flat_map].
    rewrite !flat_map_below_fresh by done.
    rewrite below_cons, decide_True by done. cbn [app fmap list_fmap fst snd].
    rewrite <-Permutation_middle. constructor.
    specialize (IH (ks1 ++ k0 :: ks2)).
    rewrite !flat_map_app in IH. cbn [flat_map] in IH. apply IH; [|..|done].
    + apply NoDup_app. split_and!; [done|done|by constructor].
    + intros k Hk. apply Hsub. unfold heads in *. simpl. by right.
Qed.

Lemma paths_nonempty (n : nat) (es : list path_entry) :
  Forall (fun e => length e.1 = S n) es -> Forall (fun e => e.1 <> []) es.
Proof.
  intros Hlen. eapply Forall_impl; [done|]. intros [[|? ?] ?]; simpl; [lia|done].
Qed.

Lemma flat_map_Permutation {A B} (f g : A -> list B) (l : list A) :
  (forall a, a ∈ l -> f a ≡ₚ g a) -> flat_map f l ≡ₚ flat_map g l.
Proof.
  induction l as [|a l IH]; intros Hfg; [done|]. simpl.
  rewrite (Hfg a) by left. apply Permutation_app_head, IH.
  intros a' Ha'. apply Hfg. by right.
Qed.

(** With [id] for the arrays, the tree holds each entry once for every
    time it was stored. *)
Lemma tree_entries_grow_id (m : nat) :
  forall es, Forall (fun e => length e.1 = m) es -> tree_entries (grow id m es) ≡ₚ es.
Proof.
  induction m as [|m IH]; intros es Hlen.
  - cbn [grow tree_entries id]. rewrite <-list_fmap_compose.
    rewrite (list_fmap_ext _ id es); [by rewrite list_fmap_id|].
    intros i [p s] Hin. apply list_elem_of_lookup_2 in Hin.
    apply (proj1 (Forall_forall _ _) Hlen) in Hin. simpl in *.
    by destruct p.
  - rewrite tree_entries_grow.
    rewrite (flat_map_Permutation _
               (fun k => (fun e : path_entry => (k :: e.1, e.2)) <$> below k es)).
    + apply group_by_head; [apply NoDup_first_occ| |by eapply paths_nonempty].
      intros k Hk. by apply elem_of_first_occ.
    + intros k _. apply fmap_Permutation, IH. by apply below_lengths.
Qed.

(** With [first_occ] for the arrays, the tree holds each entry once. *)
Lemma tree_entries_grow_first_occ (m : nat) :
  forall es,
    Forall (fun e => length e.1 = m) es ->
    NoDup (tree_entries (grow first_occ m es)) /\
    forall e, e ∈ tree_entries (grow first_occ m es) <-> e ∈ es.
Proof.
  induction m as [|m IH]; intros es Hlen.
  - cbn [grow tree_entries]. split.
    + apply NoDup_fmap_2_strong; [by intros ?? _ _ [= ->]|apply NoDup_first_occ].
    + intros [p s]. rewrite list_elem_of_fmap. setoid_rewrite elem_of_first_occ.
      setoid_rewrite list_elem_of_fmap. split.
      * intros (s' & [= -> ->] & [p' s''] & -> & Hin).
        pose proof (proj1 (Forall_forall _ _) Hlen _ Hin) as Hp. simpl in *.
        by destruct p'.
      * intros Hin. pose proof (proj1 (Forall_forall _ _) Hlen _ Hin) as Hp.
        simpl in *. destruct p; [|done]. exists s. split; [done|].
        by exists ([], s).
  - rewrite tree_entries_grow.
    assert (Hsub : forall k, Forall (fun e => length e.1 = m) (below k es)).
    { intros k. by apply below_lengths. }
    split.
    + pose proof (NoDup_first_occ (heads es)) as Hnd. revert Hnd.
      generalize (first_occ (heads es)). intros ks Hnd.
      induction Hnd as [|k ks Hk Hnd IHks]; simpl; [constructor|].
      apply NoDup_app. split_and!.
      * apply NoDup_fmap_2_strong; [by intros [??] [??] _ _ [= -> ->]|apply (IH _ (Hsub k))].
      * intros e (e1 & -> & _)%list_elem_of_fmap
                 (k' & Hk' & (e2 & [= <- _] & _)%list_elem_of_fmap)%elem_of_flat_map.
        done.
      * apply IHks.
    + intros [p s]. rewrite elem_of_flat_map. split.
      * intros (k & Hk & (e1 & [= -> ->] & Hin)%list_elem_of_fmap).
        apply (proj2 (IH _ (Hsub k))) in Hin. apply elem_of_below.
        by destruct e1.
      * intros Hin. pose proof (proj1 (Forall_forall _ _) Hlen _ Hin) as Hp.
        simpl in Hp. destruct p as [|k p]; [done|].
        exists k. split.
        -- apply elem_of_first_occ, head_below. intros Hnil.
           apply elem_of_below in Hin. rewrite Hnil in Hin. by apply elem_of_nil in Hin.
        -- apply list_elem_of_fmap. exists (p, s). split; [done|].
           apply (proj2 (IH _ (Hsub k))). by apply elem_of_below.
Qed.

(** X7: the strings of the arrays in the result of
    [detailed_tree], each with its path, are a rearrangement of the
    entries of the rows: every row contributes exactly one string, also
    when two rows are equal. *)
Theorem detailed_tree_entries (data : reader) (depth : Z) (out : tree)
    (Hrun : detailed_tree data depth = Ok out) :
  tree_entries out ≡ₚ detailed_entry (fieldnames data) depth <$> rows data /\
  length (tree_entries out) = length (rows data).
Proof.
  assert (Hperm : tree_entries out ≡ₚ detailed_entry (fieldnames data) depth <$> rows data).
  { rewrite (detailed_tree_grow _ _ _ Hrun). apply tree_entries_grow_id.
    apply Forall_fmap, Forall_forall. intros row _. unfold detailed_entry. simpl.
    rewrite length_app, row_values_length. simpl. lia. }
  split; [done|]. by rewrite Hperm, length_fmap.
Qed.

Lemma detailed_tree_entries_witness :
  tree_entries sample_detailed ≡ₚ detailed_entry sample_fields 2 <$> sample_rows /\
  length (tree_entries sample_detailed) = length sample_rows.
Proof.
  apply (detailed_tree_entries sample 2 sample_detailed).
  vm_compute. reflexivity.
Defined.

(** X3: the paths from the root to the strings of the arrays in
    the result of [construct_json] are, without repetition, the used
    cells of the rows: every row is found in the tree, and nothing else
    is. *)
Theorem construct_json_entries (data : reader) (depth : Z) (out : tree)
    (Hrun : construct_json data depth = Ok out) :
  let all_fields := py_slice_to (fieldnames data) depth in
  NoDup (tree_entries out) /\
  forall e, e ∈ tree_entries out <->
            exists row, row ∈ rows data /\ e = plain_entry all_fields row.
Proof.
  intros all_fields.
  pose proof (construct_json_grow _ _ _ Hrun) as Hout. cbv zeta in Hout.
  fold all_fields in Hout.
  destruct (tree_entries_grow_first_occ (S (length (py_slice_to all_fields (-2))))
              (plain_entry all_fields <$> rows data)) as [Hnd Hin].
  { destruct (decide (rows data = [])) as [->|Hrows]; [constructor|].
    destruct (construct_json_fields _ _ _ Hrun Hrows) as (init & f2 & f1 & Hfields).
    fold all_fields in Hfields. rewrite Hfields.
    apply Forall_fmap, Forall_forall. intros row _. cbv [compose].
    rewrite plain_entry_split, py_slice_to_minus2. simpl.
    rewrite app_nil_r, row_values_length, length_app. simpl. lia. }
  rewrite <-Hout in Hnd, Hin. split; [done|].
  intros e. rewrite Hin, list_elem_of_fmap. naive_solver.
Qed.

Lemma construct_json_entries_witness :
  NoDup (tree_entries sample_plain) /\
  forall e, e ∈ tree_entries sample_plain <->
            exists row, row ∈ sample_rows /\
                        e = plain_entry ["strand"; "subtopic"; "topic"; "point"] row.
Proof.
  apply (construct_json_entries sample 4 sample_plain).
  vm_compute. reflexivity.
Defined.


(** ** The arrays of the detailed tree *)

Lemma elem_of_under (path rest : list string) (s : string) :
  forall es, (rest, s) ∈ under path es <-> (path ++ rest, s) ∈ es.
Proof.
  induction path as [|k path IH]; intros es; cbn [under app]; [done|].
  by rewrite IH, elem_of_below.
Qed.

(** The array at the end of a path that some entry spells. *)
Lemma tree_lookup_grow_array (arr : list string -> list string) (es : list path_entry)
    (path : list string) (s : string) :
  (path, s) ∈ es ->
  tree_lookup path (grow arr (length path) es) = Some (TArr (arr (under path es).*2)).
Proof.
  intros Hin. destruct path as [|k path]; [done|].
  rewrite tree_lookup_grow_eq, decide_True.
  - by rewrite Nat.sub_diag.
  - split; [done|]. intros Hnil.
    assert (Hs : ([], s) ∈ under (k :: path) es).
    { apply elem_of_under. by rewrite app_nil_r. }
    rewrite Hnil in Hs. by apply elem_of_nil in Hs.
Qed.

Lemma NoDup_fmap_twice {A B} (f : A -> B) (l : list A) (i j : nat) (x y : A) :
  i < j -> l !! i = Some x -> l !! j = Some y -> f x = f y -> ~ NoDup (f <$> l).
Proof.
  intros Hij Hx Hy Heq Hnd.
  assert (i = j); [|lia].
  eapply NoDup_lookup; [done| |].
  - by rewrite list_lookup_fmap, Hx.
  - rewrite list_lookup_fmap, Hy. simpl. by rewrite Heq.
Qed.

Lemma filter_lookup_twice {A} (P : A -> Prop) `{!forall x, Decision (P x)}
    (l : list A) (i j : nat) (x y : A) :
  i < j -> l !! i = Some x -> l !! j = Some y -> P x -> P y ->
  exists i' j', i' < j' /\ filter P l !! i' = Some x /\ filter P l !! j' = Some y.
Proof.
  revert i j. induction l as [|a l IH]; intros i j Hij Hx Hy Px Py; [done|].
  destruct i as [|i], j as [|j]; try lia.
  - simpl in Hx. injection Hx as ->. simpl in Hy.
    rewrite filter_cons_True by done.
    assert (Hin : y ∈ filter P l).
    { apply list_elem_of_filter. split; [done|]. by eapply list_elem_of_lookup_2. }
    apply list_elem_of_lookup_1 in Hin as [j' Hj'].
    exists 0, (S j'). split; [lia|]. done.
  - simpl in Hx, Hy.
    destruct (IH i j) as (i' & j' & Hij' & Hx' & Hy'); [lia|done..|].
    destruct (decide (P a)).
    + rewrite filter_cons_True by done. exists (S i'), (S j'). split; [lia|done].
    + rewrite filter_cons_False by done. eauto.
Qed.

(** C6: when [detailed_tree] returns, every row has its array, at the
    end of the path of its first [depth] columns under the key
    ["Y<last column>"]; every array of the result holds the second-to-last
    column of every row with this path, once per row and in the order of
    the rows; and two rows with the same path and the same second-to-last
    column give an array that holds this string twice. Nothing is dropped
    and nothing is merged. *)
Theorem detailed_tree_arrays (data : reader) (depth : Z) (out : tree)
    (Hrun : detailed_tree data depth = Ok out) :
  let all_fields := fieldnames data in
  let place := fun row : record =>
    row_values (py_slice_to all_fields depth) row
      ++ ["Y" +:+ row !!! field_at all_fields (-1)] in
  let tag := fun row : record => row !!! field_at all_fields (-2) in
  (forall row, row ∈ rows data ->
     exists xs, tree_lookup (place row) out = Some (TArr xs)) /\
  (forall path xs,
     tree_lookup path out = Some (TArr xs) ->
     xs = tag <$> filter (fun row => place row = path) (rows data)) /\
  (forall i j r r',
     i < j -> rows data !! i = Some r -> rows data !! j = Some r' ->
     place r = place r' -> tag r = tag r' ->
     exists xs, tree_lookup (place r) out = Some (TArr xs) /\ ~ NoDup xs).
Proof.
  intros all_fields place tag.
  apply detailed_tree_grow in Hrun. cbv zeta in Hrun. fold all_fields in Hrun.
  assert (Harr : forall path xs,
            tree_lookup path out = Some (TArr xs) ->
            xs = tag <$> filter (fun row => place row = path) (rows data)).
  { intros path xs Hxs. subst out. apply tree_lookup_grow in Hxs as [Hlen ->].
    unfold id, detailed_entry. fold all_fields.
    rewrite <-(filter_fmap_values place tag).
    apply under_values, Forall_fmap, Forall_forall. intros r _.
    cbn [compose fst]. unfold place.
    rewrite length_app, row_values_length, Hlen. simpl. lia. }
  assert (Hplace : forall row, row ∈ rows data ->
            exists xs, tree_lookup (place row) out = Some (TArr xs)).
  { intros row Hrow. subst out.
    replace (S (length (py_slice_to all_fields depth))) with (length (place row)).
    - erewrite (tree_lookup_grow_array id _ (place row) (tag row)); [eauto|].
      apply list_elem_of_fmap. by exists row.
    - unfold place. rewrite length_app, row_values_length. simpl. lia. }
  split_and!; [done..|].
  intros i j r r' Hij Hr Hr' Hsame Htag.
  destruct (Hplace r) as [xs Hxs]; [by eapply list_elem_of_lookup_2|].
  exists xs. split; [done|]. rewrite (Harr _ _ Hxs).
  destruct (filter_lookup_twice (fun row => place row = place r) (rows data) i j r r')
    as (i' & j' & Hij' & Hi' & Hj'); [done..|].
  by eapply NoDup_fmap_twice.
Qed.

Lemma detailed_tree_arrays_witness :
  let data :=
    Reader ["strand"; "subtopic"; "topic"; "point"; "tag"; "year"]
      [csv_row ["strand"; "subtopic"; "topic"; "point"; "tag"; "year"]
         ["a"; "b"; "c"; "d"; "t"; "3"];
       csv_row ["strand"; "subtopic"; "topic"; "point"; "tag"; "year"]
         ["a"; "b"; "c"; "d"; "u"; "3"];
       csv_row ["strand"; "subtopic"; "topic"; "point"; "tag"; "year"]
         ["a"; "b"; "c"; "d"; "v"; "4"];
       csv_row ["strand"; "subtopic"; "topic"; "point"; "tag"; "year"]
         ["a"; "b"; "c"; "d"; "t"; "3"]] in
  let out :=
    TMap [("a", TMap [("b", TMap [("c", TMap [("d",
      TMap [("Y3", TArr ["t"; "u"; "t"]); ("Y4", TArr ["v"])])])])])] in
  let place := fun row : record =>
    row_values ["strand"; "subtopic"; "topic"; "point"] row ++ ["Y" +:+ row !!! "year"] in
  let tag := fun row : record => row !!! "tag" in
  (forall row, row ∈ rows data ->
     exists xs, tree_lookup (place row) out = Some (TArr xs)) /\
  (forall path xs,
     tree_lookup path out = Some (TArr xs) ->
     xs = tag <$> filter (fun row => place row = path) (rows data)) /\
  (forall i j r r',
     i < j -> rows data !! i = Some r -> rows data !! j = Some r' ->
     place r = place r' -> tag r = tag r' ->
     exists xs, tree_lookup (place r) out = Some (TArr xs) /\ ~ NoDup xs).
Proof.
  intros data out.
  apply (detailed_tree_arrays data 4 out).
  vm_compute. reflexivity.
Defined.
(** ** A row that repeats an earlier one *)

Lemma first_occ_filter (P : string -> Prop) `{!forall x, Decision (P x)} (l : list string) :
  first_occ (filter P l) = filter P (first_occ l).
Proof.
  induction l as [|x l IH]; [done|]. cbn [first_occ].
  destruct (decide (P x)) as [Hx|Hx].
  - rewrite !filter_cons_True by done. cbn [first_occ]. rewrite IH.
    f_equal. rewrite !list_filter_filter. apply list_filter_iff. naive_solver.
  - rewrite !filter_cons_False by done. rewrite IH.
    rewrite list_filter_filter. apply list_filter_iff. intros y. split; [|naive_solver].
    intros Hy. split; [done|]. by intros ->.
Qed.

Lemma first_occ_repeat (x : string) (l1 l2 : list string) :
  x ∈ l1 -> first_occ (l1 ++ x :: l2) = first_occ (l1 ++ l2).
Proof.
  induction l1 as [|y l1 IH]; [by intros ?%elem_of_nil|].
  intros Hx. cbn [app first_occ]. f_equal.
  destruct (decide (x = y)) as [->|Hne].
  - rewrite <-!first_occ_filter. f_equal.
    rewrite !filter_app, filter_cons_False by naive_solver. done.
  - apply elem_of_cons in Hx as [?|Hx]; [done|]. by rewrite IH.
Qed.

Lemma below_app (k : string) (es1 es2 : list path_entry) :
  below k (es1 ++ es2) = below k es1 ++ below k es2.
Proof. unfold below. apply omap_app. Qed.

Lemma grow_repeat (m : nat) :
  forall (es1 es2 : list path_entry) (e : path_entry),
    e ∈ es1 ->
    grow first_occ m (es1 ++ e :: es2) = grow first_occ m (es1 ++ es2).
Proof.
  induction m as [|m IH]; intros es1 es2 e He.
  - cbn [grow]. f_equal. rewrite !fmap_app, fmap_cons.
    apply first_occ_repeat, list_elem_of_fmap. eauto.
  - cbn [grow]. f_equal.
    assert (Hheads : first_occ (heads (es1 ++ e :: es2)) = first_occ (heads (es1 ++ es2))).
    { unfold heads. rewrite !omap_app. cbn [omap list_omap].
      destruct (head e.1) as [k|] eqn:Hk; [|done].
      apply first_occ_repeat, list_elem_of_omap. eauto. }
    rewrite Hheads. apply keyed_ext. intros k _.
    rewrite !below_app. destruct e as [[|k' p] s]; [done|].
    rewrite below_cons. case_decide; [subst k'|done].
    apply IH. by apply elem_of_below.
Qed.

Lemma row_values_ext (fields : list string) (r r' : record) :
  (forall f, f ∈ fields -> r !! f = r' !! f) ->
  row_values fields r = row_values fields r'.
Proof.
  intros Hsame. unfold row_values. apply list_fmap_ext. intros i f Hf.
  unfold lookup_total, map_lookup_total. rewrite Hsame; [done|].
  by eapply list_elem_of_lookup_2.
Qed.

Lemma complete_ext (fields : list string) (r r' : record) :
  (forall f, f ∈ fields -> r !! f = r' !! f) ->
  complete fields r <-> complete fields r'.
Proof.
  intros Hsame. unfold complete. rewrite !Forall_forall.
  split; intros Hrow f Hf; [rewrite <-Hsame by done|rewrite Hsame by done]; auto.
Qed.

(** X4: a row that agrees on the first [depth] columns with a
    row before it changes nothing: [construct_json] gives the same
    result, or the same error, with it and without it. *)
Theorem construct_json_repeated_row (fields : list string) (rs1 rs2 : list record)
    (r r' : record) (depth : Z)
    (Hearlier : r' ∈ rs1)
    (Hsame : forall f, f ∈ py_slice_to fields depth -> r !! f = r' !! f) :
  construct_json (Reader fields (rs1 ++ r :: rs2)) depth
  = construct_json (Reader fields (rs1 ++ rs2)) depth.
Proof.
  unfold construct_json. cbn [fieldnames rows].
  set (all_fields := py_slice_to fields depth) in *.
  apply list_elem_of_split in Hearlier as (rs0 & rs1' & ->).
  destruct (decide (length all_fields < 2)) as [Hlen|Hlen].
  { destruct rs0 as [|r0 rs0]; cbn [app foldM];
      by rewrite !construct_json_row_few_columns. }
  destruct (fields_last_two all_fields) as (init & f2 & f1 & Hfields); [lia|].
  rewrite Hfields in *.
  change (TMap []) with (grow first_occ (S (length init)) []).
  rewrite !construct_json_rows_outcome.
  assert (Hentry : plain_entry (init ++ [f2; f1]) r = plain_entry (init ++ [f2; f1]) r').
  { rewrite !plain_entry_split. f_equal.
    - f_equal. apply row_values_ext. intros f Hf. apply Hsame.
      rewrite elem_of_app in *. set_solver.
    - unfold lookup_total, map_lookup_total. rewrite Hsame; [done|]. set_solver. }
  destruct (decide (Forall _ ((rs0 ++ r' :: rs1') ++ rs2))) as [Hall|Hall].
  - rewrite decide_True.
    + f_equal. rewrite !app_nil_l.
      rewrite (fmap_app _ (rs0 ++ r' :: rs1') (r :: rs2)), fmap_cons, Hentry.
      rewrite grow_repeat; [by rewrite (fmap_app _ (rs0 ++ r' :: rs1') rs2)|].
      apply list_elem_of_fmap. exists r'. split; [done|].
      apply elem_of_app. right. left.
    + rewrite !Forall_app in *. rewrite !Forall_cons in *.
      destruct Hall as [(? & ? & ?) ?]. split_and!; try done.
      by apply (complete_ext _ r r').
  - rewrite decide_False; [done|]. intros Hall'. apply Hall.
    rewrite !Forall_app in *. rewrite !Forall_cons in *. naive_solver.
Qed.

Lemma construct_json_repeated_row_witness :
  construct_json
    (Reader sample_fields
       ([csv_row sample_fields ["a"; "b"; "c"; "d"; "e"; "t1"; "3"]]
        ++ csv_row sample_fields ["a"; "b"; "c"; "d"; "e3"; "t3"; "5"] :: [])) 4
  = construct_json
      (Reader sample_fields
         ([csv_row sample_fields ["a"; "b"; "c"; "d"; "e"; "t1"; "3"]] ++ [])) 4.
Proof.
  apply (construct_json_repeated_row sample_fields
           [csv_row sample_fields ["a"; "b"; "c"; "d"; "e"; "t1"; "3"]] []
           (csv_row sample_fields ["a"; "b"; "c"; "d"; "e3"; "t3"; "5"])
           (csv_row sample_fields ["a"; "b"; "c"; "d"; "e"; "t1"; "3"]) 4).
  - apply list_elem_of_here.
  - intros f Hf. vm_compute in Hf. set_unfold in Hf.
    destruct Hf as [->|[->|[->|[->|[]]]]]; vm_compute; reflexivity.
Defined.

(** ** The columns that are read *)

Lemma detailed_leaf_ext (all_fields : list string) (r1 r2 : record) (track : tree) :
  (forall f, py_index all_fields (-1) = Ok f \/ py_index all_fields (-2) = Ok f ->
             r1 !! f = r2 !! f) ->
  detailed_leaf all_fields r1 track = detailed_leaf all_fields r2 track.
Proof.
  intros Hrows. unfold detailed_leaf.
  destruct (py_index all_fields (-1)) as [fl|] eqn:Hfl; simpl; [|done].
  rewrite (row_get_ext r1 r2 fl) by auto.
  destruct (row_get r2 fl) as [yl|]; simpl; [|done].
  destruct (tree_setdefault track _ (TArr [])) as [track1|]; simpl; [|done].
  destruct (tree_getitem track1 _) as [arr|]; simpl; [|done].
  destruct (tree_append arr) as [append|]; simpl; [|done].
  destruct (py_index all_fields (-2)) as [ft|] eqn:Hft; simpl; [|done].
  rewrite (row_get_ext r1 r2 ft) by auto. done.
Qed.

(** X8: [detailed_tree] reads the first [depth] columns and the
    last two columns only: two tables whose rows agree there give the
    same result or the same error. *)
Theorem detailed_tree_columns_read (fields : list string) (rs1 rs2 : list record)
    (depth : Z)
    (Hrows : Forall2 (fun r1 r2 : record =>
                        forall f, f ∈ py_slice_to fields depth \/
                                  py_index fields (-1) = Ok f \/
                                  py_index fields (-2) = Ok f ->
                                  r1 !! f = r2 !! f) rs1 rs2) :
  detailed_tree (Reader fields rs1) depth = detailed_tree (Reader fields rs2) depth.
Proof.
  unfold detailed_tree. cbn [fieldnames rows]. generalize (TMap []) as output.
  induction Hrows as [|r1 r2 rs1 rs2 Hr _ IH]; intros output; simpl; [done|].
  assert (Hrow : detailed_tree_row fields depth output r1
                 = detailed_tree_row fields depth output r2).
  { unfold detailed_tree_row. apply descend_ext; [auto|].
    intros t. apply detailed_leaf_ext. auto. }
  rewrite Hrow. destruct (detailed_tree_row fields depth output r2); simpl; auto.
Qed.

Lemma detailed_tree_columns_read_witness :
  detailed_tree
    (Reader sample_fields
       [csv_row sample_fields ["a"; "b"; "c"; "d"; "e"; "t1"; "3"]]) 4
  = detailed_tree
      (Reader sample_fields
         [csv_row sample_fields ["a"; "b"; "c"; "d"; "other"; "t1"; "3"]]) 4.
Proof.
  apply (detailed_tree_columns_read sample_fields
           [csv_row sample_fields ["a"; "b"; "c"; "d"; "e"; "t1"; "3"]]
           [csv_row sample_fields ["a"; "b"; "c"; "d"; "other"; "t1"; "3"]] 4).
  constructor; [|constructor]. intros f [Hf|[Hf|Hf]].
  - vm_compute in Hf. set_unfold in Hf.
    destruct Hf as [->|[->|[->|[->|[]]]]]; vm_compute; reflexivity.
  - vm_compute in Hf. injection Hf as <-. vm_compute. reflexivity.
  - vm_compute in Hf. injection Hf as <-. vm_compute. reflexivity.
Defined.

Lemma yl_tag_entry_ext (all_fields : list string) (r1 r2 : record)
    (entry next_node : string) (cur_idx : Z) (track : value) :
  (forall f, py_index all_fields DEPTH = Ok f -> r1 !! f = r2 !! f) ->
  yl_tag_entry all_fields r1 entry next_node cur_idx track
  = yl_tag_entry all_fields r2 entry next_node cur_idx track.
Proof.
  intros Hrows. unfold yl_tag_entry.
  destruct (py_getitem track (KInt cur_idx)) as [elem|]; simpl; [|done].
  destruct (py_setitem elem _ _) as [elem1|]; simpl; [|done].
  destruct (py_getitem elem1 _) as [inner|]; simpl; [|done].
  destruct (py_index all_fields DEPTH) as [f|] eqn:Hf; simpl; [|done].
  rewrite (row_get_ext r1 r2 f) by auto. done.
Qed.

Lemma yl_third_level_ext (all_fields : list string) (r1 r2 : record)
    (entry : string) (cur_idx : Z) (track : value) :
  (forall i f, i ∈ [(DEPTH - 1)%Z; DEPTH] -> py_index all_fields i = Ok f ->
               r1 !! f = r2 !! f) ->
  yl_third_level all_fields r1 entry cur_idx track
  = yl_third_level all_fields r2 entry cur_idx track.
Proof.
  intros Hrows. unfold yl_third_level.
  destruct (py_index all_fields (DEPTH - 1)) as [f|] eqn:Hf; simpl; [|done].
  rewrite (row_get_ext r1 r2 f) by (eapply Hrows; [|done]; set_solver).
  destruct (row_get r2 f) as [next_node|]; simpl; [|done].
  destruct (find_node next_node track _ cur_idx false) as [[cur node_exists]|];
    simpl; [|done].
  assert (Htag : forall c t, yl_tag_entry all_fields r1 entry next_node c t
                             = yl_tag_entry all_fields r2 entry next_node c t).
  { intros c t. apply yl_tag_entry_ext. intros f' Hf'.
    eapply Hrows; [|done]. set_solver. }
  destruct node_exists; simpl.
  - by rewrite Htag.
  - destruct (py_append track) as [append|]; simpl; [|done]. by rewrite Htag.
Qed.

Lemma yl_first_levels_ext (range : list Z) (all_fields : list string)
    (r1 r2 : record) (rest1 rest2 : Z -> value -> result (value * (Z * Z))) :
  (forall i f, i ∈ range -> py_index all_fields i = Ok f -> r1 !! f = r2 !! f) ->
  (forall c t, rest1 c t = rest2 c t) ->
  forall cur_idx track,
    yl_first_levels range all_fields r1 rest1 cur_idx track
    = yl_first_levels range all_fields r2 rest2 cur_idx track.
Proof.
  intros Hrows Hrest.
  induction range as [|i range IH]; intros cur_idx track; simpl; [done|].
  destruct (py_index all_fields i) as [f|] eqn:Hf; simpl; [|done].
  rewrite (row_get_ext r1 r2 f) by (eapply Hrows; [left|done]).
  destruct (row_get r2 f) as [next_node|]; simpl; [|done].
  match goal with
  | |- bind ?m _ = bind ?m _ => destruct m as [[track1 cur1]|]; simpl; [|done]
  end.
  destruct (py_getitem track1 _) as [child|]; simpl; [|done].
  rewrite IH; [done|]. intros j f' Hj. apply Hrows. by right.
Qed.

Lemma yl_row_ext (all_fields : list string) (st : yl_state) (r1 r2 : record) :
  (forall i f,
     i ∈ [IDX_CONTENT_TAG; IDX_YEAR_LEVEL; IDX_SUBTOPIC; 0%Z; (DEPTH - 1)%Z; DEPTH] ->
     py_index all_fields i = Ok f -> r1 !! f = r2 !! f) ->
  yl_row all_fields st r1 = yl_row all_fields st r2.
Proof.
  intros Hrows. unfold yl_row.
  destruct (py_index all_fields IDX_CONTENT_TAG) as [ft|] eqn:Hft; cbn [bind]; [|done].
  rewrite (row_get_ext r1 r2 ft) by (eapply Hrows; [|done]; set_solver).
  destruct (row_get r2 ft) as [next_tag|]; cbn [bind]; [|done].
  destruct (py_index all_fields IDX_YEAR_LEVEL) as [fy|] eqn:Hfy; cbn [bind]; [|done].
  rewrite (row_get_ext r1 r2 fy) by (eapply Hrows; [|done]; set_solver).
  destruct (row_get r2 fy) as [year_level|]; cbn [bind]; [|done].
  destruct (py_index all_fields IDX_SUBTOPIC) as [fs|] eqn:Hfs; cbn [bind]; [|done].
  rewrite (row_get_ext r1 r2 fs) by (eapply Hrows; [|done]; set_solver).
  destruct (row_get r2 fs) as [subtopic|]; cbn [bind]; [|done].
  destruct (yl_record subtopic year_level _) as [yld|]; cbn [bind]; [|done].
  erewrite (yl_first_levels_ext (seqZ 0 (DEPTH - 2)) all_fields r1 r2); [done| |].
  - intros i f Hi. apply Hrows. change (seqZ 0 (DEPTH - 2)) with [0; 1]%Z in Hi.
    unfold IDX_SUBTOPIC. set_solver.
  - intros c t. apply yl_third_level_ext. intros i f Hi. apply Hrows. set_solver.
Qed.

Lemma construct_with_yl_ext (fields : list string) (rs1 rs2 : list record) :
  Forall2 (fun r1 r2 : record =>
             forall i f,
               i ∈ [IDX_CONTENT_TAG; IDX_YEAR_LEVEL; IDX_SUBTOPIC;
                    0%Z; (DEPTH - 1)%Z; DEPTH] ->
               py_index fields i = Ok f -> r1 !! f = r2 !! f) rs1 rs2 ->
  construct_with_yl (Reader fields rs1) = construct_with_yl (Reader fields rs2).
Proof.
  intros Hrows. unfold construct_with_yl. cbn [fieldnames rows].
  assert (Hloop : forall st, foldM (yl_row fields) st rs1 = foldM (yl_row fields) st rs2).
  { induction Hrows as [|r1 r2 rs1 rs2 Hr _ IH]; intros st; simpl; [done|].
    rewrite (yl_row_ext fields st r1 r2) by done.
    destruct (yl_row fields st r2); simpl; auto. }
  by rewrite Hloop.
Qed.

(** The place of [all_fields[i]] in the list. *)
Lemma py_index_lookup {A} (l : list A) (i : Z) (x : A) :
  py_index l i = Ok x ->
  exists k, l !! k = Some x /\
            (Z.of_nat k = i \/ Z.of_nat k = Z.of_nat (length l) + i)%Z.
Proof.
  destruct (Z.ltb_spec i 0) as [Hi|Hi].
  - rewrite py_index_neg by done.
    destruct (Z.ltb_spec (Z.of_nat (length l) + i) 0) as [?|Hk]; [done|].
    destruct (l !! Z.to_nat (Z.of_nat (length l) + i)) as [y|] eqn:Hy; [|done].
    intros [= <-]. eexists. split; [done|]. right. lia.
  - rewrite py_index_nonneg by done.
    destruct (l !! Z.to_nat i) as [y|] eqn:Hy; [|done].
    intros [= <-]. eexists. split; [done|]. left. lia.
Qed.

(** X11: [construct_with_yl] reads a row only in the columns
    [all_fields[i]] for [i] among -2, -1, 1, 0, [DEPTH-1] and [DEPTH]:
    two tables whose rows agree on these columns give the same result or
    the same error. In a table of at least five columns with distinct
    names, the column 2 is not among them: rows that differ there only
    give the same result or the same error. *)
Theorem construct_with_yl_columns_read (fields : list string) (rs1 rs2 : list record) :
  (Forall2 (fun r1 r2 : record =>
              forall i f,
                i ∈ [IDX_CONTENT_TAG; IDX_YEAR_LEVEL; IDX_SUBTOPIC;
                     0%Z; (DEPTH - 1)%Z; DEPTH] ->
                py_index fields i = Ok f -> r1 !! f = r2 !! f) rs1 rs2 ->
   construct_with_yl (Reader fields rs1) = construct_with_yl (Reader fields rs2)) /\
  (5 <= length fields -> NoDup fields ->
   Forall2 (fun r1 r2 : record =>
              forall f, f <> field_at fields 2 -> r1 !! f = r2 !! f) rs1 rs2 ->
   construct_with_yl (Reader fields rs1) = construct_with_yl (Reader fields rs2)).
Proof.
  split; [apply construct_with_yl_ext|].
  intros Hlen Hnd Hrows. apply construct_with_yl_ext.
  eapply Forall2_impl; [done|]. intros r1 r2 Hr i f Hi Hf. apply Hr. intros ->.
  apply py_index_lookup in Hf as (k & Hk & Hplace).
  destruct (lookup_lt_is_Some_2 fields 2) as [f2 Hf2]; [lia|].
  assert (Heq : field_at fields 2 = f2) by apply (field_at_lookup fields 2 f2 Hf2).
  rewrite Heq in Hk.
  pose proof (NoDup_lookup _ _ _ _ Hnd Hk Hf2) as ->.
  unfold IDX_CONTENT_TAG, IDX_YEAR_LEVEL, IDX_SUBTOPIC, DEPTH in Hi.
  set_unfold in Hi. lia.
Qed.

Lemma construct_with_yl_columns_read_witness :
  construct_with_yl
    (Reader sample_fields
       [csv_row sample_fields ["a"; "b"; "c"; "d"; "e"; "t1"; "3"]])
  = construct_with_yl
      (Reader sample_fields
         [csv_row sample_fields ["a"; "b"; "other"; "d"; "e"; "t1"; "3"]]).
Proof.
  apply (proj2 (construct_with_yl_columns_read sample_fields
                  [csv_row sample_fields ["a"; "b"; "c"; "d"; "e"; "t1"; "3"]]
                  [csv_row sample_fields ["a"; "b"; "other"; "d"; "e"; "t1"; "3"]])).
  - vm_compute. lia.
  - apply (bool_decide_unpack _). vm_compute. exact I.
  - constructor; [|constructor]. intros f Hf.
    change (field_at sample_fields 2) with "topic" in Hf.
    assert (csv_row sample_fields ["a"; "b"; "other"; "d"; "e"; "t1"; "3"]
            = <["topic":="other"]>
                (csv_row sample_fields ["a"; "b"; "c"; "d"; "e"; "t1"; "3"])) as ->.
    { vm_compute. reflexivity. }
    symmetry. apply lookup_insert_ne. done.
Defined.

(** ** The names below a node of a grown tree *)

Lemma children_grow (arr : list string -> list string) (m : nat) (es : list path_entry) :
  children (grow arr m es)
  = match m with 0 => arr es.*2 | S _ => first_occ (heads es) end.
Proof. destruct m; cbn [grow children]; [done|]. by rewrite keyed_keys. Qed.

Lemma children_lookup_grow (arr : list string -> list string) (m : nat)
    (es : list path_entry) (path : list string) :
  length path <= m ->
  children <$> tree_lookup path (grow arr m es)
  = if decide (path = [] \/ under path es <> [])
    then Some (match m - length path with
               | 0 => arr (under path es).*2
               | S _ => first_occ (heads (under path es))
               end)
    else None.
Proof.
  intros Hlen. destruct path as [|k path].
  - rewrite decide_True by by left. cbn [tree_lookup fmap option_fmap option_map under length].
    by rewrite children_grow, Nat.sub_0_r.
  - rewrite tree_lookup_grow_eq.
    destruct (decide (under (k :: path) es = [])) as [Hnil|Hsome].
    + rewrite decide_False by naive_solver. rewrite decide_False by naive_solver. done.
    + rewrite decide_True by done. rewrite decide_True by by right.
      cbn [fmap option_fmap option_map]. by rewrite children_grow.
Qed.

Lemma under_rows_nil (fields : list string) (extra : record -> list string)
    (val : record -> string) (path : list string) (rs : list record) :
  length path <= length fields ->
  under path ((fun row => (row_values fields row ++ extra row, val row)) <$> rs) = []
  <-> filter (fun row => row_values (take (length path) fields) row = path) rs = [].
Proof.
  intros Hlen. rewrite under_fmap.
  erewrite (list_filter_iff _
              (fun row => row_values (take (length path) fields) row = path)).
  - split; [apply fmap_nil_inv|by intros ->].
  - intros row. rewrite take_app_le by (rewrite row_values_length; lia).
    by rewrite row_values_take.
Qed.

Lemma values_under_rows (fields : list string) (val : record -> string)
    (path : list string) (rs : list record) :
  length path = length fields ->
  (under path ((fun row => (row_values fields row ++ [], val row)) <$> rs)).*2
  = val <$> filter (fun row => row_values (take (length path) fields) row = path) rs.
Proof.
  intros Hlen. rewrite under_fmap, <-list_fmap_compose.
  erewrite (list_filter_iff _
              (fun row => row_values (take (length path) fields) row = path)); [done|].
  intros row. rewrite take_app_le by (rewrite row_values_length; lia).
  by rewrite row_values_take.
Qed.

(** X9: for one table and one [depth], the plain tree and the
    detailed tree have the same names below every path that is shorter
    than the number of used columns: the keys of one are the keys, or the
    array, of the other, in the same order. *)
Theorem plain_tree_in_detailed_tree (data : reader) (depth : Z) (plain detailed : tree)
    (path : list string)
    (Hplain : construct_json data depth = Ok plain)
    (Hdetailed : detailed_tree data depth = Ok detailed)
    (Hpath : length path < length (py_slice_to (fieldnames data) depth)) :
  children <$> tree_lookup path plain = children <$> tree_lookup path detailed.
Proof.
  pose proof (construct_json_grow _ _ _ Hplain) as Hp.
  pose proof (detailed_tree_grow _ _ _ Hdetailed) as Hd.
  cbv zeta in Hp, Hd. set (fields := py_slice_to (fieldnames data) depth) in *.
  destruct (decide (rows data = [])) as [Hnil|Hrows].
  { by rewrite Hp, Hd, Hnil. }
  destruct (construct_json_fields _ _ _ Hplain Hrows) as (init & f2 & f1 & Hfields).
  fold fields in Hfields. rewrite Hfields in *.
  rewrite length_app in Hpath. cbn [length] in Hpath.
  rewrite py_slice_to_minus2 in Hp.
  rewrite (list_fmap_ext _ _ (rows data)
             (fun _ row _ => plain_entry_split init f2 f1 row)) in Hp.
  unfold detailed_entry in Hd. fold fields in Hd. rewrite Hfields in Hd.
  assert (Htake : take (length path) (init ++ [f2; f1])
                  = take (length path) (init ++ [f2])).
  { replace (init ++ [f2; f1]) with ((init ++ [f2]) ++ [f1]) by by rewrite <-app_assoc.
    apply take_app_le. rewrite length_app. simpl. lia. }
  rewrite Hp, Hd, !children_lookup_grow by (rewrite ?length_app; simpl; lia).
  rewrite (decide_ext _ (path = [] \/
             filter (fun row : record =>
                       row_values (take (length path) (init ++ [f2])) row = path)
                    (rows data) <> [])).
  2: { rewrite under_rows_nil by (rewrite length_app; simpl; lia). done. }
  rewrite (decide_ext (path = [] \/ under path _ <> []) (path = [] \/
             filter (fun row : record =>
                       row_values (take (length path) (init ++ [f2])) row = path)
                    (rows data) <> [])).
  2: { rewrite under_rows_nil by (rewrite length_app; simpl; lia).
       by rewrite Htake. }
  case_decide; [|done]. f_equal.
  assert (Hcol : forall j f, (init ++ [f2; f1]) !! j = Some f ->
                   field_at (init ++ [f2; f1]) (Z.of_nat j) = f).
  { intros j f. apply field_at_lookup. }
  assert (Hsplit : init ++ [f2; f1] = (init ++ [f2]) ++ [f1]) by by rewrite <-app_assoc.
  assert (Hdeep : S (length (init ++ [f2; f1])) - length path
                  = S (length (init ++ [f2; f1]) - length path)).
  { rewrite length_app. simpl. lia. }
  rewrite Hdeep.
  rewrite (heads_under_rows (init ++ [f2; f1])) by (rewrite length_app; simpl; lia).
  rewrite Htake.
  destruct (S (length init) - length path) as [|j] eqn:Hj.
  - assert (Hlen : length path = length (init ++ [f2])).
    { rewrite length_app. simpl. lia. }
    rewrite values_under_rows by done. f_equal.
    apply list_fmap_ext. intros i row _.
    rewrite (Hcol (length path) f1); [done|].
    rewrite Hlen, Hsplit. by apply list_lookup_middle.
  - rewrite heads_under_rows by (rewrite length_app; simpl; lia).
    f_equal. apply list_fmap_ext. intros i row _.
    destruct (lookup_lt_is_Some_2 (init ++ [f2]) (length path)) as [f Hf].
    { rewrite length_app. simpl. lia. }
    rewrite (field_at_lookup _ _ _ Hf).
    rewrite (Hcol (length path) f); [done|].
    rewrite Hsplit. by apply lookup_app_l_Some.
Qed.

Lemma plain_tree_in_detailed_tree_witness :
  children <$> tree_lookup ["a"] (TMap [("a", TArr ["b"; "b2"])])
  = children <$> tree_lookup ["a"] sample_detailed.
Proof.
  apply (plain_tree_in_detailed_tree sample 2
           (TMap [("a", TArr ["b"; "b2"])]) sample_detailed ["a"]).
  - vm_compute. reflexivity.
  - vm_compute. reflexivity.
  - vm_compute. lia.
Defined.

(** * Further properties of the labeler *)

(** ** The argument of a labelling that returns *)

Lemma containers_map (kvs : list (string * tree)) :
  containers (TMap kvs) <-> Forall (fun kv => containers kv.2) kvs.
Proof.
  cbn [containers]. induction kvs as [|[k v] kvs IH]; [by split; [constructor|]|].
  rewrite Forall_cons, IH. done.
Qed.

Lemma label_leaves_Raise (depth : nat) (val track : list string) (node_id : list nat)
    (e : pyerr) :
  label_leaves depth val track node_id = Raise e -> e = IndexError.
Proof.
  revert track node_id. induction val as [|node val IH]; intros track node_id; simpl.
  - done.
  - destruct (node_id !! depth); [apply IH|]. by intros [= <-].
Qed.

Lemma label_leaves_Ok_counter (depth : nat) (val track : list string) (node_id : list nat)
    r :
  label_leaves depth val track node_id = Ok r -> val = [] \/ depth < length node_id.
Proof.
  destruct val as [|node val]; [by left|]. simpl.
  destruct (node_id !! depth) eqn:Hn; [|done]. intros _. right.
  by eapply lookup_lt_Some.
Qed.

(** A call on a tree without strings in the place of containers can only
    miss a counter. *)
Lemma recur_add_label_Raise (val : tree) :
  forall key depth track node_id e,
    recur_add_label val key depth track node_id = Raise e ->
    (e = IndexError \/ e = AttributeError) /\ (containers val -> e = IndexError).
Proof.
  induction val as [s|xs|kvs IH] using tree_ind;
    intros key depth track node_id e Hrun;
    rewrite recur_add_label_eq in Hrun;
    destruct (node_id !! depth) as [n|] eqn:Hn; cbn [bind] in Hrun;
    try (injection Hrun as <-; by split; [left|]).
  - cbv zeta in Hrun. injection Hrun as <-. split; [by right|]. done.
  - cbv zeta in Hrun.
    destruct (label_leaves _ xs [] _) as [[sub nid]|e'] eqn:Hleaves; [done|].
    cbn [bind] in Hrun. injection Hrun as <-.
    apply label_leaves_Raise in Hleaves as ->. by split; [left|].
  - cbv zeta in Hrun. rewrite containers_map.
    generalize dependent (<[depth:=n + 1]> node_id).
    generalize (@nil (string * tree)) as sub.
    induction IH as [|[k v] kvs Hv _ IHkvs]; intros sub nid Hrun; simpl in Hrun; [done|].
    destruct (recur_add_label v k (depth + 1) sub nid) as [[sub1 nid1]|e'] eqn:Hcall.
    + simpl in Hrun. destruct (IHkvs _ _ Hrun) as [Hkind Hcont].
      split; [done|]. intros [_ ?]%Forall_cons. auto.
    + simpl in Hrun. injection Hrun as <-.
      destruct (Hv _ _ _ _ _ Hcall) as [Hkind Hcont].
      split; [done|]. intros [? _]%Forall_cons. auto.
Qed.

Lemma label_items_Raise (kvs : list (string * tree)) :
  forall depth track node_id e,
    label_items depth kvs track node_id = Raise e ->
    (e = IndexError \/ e = AttributeError) /\
    (Forall (fun kv => containers kv.2) kvs -> e = IndexError).
Proof.
  induction kvs as [|[k v] kvs IH]; intros depth track node_id e; simpl; [done|].
  destruct (recur_add_label v k depth track node_id) as [[track1 nid1]|e'] eqn:Hcall;
    simpl.
  - intros Hrun. destruct (IH _ _ _ _ Hrun) as [Hkind Hcont].
    split; [done|]. intros [_ ?]%Forall_cons. auto.
  - intros [= <-]. destruct (recur_add_label_Raise _ _ _ _ _ _ Hcall) as [Hkind Hcont].
    split; [done|]. intros [? _]%Forall_cons. auto.
Qed.

(** A call that returns had a counter for every level of its tree. *)
Lemma recur_add_label_Ok_fits (val : tree) :
  forall key depth track node_id r,
    recur_add_label val key depth track node_id = Ok r ->
    fits (length node_id - depth) val.
Proof.
  induction val as [s|xs|kvs IH] using tree_ind;
    intros key depth track node_id r Hrun;
    rewrite recur_add_label_eq in Hrun;
    destruct (node_id !! depth) as [n|] eqn:Hn; cbn [bind] in Hrun; try done;
    pose proof (lookup_lt_Some _ _ _ Hn) as Hdepth;
    destruct (length node_id - depth) as [|b] eqn:Hb; try lia; cbv zeta in Hrun.
  - cbn [fits].
    destruct (label_leaves _ xs [] _) as [[sub nid]|e'] eqn:Hleaves; [|done].
    apply label_leaves_Ok_counter in Hleaves as [->|Hlt]; [by left|].
    right. rewrite length_insert in Hlt. lia.
  - cbn [fits].
    destruct (label_items _ kvs [] _) as [[sub nid]|e'] eqn:Hitems; [|done].
    clear Hrun.
    assert (Hlen : length (<[depth:=n + 1]> node_id) - (depth + 1) = b).
    { rewrite length_insert. lia. }
    revert Hitems Hlen. generalize (<[depth:=n + 1]> node_id) as nid0.
    generalize (@nil (string * tree)) as sub0.
    induction IH as [|[k v] kvs Hv _ IHkvs]; intros sub0 nid0 Hitems Hlen;
      [constructor|].
    simpl in Hitems. apply bind_Ok in Hitems as ([sub1 nid1] & Hcall & Hitems).
    constructor.
    + rewrite <-Hlen. by eapply Hv.
    + eapply IHkvs; [done|].
      apply recur_add_label_length in Hcall. lia.
Qed.

Lemma flat_map_nil_iff {A B} (f : A -> list B) (l : list A) :
  flat_map f l = [] <-> Forall (fun a => f a = []) l.
Proof.
  induction l as [|a l IH]; simpl; [by split; [constructor|]|].
  rewrite Forall_cons, <-IH. split.
  - by intros [-> ->]%app_eq_nil.
  - by intros [-> ->].
Qed.

(** Counters for [budget] levels are enough for a tree of containers
    with no name at that depth or below it. *)
Lemma fits_names (budget : nat) :
  forall val key,
    fits budget val <->
    containers val /\ forall e, budget <= e -> entry_names e key val = [].
Proof.
  induction budget as [|b IH]; intros val key.
  - split; [done|]. intros [_ Hnames]. by specialize (Hnames 0 (le_n 0)).
  - destruct val as [s|xs|kvs]; cbn [fits].
    + split; [done|]. by intros [? _].
    + split.
      * intros Hxs. split; [done|]. intros [|[|e]] He; [lia| |done].
        destruct Hxs as [->|?]; [done|lia].
      * intros [_ Hnames]. destruct b; [|right; lia]. left.
        by apply (Hnames 1).
    + rewrite containers_map. split.
      * intros Hkvs. split.
        -- eapply Forall_impl; [done|]. intros [k v] Hv. by apply (IH v k).
        -- intros [|e] He; [lia|]. cbn [entry_names]. apply flat_map_nil_iff.
           eapply Forall_impl; [done|]. intros [k v] Hv. apply (IH v k); [done|lia].
      * intros [Hcont Hnames]. apply Forall_forall. intros [k v] Hin.
        apply (IH v k). split.
        -- by apply (proj1 (Forall_forall _ _) Hcont (k, v)).
        -- intros e He. specialize (Hnames (S e) ltac:(lia)).
           cbn [entry_names] in Hnames. apply flat_map_nil_iff in Hnames.
           by apply (proj1 (Forall_forall _ _) Hnames (k, v)).
Qed.

Lemma fits_DEPTH_names (kvs : list (string * tree)) :
  Forall (fun kv => fits (Z.to_nat DEPTH) kv.2) kvs <->
  containers (TMap kvs) /\
  forall d, Z.to_nat DEPTH <= d -> names_at d (TMap kvs) = [].
Proof.
  change (Forall (fun kv => fits (Z.to_nat DEPTH) kv.2) kvs)
    with (fits (S (Z.to_nat DEPTH)) (TMap kvs)).
  rewrite (fits_names _ _ EmptyString). unfold names_at. split.
  - intros [? Hnames]. split; [done|]. intros d Hd. apply Hnames. lia.
  - intros [? Hnames]. split; [done|]. intros [|e] He; [lia|]. apply Hnames. lia.
Qed.

Lemma add_label_Ok_shape (t out : tree) :
  add_label t = Ok out ->
  (exists kvs, t = TMap kvs) /\ containers t /\
  forall d, Z.to_nat DEPTH <= d -> names_at d t = [].
Proof.
  intros Hrun. unfold add_label in Hrun.
  apply bind_Ok in Hrun as ([sub nid] & Hrun & _).
  destruct t as [s|xs|kvs]; [done..|]. split; [eauto|]. apply fits_DEPTH_names.
  unfold add_label_run in Hrun.
  assert (Hlen : length (replicate (Z.to_nat DEPTH) 1) - 0 = Z.to_nat DEPTH).
  { by rewrite length_replicate. }
  revert Hrun Hlen. generalize (replicate (Z.to_nat DEPTH) 1) as nid0.
  generalize (@nil (string * tree)) as sub0.
  induction kvs as [|[k v] kvs IH]; intros sub0 nid0 Hrun Hlen; [constructor|].
  simpl in Hrun. apply bind_Ok in Hrun as ([sub1 nid1] & Hcall & Hrun).
  constructor.
  - rewrite <-Hlen. by eapply recur_add_label_Ok_fits.
  - eapply IH; [done|]. apply recur_add_label_length in Hcall. lia.
Qed.

Lemma add_label_Raise_kinds (t : tree) (e : pyerr) :
  add_label t = Raise e -> e = IndexError \/ e = AttributeError.
Proof.
  unfold add_label, add_label_run.
  destruct t as [s|xs|kvs]; simpl; [intros [= <-]; by right..|].
  destruct (label_items 0 kvs [] _) as [[sub nid]|e'] eqn:Hitems; simpl; [done|].
  intros [= <-]. by apply label_items_Raise in Hitems as [? _].
Qed.

Lemma add_label_Raise_containers (t : tree) (e : pyerr) :
  add_label t = Raise e -> (exists kvs, t = TMap kvs) -> containers t -> e = IndexError.
Proof.
  intros Hrun [kvs ->] Hcont. unfold add_label, add_label_run in Hrun.
  destruct (label_items 0 kvs [] _) as [[sub nid]|e'] eqn:Hitems; simpl in Hrun;
    [done|].
  injection Hrun as <-. apply label_items_Raise in Hitems as [_ Hkind].
  apply Hkind. by apply containers_map.
Qed.

(** X16: [add_label] returns exactly on a mapping that holds
    mappings and arrays only, with no name at depth [DEPTH] or below. It
    raises IndexError or AttributeError and nothing else, and on a mapping
    of mappings and arrays only IndexError. *)
Theorem add_label_outcome (t : tree) :
  ((exists out, add_label t = Ok out) <->
     (exists kvs, t = TMap kvs) /\ containers t /\
     forall d, Z.to_nat DEPTH <= d -> names_at d t = []) /\
  (forall e, add_label t = Raise e -> e = IndexError \/ e = AttributeError) /\
  (forall e, add_label t = Raise e -> (exists kvs, t = TMap kvs) -> containers t ->
             e = IndexError).
Proof.
  split_and!.
  - split.
    + intros [out Hrun]. by eapply add_label_Ok_shape.
    + intros ([kvs ->] & Hcont & Hnames). apply add_label_total, fits_DEPTH_names. done.
  - apply add_label_Raise_kinds.
  - apply add_label_Raise_containers.
Qed.

(** ** Labels as identifiers *)

Lemma pretty_N_char_digit (x : N) (c : ascii) :
  c = "."%char \/ c = ":"%char -> pretty_N_char x <> c.
Proof. intros [->| ->]; unfold pretty_N_char; repeat case_match; discriminate. Qed.

Lemma pretty_N_go_lacks (c : ascii) (x : N) (s : string) :
  c = "."%char \/ c = ":"%char -> lacks c s -> lacks c (pretty_N_go x s).
Proof.
  intros Hc. revert s. induction (N.lt_wf_0 x) as [x _ IH]; intros s Hs.
  destruct (decide (x = 0)%N) as [->|Hx].
  - by rewrite pretty_N_go_0.
  - rewrite pretty_N_go_step by lia. apply IH.
    + apply N.div_lt; lia.
    + split; [by apply pretty_N_char_digit|done].
Qed.

Lemma pretty_nat_lacks (c : ascii) (n : nat) :
  c = "."%char \/ c = ":"%char -> lacks c (pretty n).
Proof.
  intros Hc. unfold pretty, pretty_nat, pretty, pretty_N. case_decide.
  - simpl. split; [|done]. destruct Hc as [->| ->]; discriminate.
  - by apply pretty_N_go_lacks.
Qed.

Lemma lacks_split (c : ascii) (a a' r r' : string) :
  lacks c a -> lacks c a' ->
  a +:+ String c r = a' +:+ String c r' -> a = a' /\ r = r'.
Proof.
  revert a'. induction a as [|x a IH]; intros [|x' a']; simpl; intros Ha Ha' Heq.
  - by injection Heq as ->.
  - injection Heq as <- _. by destruct Ha' as [[] _].
  - injection Heq as -> _. by destruct Ha as [[] _].
  - injection Heq as -> Heq.
    destruct (IH a' (proj2 Ha) (proj2 Ha') Heq) as [-> ->]. done.
Qed.

(** A label determines its depth, its serial and the name it was made
    of. *)
Lemma label_inj (depth depth' m m' : nat) (s s' : string) :
  label depth m s = label depth' m' s' -> depth = depth' /\ m = m' /\ s = s'.
Proof.
  unfold label. intros Heq.
  change ("." +:+ ?r) with (String "." r) in Heq.
  apply lacks_split in Heq as [Hdepth Heq]; [|apply pretty_nat_lacks; by left..].
  change (": " +:+ ?r) with (String ":" (String " " r)) in Heq.
  apply lacks_split in Heq as [Hm Heq]; [|apply pretty_nat_lacks; by right..].
  injection Heq as ->. split_and!; [by apply (inj pretty)..|done].
Qed.

Lemma relabel_lookup (d start i : nat) (l : list string) (x : string) :
  relabel d start l !! i = Some x <->
  exists s, l !! i = Some s /\ x = label (d + 1) (start + i) s.
Proof.
  unfold relabel. rewrite list_lookup_imap.
  destruct (l !! i) as [s|]; simpl; [|naive_solver].
  split; [intros [= <-]; eauto|]. by intros (? & [= <-] & ->).
Qed.

(** X17: no two names in the result of [add_label] are equal: a
    label that stands at two positions stands at the same depth and at
    the same place of that depth. *)
Theorem add_label_labels_unique (t out : tree) (d d' i j : nat) (l : string)
    (Hrun : add_label t = Ok out)
    (Hfirst : names_at d out !! i = Some l)
    (Hsecond : names_at d' out !! j = Some l) :
  d = d' /\ i = j.
Proof.
  apply add_label_Ok in Hrun as [_ Hnames].
  rewrite Hnames in Hfirst, Hsecond.
  apply relabel_lookup in Hfirst as (s & _ & ->).
  apply relabel_lookup in Hsecond as (s' & _ & Heq).
  apply label_inj in Heq as (? & ? & _). lia.
Qed.

Lemma add_label_labels_unique_witness : 1 = 1 /\ 1 = 1.
Proof.
  apply (add_label_labels_unique sample_plain sample_labeled 1 1 1 1 "2.2: b2").
  - vm_compute. reflexivity.
  - vm_compute. reflexivity.
  - vm_compute. reflexivity.
Defined.

(** ** The labelled tree determines the tree *)

Lemma relabel_inj (d start : nat) (l l' : list string) :
  relabel d start l = relabel d start l' -> l = l'.
Proof.
  intros Heq. apply list_eq. intros i.
  destruct (l !! i) as [s|] eqn:Hs.
  - assert (Hx : relabel d start l !! i = Some (label (d + 1) (start + i) s)).
    { apply relabel_lookup. eauto. }
    rewrite Heq in Hx. apply relabel_lookup in Hx as (s' & -> & Hlab).
    apply label_inj in Hlab as (_ & _ & ->). done.
  - destruct (l' !! i) as [s'|] eqn:Hs'; [|done].
    assert (Hx : relabel d start l' !! i = Some (label (d + 1) (start + i) s')).
    { apply relabel_lookup. eauto. }
    rewrite <-Heq in Hx. apply relabel_lookup in Hx as (s & Hs'' & _). congruence.
Qed.

Lemma same_shape_sym (t : tree) : forall u, same_shape t u -> same_shape u t.
Proof.
  induction t as [s|xs|kvs IH] using tree_ind; intros u Hshape; inversion Hshape; subst.
  - constructor.
  - by constructor.
  - constructor. clear Hshape. rename H0 into Hall.
    induction Hall as [|kv kv' kvs kvs' Hkv _ IHall]; [constructor|].
    apply Forall_cons in IH as [Hv IH]. constructor; auto.
Qed.

(** Two trees of containers with the same shape and the same names at
    every depth are equal. *)
Lemma same_shape_names_eq (t : tree) :
  forall u key key',
    same_shape t u -> containers t ->
    (forall d, entry_names d key t = entry_names d key' u) ->
    key = key' /\ t = u.
Proof.
  induction t as [s|xs|kvs IH] using tree_ind; intros u key key' Hshape Hcont Hnames.
  - done.
  - inversion Hshape; subst. split.
    + by injection (Hnames 0).
    + f_equal. apply (Hnames 1).
  - inversion Hshape as [| |? kvs' Hall]; subst. split.
    + by injection (Hnames 0).
    + f_equal. apply containers_map in Hcont.
      assert (Hsub : forall d, flat_map (fun kv => entry_names d kv.1 kv.2) kvs
                               = flat_map (fun kv => entry_names d kv.1 kv.2) kvs').
      { intros d. apply (Hnames (S d)). }
      clear Hnames Hshape.
      induction Hall as [|[k v] [k' v'] kvs kvs' Hkv _ IHall]; [done|].
      apply Forall_cons in IH as [Hv IH]. apply Forall_cons in Hcont as [Hcv Hcont].
      simpl in Hkv.
      assert (Hboth : forall d,
                entry_names d k v = entry_names d k' v' /\
                flat_map (fun kv => entry_names d kv.1 kv.2) kvs
                = flat_map (fun kv => entry_names d kv.1 kv.2) kvs').
      { intros d. specialize (Hsub d). simpl in Hsub.
        apply app_inj_1 in Hsub; [done|].
        destruct d as [|d]; [done|]. by apply same_shape_names. }
      destruct (Hv v' k k' Hkv Hcv (fun d => proj1 (Hboth d))) as [Hk Hvv].
      simpl in Hvv. f_equal; [congruence|].
      apply IHall; [done..|]. intros d. apply Hboth.
Qed.

(** X18: on trees whose keys and array elements are all strings,
    [add_label] loses nothing: two such trees with the same labeled tree
    are equal. *)
Theorem add_label_injective (t1 t2 out : tree)
    (Hfirst : add_label t1 = Ok out)
    (Hsecond : add_label t2 = Ok out) :
  t1 = t2.
Proof.
  destruct (add_label_Ok_shape t1 out Hfirst)
    as (_ & Hcont & _).
  apply add_label_Ok in Hfirst as [Hshape1 Hnames1].
  apply add_label_Ok in Hsecond as [Hshape2 Hnames2].
  apply (same_shape_names_eq t1 t2 EmptyString EmptyString); [|done|].
  - eapply same_shape_trans; [done|]. by apply same_shape_sym.
  - intros [|d]; [done|]. change (names_at d t1 = names_at d t2).
    apply (relabel_inj d 1). by rewrite <-Hnames1, <-Hnames2.
Qed.

Lemma add_label_injective_witness : sample_plain = sample_plain.
Proof.
  apply (add_label_injective sample_plain sample_plain sample_labeled).
  - vm_compute. reflexivity.
  - vm_compute. reflexivity.
Defined.

(** ** The labeler and the depth of the builders *)

Lemma containers_grow (arr : list string -> list string) (m : nat) :
  forall es, containers (grow arr m es).
Proof.
  induction m as [|m IH]; intros es; [done|].
  cbn [grow]. apply containers_map, Forall_fmap, Forall_forall.
  intros k _. apply IH.
Qed.

Lemma heads_nonempty (n : nat) (es : list path_entry) :
  es <> [] -> Forall (fun e => length e.1 = S n) es -> heads es <> [].
Proof.
  destruct es as [|[[|k p] s] es]; [done| |done].
  intros _ [? _]%Forall_cons. done.
Qed.

(** A grown tree that holds an entry has names at every depth down to
    its arrays. *)
Lemma names_grow_nonempty (arr : list string -> list string) (m : nat) :
  (forall l, l <> [] -> arr l <> []) ->
  forall es d key,
    es <> [] -> Forall (fun e => length e.1 = m) es -> d <= m ->
    entry_names (S d) key (grow arr m es) <> [].
Proof.
  intros Harr. induction m as [|m IH]; intros es d key Hes Hlen Hd.
  - replace d with 0 by lia. cbn [grow entry_names]. apply Harr.
    by destruct es.
  - cbn [grow entry_names].
    pose proof (heads_nonempty m es Hes Hlen) as Hheads.
    destruct (first_occ (heads es)) as [|k ks] eqn:Hks.
    { destruct (heads es) as [|k ks]; [done|]. by simpl in Hks. }
    rewrite fmap_cons. cbn [flat_map fst snd].
    destruct d as [|d]; [done|].
    intros [Hnil _]%app_eq_nil. revert Hnil. apply IH; [|by apply below_lengths|lia].
    apply head_below, elem_of_first_occ. rewrite Hks. left.
Qed.

Lemma first_occ_nonempty (l : list string) : l <> [] -> first_occ l <> [].
Proof. by destruct l. Qed.

Lemma add_label_grow (arr : list string -> list string) (m : nat)
    (es : list path_entry) :
  (forall l, l <> [] -> arr l <> []) ->
  es <> [] -> Forall (fun e => length e.1 = S m) es ->
  (S m < Z.to_nat DEPTH -> exists out, add_label (grow arr (S m) es) = Ok out) /\
  (Z.to_nat DEPTH <= S m -> add_label (grow arr (S m) es) = Raise IndexError).
Proof.
  intros Harr Hes Hlen. split.
  - intros Hm. cbn [grow]. apply add_label_total.
    apply Forall_fmap, Forall_forall. intros k _. cbn [snd compose].
    apply fits_grow. lia.
  - intros Hm.
    destruct (add_label (grow arr (S m) es)) as [out|e] eqn:Hrun.
    + destruct (add_label_Ok_shape _ out Hrun)
        as (_ & _ & Hnames).
      destruct (names_grow_nonempty arr (S m) Harr es (Z.to_nat DEPTH) EmptyString
                  Hes Hlen Hm).
      by apply Hnames.
    + f_equal. apply (add_label_Raise_containers _ e Hrun).
      * cbn [grow]. eauto.
      * apply containers_grow.
Qed.

(** X19: on the tree that [construct_json] builds from at least
    one row, [add_label] returns if at most [DEPTH] columns were used and
    raises IndexError if more were used. *)
Theorem add_label_plain_tree_depth (data : reader) (depth : Z) (t : tree)
    (Hrun : construct_json data depth = Ok t)
    (Hrows : rows data <> []) :
  let all_fields := py_slice_to (fieldnames data) depth in
  (length all_fields <= Z.to_nat DEPTH -> exists out, add_label t = Ok out) /\
  (Z.to_nat DEPTH < length all_fields -> add_label t = Raise IndexError).
Proof.
  intros all_fields.
  pose proof (construct_json_grow _ _ _ Hrun) as Hout. cbv zeta in Hout.
  fold all_fields in Hout.
  destruct (construct_json_fields _ _ _ Hrun Hrows) as (init & f2 & f1 & Hfields).
  fold all_fields in Hfields. rewrite Hfields in *.
  rewrite py_slice_to_minus2 in Hout.
  destruct (add_label_grow first_occ (length init)
              (plain_entry (init ++ [f2; f1]) <$> rows data)) as [Hok Hraise].
  - apply first_occ_nonempty.
  - by destruct (rows data).
  - apply Forall_fmap, Forall_forall. intros row _. cbv [compose].
    rewrite plain_entry_split. simpl.
    rewrite app_nil_r, row_values_length, length_app. simpl. lia.
  - rewrite <-Hout in Hok, Hraise. rewrite length_app. simpl.
    split; intros Hlen; [apply Hok|apply Hraise]; lia.
Qed.

Lemma add_label_plain_tree_depth_witness :
  let all_fields := py_slice_to (fieldnames sample) 4 in
  (length all_fields <= Z.to_nat DEPTH -> exists out, add_label sample_plain = Ok out) /\
  (Z.to_nat DEPTH < length all_fields -> add_label sample_plain = Raise IndexError).
Proof.
  apply (add_label_plain_tree_depth sample 4 sample_plain).
  - vm_compute. reflexivity.
  - discriminate.
Defined.

(** X20: on the tree that [detailed_tree] builds from at least
    one row, [add_label] returns if the used columns and the two further
    levels are at most [DEPTH], and raises IndexError otherwise. *)
Theorem add_label_detailed_tree_depth (data : reader) (depth : Z) (t : tree)
    (Hrun : detailed_tree data depth = Ok t)
    (Hrows : rows data <> []) :
  let fields := py_slice_to (fieldnames data) depth in
  (length fields + 2 <= Z.to_nat DEPTH -> exists out, add_label t = Ok out) /\
  (Z.to_nat DEPTH < length fields + 2 -> add_label t = Raise IndexError).
Proof.
  intros fields.
  pose proof (detailed_tree_grow _ _ _ Hrun) as Hout. cbv zeta in Hout.
  fold fields in Hout.
  destruct (add_label_grow id (length fields)
              (detailed_entry (fieldnames data) depth <$> rows data)) as [Hok Hraise].
  - done.
  - by destruct (rows data).
  - apply Forall_fmap, Forall_forall. intros row _. cbv [compose].
    unfold detailed_entry. fold fields. simpl.
    rewrite length_app, row_values_length. simpl. lia.
  - rewrite <-Hout in Hok, Hraise.
    split; intros Hlen; [apply Hok|apply Hraise]; lia.
Qed.

Lemma add_label_detailed_tree_depth_witness :
  let fields := py_slice_to (fieldnames sample) 2 in
  (length fields + 2 <= Z.to_nat DEPTH -> exists out, add_label sample_detailed = Ok out) /\
  (Z.to_nat DEPTH < length fields + 2 -> add_label sample_detailed = Raise IndexError).
Proof.
  apply (add_label_detailed_tree_depth sample 2 sample_detailed).
  - vm_compute. reflexivity.
  - discriminate.
Defined.

(** ** The nesting of the calls of the labeler *)









(** A dictionary that holds itself: the labeler stops at the last
    counter. *)
Example h_add_label_cycle :
  (h_add_label (RRef 0) [ODict [("loop", RRef 0)]]).2 = Raise IndexError.
Proof. vm_compute. reflexivity. Qed.

(** * The year-level builder as a function of its rows *)

(** ** Dictionaries with string keys *)

Section keyed_str.
Implicit Types (g : string -> value) (l : list string).

Lemma kstr_keys g l : ((fun k => (KStr k, g k)) <$> l).*1 = KStr <$> l.
Proof. rewrite <-list_fmap_compose. done. Qed.

Lemma dict_get_kstr g l k :
  dict_get (KStr k) ((fun k => (KStr k, g k)) <$> l)
  = if decide (k ∈ l) then Some (g k) else None.
Proof.
  induction l as [|k' l IH]; [done|]. cbn [fmap list_fmap dict_get].
  destruct (decide (k = k')) as [->|Hne].
  - rewrite decide_True by done. rewrite decide_True; [done|left].
  - rewrite decide_False by congruence. rewrite IH.
    destruct (decide (k ∈ l)) as [Hin|Hnin].
    + rewrite decide_True; [done|by right].
    + rewrite decide_False; [done|]. by intros [?|?]%elem_of_cons.
Qed.

Lemma dict_mem_kstr g l k :
  dict_mem (KStr k) ((fun k => (KStr k, g k)) <$> l) = bool_decide (k ∈ l).
Proof.
  unfold dict_mem. rewrite dict_get_kstr. apply bool_decide_ext.
  case_decide; [by split; eauto|]. split; [by intros [? ?]|done].
Qed.

Lemma dict_set_kstr g l k v :
  NoDup l ->
  dict_set (KStr k) v ((fun k => (KStr k, g k)) <$> l)
  = (fun k' => (KStr k', if decide (k' = k) then v else g k')) <$> add_new l k.
Proof.
  intros Hnd. unfold add_new. case_bool_decide as Hin.
  - induction Hnd as [|k' l Hk' Hnd IH]; simpl.
    + by apply elem_of_nil in Hin.
    + destruct (decide (k = k')) as [->|Hne].
      * rewrite !decide_True by done. f_equal.
        apply list_fmap_ext. intros i k Hk. rewrite decide_False; [done|].
        intros ->. apply Hk'. by eapply list_elem_of_lookup_2.
      * rewrite decide_False by congruence.
        rewrite (decide_False (P := k' = k)) by done. f_equal. apply IH.
        apply elem_of_cons in Hin as [?|?]; done.
  - rewrite dict_set_fresh.
    + rewrite fmap_app. simpl. rewrite decide_True by done. f_equal.
      apply list_fmap_ext. intros i k' Hk'. rewrite decide_False; [done|].
      intros ->. apply Hin. by eapply list_elem_of_lookup_2.
    + rewrite kstr_keys. intros (k' & [= <-] & ?)%list_elem_of_fmap. done.
Qed.

End keyed_str.

(** ** Strings joined by a separator *)

Lemma string_app_assoc (a b c : string) : (a +:+ b) +:+ c = a +:+ b +:+ c.
Proof.
  induction a as [|x a IH]; [done|].
  change (String x ((a +:+ b) +:+ c) = String x (a +:+ b +:+ c)). by rewrite IH.
Qed.

Lemma py_join_snoc (sep : string) (l : list string) (x : string) :
  l <> [] -> py_join sep (l ++ [x]) = py_join sep l +:+ sep +:+ x.
Proof.
  unfold py_join. induction l as [|a [|b l] IH]; intros Hl; [done|done|].
  specialize (IH ltac:(done)).
  change (String.concat sep ((a :: b :: l) ++ [x]))
    with (a +:+ sep +:+ String.concat sep ((b :: l) ++ [x])).
  rewrite IH.
  change (String.concat sep (a :: b :: l))
    with (a +:+ sep +:+ String.concat sep (b :: l)).
  by rewrite !string_app_assoc.
Qed.

(** ** One more entry for a topic *)

Lemma indexed_snoc (es : list path_entry) (e : path_entry) :
  indexed (es ++ [e]) = indexed es ++ [(e.1, pretty (Z.of_nat (S (length es))))].
Proof. unfold indexed. rewrite imap_app. simpl. by rewrite Nat.add_0_r. Qed.

Lemma heads_indexed (es : list path_entry) : heads (indexed es) = heads es.
Proof.
  induction es as [|e es IH] using rev_ind; [done|].
  rewrite indexed_snoc. unfold heads in *. rewrite !omap_app, IH. done.
Qed.

Lemma tag_indices_snoc (es : list path_entry) (tag entry : string) :
  tag_indices (es ++ [([tag], entry)])
  = dict_set (KStr tag)
      (VStr (if bool_decide (tag ∈ heads es)
             then py_join " " (below tag (indexed es)).*2
                  +:+ " " +:+ pretty (Z.of_nat (S (length es)))
             else pretty (Z.of_nat (S (length es)))))
      (tag_indices es).
Proof.
  unfold tag_indices. rewrite heads_snoc, first_occ_snoc.
  rewrite dict_set_kstr by apply NoDup_first_occ.
  apply list_fmap_ext. intros i t _. f_equal.
  rewrite indexed_snoc. cbn [fst snd]. rewrite below_snoc.
  case_decide as Ht.
  - subst t. rewrite decide_True by done. rewrite fmap_app. cbn [fmap list_fmap snd].
    f_equal. case_bool_decide as Hin.
    + apply py_join_snoc. intros Hnil%fmap_nil_inv.
      rewrite <-heads_indexed in Hin. by apply head_below in Hin.
    + rewrite <-heads_indexed in Hin.
      assert (Hnil : below tag (indexed es) = []).
      { destruct (decide (below tag (indexed es) = [])) as [?|Hne]; [done|].
        by apply head_below in Hne. }
      by rewrite Hnil.
  - rewrite decide_False by done. by rewrite app_nil_r.
Qed.

Lemma py_len_yl_topic (topic : string) (es : list path_entry) :
  py_len (yl_topic topic es) = Z.of_nat (S (length es)).
Proof. unfold yl_topic. by rewrite py_len_topic_node, length_fmap. Qed.

Lemma py_contains_yl_topic (next_node topic : string) (es : list path_entry) :
  py_contains next_node (yl_topic topic es) = bool_decide (next_node = topic).
Proof. apply py_contains_topic_node. Qed.

Lemma py_setitem_dict (kvs : list (key * value)) (k : key) (v : value) :
  py_setitem (VDict kvs) k v = Ok (VDict (dict_set k v kvs)).
Proof. done. Qed.

(** The statements on the element found or created, with the cell of the
    raw tag read where the code reads it. *)
Lemma yl_tag_entry_topic (all_fields : list string) (row : record)
    (entry topic : string) (i : nat) (xs : list value) (es : list path_entry) :
  xs !! i = Some (yl_topic topic es) ->
  yl_tag_entry all_fields row entry topic (Z.of_nat i) (VList xs)
  = let* field := py_index all_fields DEPTH in
    let* tag_node := row_get row field in
    Ok (VList (<[i := yl_topic topic (es ++ [([tag_node], entry)])]> xs),
        (Z.of_nat (S (length es)) + 1)%Z).
Proof.
  intros Hi. unfold yl_tag_entry.
  rewrite (py_getitem_list xs (Z.of_nat i) (yl_topic topic es)) by (rewrite ?Nat2Z.id; done || lia).
  cbn [bind]. rewrite py_len_yl_topic.
  unfold yl_topic at 1. unfold topic_node at 1. rewrite py_setitem_dict. cbn [bind].
  assert (Hfresh : dict_set (KInt (Z.of_nat (S (length es)))) (VStr entry)
                     ((KStr topic, VDict (tag_indices es)) :: numbered es.*2)
                   = (KStr topic, VDict (tag_indices es)) :: numbered (es.*2 ++ [entry])).
  { rewrite dict_set_fresh, numbered_snoc, length_fmap; [done|]. simpl.
    rewrite not_elem_of_cons. split; [done|].
    intros (j & Hj & Hlt)%numbered_keys. rewrite length_fmap in Hlt.
    assert (Z.of_nat (S (length es)) = Z.of_nat (S j)) by congruence.
    unfold path_entry in *. lia. }
  rewrite Hfresh. cbn [py_getitem dict_get]. rewrite decide_True by done. cbn [bind].
  destruct (py_index all_fields DEPTH) as [field|e]; [|done]. cbn [bind].
  destruct (row_get row field) as [tag_node|e]; [|done]. cbn [bind].
  assert (Hinner :
    (if py_contains tag_node (VDict (tag_indices es))
     then let* old := py_getitem (VDict (tag_indices es)) (KStr tag_node) in
          let* new := py_iadd_str old (" " +:+ pretty (Z.of_nat (S (length es)))) in
          py_setitem (VDict (tag_indices es)) (KStr tag_node) new
     else py_setitem (VDict (tag_indices es)) (KStr tag_node)
            (VStr (pretty (Z.of_nat (S (length es))))))
    = Ok (VDict (tag_indices (es ++ [([tag_node], entry)])))).
  { rewrite tag_indices_snoc. cbn [py_contains]. unfold tag_indices at 1 2.
    rewrite dict_mem_kstr.
    rewrite (bool_decide_ext _ _ (elem_of_first_occ tag_node (heads es))).
    case_bool_decide as Hin.
    - cbn [py_getitem]. rewrite dict_get_kstr.
      rewrite decide_True by by apply elem_of_first_occ. cbn [bind py_iadd_str].
      done.
    - done. }
  rewrite Hinner. cbn [bind]. rewrite py_setitem_dict. cbn [bind dict_set].
  rewrite decide_True by done. rewrite py_setitem_list.
  - rewrite Nat2Z.id. cbn [bind]. do 4 f_equal.
    unfold yl_topic, topic_node. by rewrite fmap_app.
  - apply lookup_lt_Some in Hi. lia.
Qed.

(** ** The search of the third level *)

Lemma find_node_app (next_node : string) (track : value) (r1 r2 : list Z) :
  forall cur_idx node_exists,
    find_node next_node track (r1 ++ r2) cur_idx node_exists
    = let* (cur_idx, node_exists) := find_node next_node track r1 cur_idx node_exists in
      find_node next_node track r2 cur_idx node_exists.
Proof.
  induction r1 as [|i r1 IH]; intros cur_idx node_exists; [done|]. simpl.
  destruct (py_getitem track (KInt i)) as [node|]; [|done]. simpl.
  destruct (py_contains next_node node); apply IH.
Qed.

Lemma find_node_absent (next_node : string) (xs : list value) (range : list Z) :
  (forall i, i ∈ range ->
     (0 <= i)%Z /\ exists x, xs !! Z.to_nat i = Some x /\ py_contains next_node x = false) ->
  forall cur_idx node_exists,
    find_node next_node (VList xs) range cur_idx node_exists = Ok (cur_idx, node_exists).
Proof.
  induction range as [|i range IH]; intros Hrange cur_idx node_exists; [done|].
  cbn [find_node]. destruct (Hrange i) as (Hi & x & Hx & Hno); [left|].
  rewrite (py_getitem_list _ _ _ Hi Hx). cbn [bind]. rewrite Hno.
  apply IH. intros j Hj. apply Hrange. by right.
Qed.

(** In an array in which one element only holds the key, the search
    returns the position of this element. *)
Lemma find_node_present (next_node : string) (xs : list value) (i : nat) (x : value) :
  xs !! i = Some x ->
  py_contains next_node x = true ->
  (forall j y, j <> i -> xs !! j = Some y -> py_contains next_node y = false) ->
  forall cur_idx node_exists,
    find_node next_node (VList xs) (seqZ 0 (py_len (VList xs))) cur_idx node_exists
    = Ok (Z.of_nat i, true).
Proof.
  intros Hx Hyes Hothers cur_idx node_exists. cbn [py_len].
  pose proof (lookup_lt_Some _ _ _ Hx) as Hlt.
  replace (Z.of_nat (length xs))
    with (Z.of_nat i + (1 + Z.of_nat (length xs - S i)))%Z by lia.
  rewrite seqZ_app by lia. rewrite (seqZ_app _ 1) by lia.
  assert (Hno : forall r : list Z,
            (forall j, j ∈ r -> (0 <= j < Z.of_nat (length xs))%Z /\ Z.to_nat j <> i) ->
            forall j, j ∈ r ->
              (0 <= j)%Z /\
              exists y, xs !! Z.to_nat j = Some y /\ py_contains next_node y = false).
  { intros r Hr j Hj. destruct (Hr j Hj) as [Hj1 Hj2]. split; [lia|].
    destruct (lookup_lt_is_Some_2 xs (Z.to_nat j)) as [y Hy]; [lia|].
    exists y. split; [done|]. by eapply Hothers. }
  rewrite find_node_app, find_node_absent.
  2: { apply Hno. intros j Hj%elem_of_seqZ. lia. }
  cbn [bind]. rewrite find_node_app.
  change (seqZ (0 + Z.of_nat i) 1) with [(0 + Z.of_nat i)%Z]. cbn [find_node].
  rewrite (py_getitem_list _ _ x) by (rewrite ?Z.add_0_l, ?Nat2Z.id; done || lia).
  cbn [bind]. rewrite Hyes. cbn [bind].
  rewrite find_node_absent.
  - by rewrite Z.add_0_l.
  - apply Hno. intros j Hj%elem_of_seqZ. lia.
Qed.

(** ** One more entry for an array *)

Lemma yl_topic_nil (topic : string) : yl_topic topic [] = VDict [(KStr topic, VDict [])].
Proof. done. Qed.

Lemma list_insert_keyed {B} (g g' : string -> B) (ks : list string) (i : nat)
    (k : string) (v : B) :
  NoDup ks -> ks !! i = Some k ->
  g' k = v ->
  (forall k', k' <> k -> g' k' = g k') ->
  <[i := v]> (g <$> ks) = g' <$> ks.
Proof.
  intros Hnd Hi <- Hext. apply list_eq. intros j.
  destruct (decide (j = i)) as [->|Hne].
  - rewrite list_lookup_insert_eq by (rewrite length_fmap; by eapply lookup_lt_Some).
    by rewrite list_lookup_fmap, Hi.
  - rewrite list_lookup_insert_ne by done. rewrite !list_lookup_fmap.
    destruct (ks !! j) as [k'|] eqn:Hj; [|done]. simpl. f_equal. symmetry.
    apply Hext. intros ->. apply Hne. by eapply NoDup_lookup.
Qed.

(** The third level on the array of the rows before, once the topic of
    the row is known. *)
Lemma yl_third_level_topic (all_fields : list string) (row : record)
    (entry field topic : string) (es : list path_entry) :
  py_index all_fields (DEPTH - 1) = Ok field ->
  row !! field = Some topic ->
  forall cur_idx,
    exists idxs,
      yl_third_level all_fields row entry cur_idx (yl_array es)
      = let* field := py_index all_fields DEPTH in
        let* tag_node := row_get row field in
        Ok (yl_array (es ++ [([topic; tag_node], entry)]), idxs).
Proof.
  intros Hfield Htopic cur_idx. unfold yl_third_level.
  rewrite Hfield. cbn [bind]. rewrite (proj2 (row_get_Ok _ _ _) Htopic). cbn [bind].
  set (ks := first_occ (heads es)).
  set (g := fun topic => yl_topic topic (below topic es)).
  change (yl_array es) with (VList (g <$> ks)).
  assert (Hnd : NoDup ks) by apply NoDup_first_occ.
  assert (Hstep : forall tag_node k,
            yl_topic k (below k (es ++ [([topic; tag_node], entry)]))
            = if decide (k = topic)
              then yl_topic topic (below topic es ++ [([tag_node], entry)])
              else g k).
  { intros tag_node k. rewrite below_snoc. case_decide as Hk.
    - subst k. by rewrite decide_True.
    - rewrite decide_False by done. by rewrite app_nil_r. }
  destruct (decide (topic ∈ ks)) as [Hin|Hnin].
  - apply list_elem_of_lookup in Hin as [i Hi].
    rewrite (find_node_present topic (g <$> ks) i (g topic)).
    + cbn [bind].
      eexists. rewrite (yl_tag_entry_topic _ _ _ _ i _ (below topic es))
        by (by rewrite list_lookup_fmap, Hi).
      destruct (py_index all_fields DEPTH) as [f4|]; [|done]. cbn [bind].
      destruct (row_get row f4) as [tag_node|]; [|done]. cbn [bind].
      do 2 f_equal. unfold yl_array. rewrite heads_snoc, first_occ_snoc.
      unfold add_new. rewrite bool_decide_eq_true_2 by by eapply list_elem_of_lookup_2.
      f_equal. fold ks.
      apply (list_insert_keyed g
               (fun k => yl_topic k (below k (es ++ [([topic; tag_node], entry)])))
               ks i topic _ Hnd Hi).
      * by rewrite Hstep, decide_True.
      * intros k Hk. by rewrite Hstep, decide_False.
    + by rewrite list_lookup_fmap, Hi.
    + subst g. cbv beta. rewrite py_contains_yl_topic. by apply bool_decide_eq_true.
    + intros j y Hj. rewrite list_lookup_fmap.
      destruct (ks !! j) as [k|] eqn:Hk; [|done]. intros [= <-].
      subst g. cbv beta. rewrite py_contains_yl_topic. apply bool_decide_eq_false.
      intros ->. apply Hj. by eapply NoDup_lookup.
  - rewrite find_node_absent.
    2: { intros j Hj%elem_of_seqZ. cbn [py_len] in Hj. rewrite length_fmap in Hj.
         split; [lia|]. destruct (lookup_lt_is_Some_2 ks (Z.to_nat j)) as [k Hk]; [lia|].
         exists (g k). rewrite list_lookup_fmap, Hk. split; [done|].
         subst g. cbv beta. rewrite py_contains_yl_topic. apply bool_decide_eq_false.
         intros ->. apply Hnin. by eapply list_elem_of_lookup_2. }
    cbn [bind py_append py_len]. rewrite length_app, length_fmap. cbn [length].
    replace (Z.of_nat (length ks + 1) - 1)%Z with (Z.of_nat (length ks)) by lia.
    rewrite <-yl_topic_nil.
    eexists. rewrite (yl_tag_entry_topic _ _ _ _ (length ks) _ []).
    2: { rewrite lookup_app_r by (rewrite length_fmap; lia).
         by rewrite length_fmap, Nat.sub_diag. }
    destruct (py_index all_fields DEPTH) as [f4|]; [|done]. cbn [bind].
    destruct (row_get row f4) as [tag_node|]; [|done]. cbn [bind].
    do 2 f_equal. unfold yl_array. rewrite heads_snoc, first_occ_snoc.
    unfold add_new. rewrite bool_decide_eq_false_2 by done. fold ks.
    f_equal. rewrite fmap_app. cbn [fmap list_fmap].
    assert (Hlen : length ks = length (g <$> ks) + 0) by (rewrite length_fmap; lia).
    rewrite Hlen at 1. rewrite insert_app_r. cbn [list_insert].
    f_equal.
    + apply list_fmap_ext. intros j k Hk. rewrite Hstep, decide_False; [done|].
      intros ->. apply Hnin. by eapply list_elem_of_lookup_2.
    + rewrite Hstep, decide_True by done. f_equal.
      rewrite below_not_head; [done|]. intros Hh. apply Hnin. by apply elem_of_first_occ.
Qed.

(** ** One more entry for the first two levels *)

(** One step down a dictionary that holds, under every first key of the
    entries, the value [g] of the entries below this key. *)
Lemma kstr_step (g : list path_entry -> value) (es : list path_entry)
    (k : string) (track : value) :
  track = VDict ((fun k => (KStr k, g (below k es))) <$> first_occ (heads es)) ->
  py_contains k track = bool_decide (k ∈ heads es) /\
  exists track1,
    py_setitem track (KStr k) (g []) = Ok track1 /\
    (k ∉ heads es -> py_getitem track1 (KStr k) = Ok (g (below k es))) /\
    (k ∈ heads es -> py_getitem track (KStr k) = Ok (g (below k es))) /\
    forall (ks : list string) (s : string) (t : value),
      t = (if bool_decide (k ∈ heads es) then track else track1) ->
      py_setitem t (KStr k) (g (below k es ++ [(ks, s)]))
      = Ok (VDict ((fun k' => (KStr k', g (below k' (es ++ [(k :: ks, s)]))))
                   <$> first_occ (heads (es ++ [(k :: ks, s)])))).
Proof.
  intros ->. split.
  { cbn [py_contains]. rewrite dict_mem_kstr. apply bool_decide_ext, elem_of_first_occ. }
  rewrite py_setitem_dict. eexists. split; [done|].
  pose proof (NoDup_first_occ (heads es)) as Hnd.
  split_and!.
  - intros Hk. cbn [py_getitem]. rewrite dict_set_kstr by done.
    rewrite dict_get_kstr. rewrite decide_True by (apply add_new_elem_of; by right).
    rewrite decide_True by done. by rewrite below_not_head.
  - intros Hk. cbn [py_getitem]. rewrite dict_get_kstr.
    by rewrite decide_True by by apply elem_of_first_occ.
  - intros ks s t ->. rewrite heads_snoc, first_occ_snoc.
    assert (Hval : forall k',
              g (below k' (es ++ [(k :: ks, s)]))
              = if decide (k' = k) then g (below k es ++ [(ks, s)]) else g (below k' es)).
    { intros k'. rewrite below_snoc. case_decide as Hk'.
      - subst k'. by rewrite decide_True.
      - rewrite decide_False by done. by rewrite app_nil_r. }
    case_bool_decide as Hk.
    + rewrite py_setitem_dict, dict_set_kstr by done. do 2 f_equal.
      apply list_fmap_ext. intros i k' _. by rewrite Hval.
    + rewrite py_setitem_dict. rewrite (dict_set_kstr _ _ _ _ Hnd).
      rewrite dict_set_kstr by (rewrite <-first_occ_snoc; apply NoDup_first_occ).
      assert (Hagain : add_new (add_new (first_occ (heads es)) k) k
                       = add_new (first_occ (heads es)) k).
      { unfold add_new at 1. rewrite bool_decide_eq_true_2; [done|].
        apply add_new_elem_of. by right. }
      rewrite Hagain. do 2 f_equal. apply list_fmap_ext. intros i k' _.
      rewrite Hval. by case_decide.
Qed.

Lemma yl_subtopics_nil : yl_subtopics [] = VDict [].
Proof. done. Qed.

Lemma yl_array_nil : yl_array [] = VList [].
Proof. done. Qed.

(** The loop over the first two levels on the tree of the rows before,
    once the first key of the row is known: what [rest] adds to the
    array is added to the tree. *)
Lemma yl_first_levels_tree_eq {A} (all_fields : list string) (row : record)
    (rest : Z -> value -> result (value * (Z * Z)))
    (field0 node0 : string)
    (m : result A) (ks : A -> list string) (s : A -> string) (es : list path_entry) :
  py_index all_fields 0 = Ok field0 -> row !! field0 = Some node0 ->
  (forall cur_idx es2,
     exists idxs,
       rest cur_idx (yl_array es2)
       = let* a := m in Ok (yl_array (es2 ++ [(ks a, s a)]), idxs)) ->
  forall cur_idx,
    exists idxs,
      yl_first_levels (seqZ 0 (DEPTH - 2)) all_fields row rest cur_idx (yl_tree es)
      = let* field := py_index all_fields 1 in
        let* node1 := row_get row field in
        let* a := m in
        Ok (yl_tree (es ++ [(node0 :: node1 :: ks a, s a)]), idxs).
Proof.
  intros Hf0 Hn0 Hrest cur_idx.
  change (seqZ 0 (DEPTH - 2)) with [0%Z; 1%Z]. cbn [yl_first_levels].
  change (0 =? 0)%Z with true. change (1 =? 0)%Z with false.
  change (1 =? 1)%Z with true. cbv iota.
  rewrite Hf0. cbn [bind]. rewrite (proj2 (row_get_Ok _ _ _) Hn0). cbn [bind].
  destruct (kstr_step yl_subtopics es node0 (yl_tree es) eq_refl)
    as (Hmem0 & track0 & Hset0 & Hget0new & Hget0 & Hput0).
  rewrite Hmem0. rewrite yl_subtopics_nil in Hset0.
  set (level1 := below node0 es) in *.
  assert (Hinner : forall cur1,
    exists idxs,
      (let* field := py_index all_fields 1 in
       let* next_node := row_get row field in
       let* (track, cur_idx) :=
         (if py_contains next_node (yl_subtopics level1)
          then Ok (yl_subtopics level1, cur1)
          else let* track := py_setitem (yl_subtopics level1) (KStr next_node) (VList []) in
               Ok (track, (-1)%Z)) in
       let* child := py_getitem track (KStr next_node) in
       let* (child, idxs) := rest cur_idx child in
       let* track := py_setitem track (KStr next_node) child in
       Ok (track, idxs))
      = let* field := py_index all_fields 1 in
        let* node1 := row_get row field in
        let* a := m in
        Ok (yl_subtopics (level1 ++ [(node1 :: ks a, s a)]), idxs)).
  { intros cur1.
    destruct (py_index all_fields 1) as [field1|e]; [|by exists (0%Z, 0%Z)]. cbn [bind].
    destruct (row_get row field1) as [node1|e]; [|by exists (0%Z, 0%Z)]. cbn [bind].
    destruct (kstr_step yl_array level1 node1 (yl_subtopics level1) eq_refl)
      as (Hmem1 & track1 & Hset1 & Hget1new & Hget1 & Hput1).
    rewrite yl_array_nil in Hset1. rewrite Hmem1.
    set (level2 := below node1 level1) in *.
    destruct (decide (node1 ∈ heads level1)) as [Hk1|Hk1].
    - rewrite bool_decide_eq_true_2 by done.
      cbn [bind]. rewrite (Hget1 Hk1). cbn [bind].
      destruct (Hrest cur1 level2) as [idxs ->]. exists idxs.
      destruct m as [a|e]; [|done]. cbn [bind].
      rewrite (Hput1 (ks a) (s a) (yl_subtopics level1)); [done|].
      by rewrite bool_decide_eq_true_2.
    - rewrite bool_decide_eq_false_2 by done. rewrite Hset1. cbn [bind].
      rewrite (Hget1new Hk1). cbn [bind].
      destruct (Hrest (-1)%Z level2) as [idxs ->]. exists idxs.
      destruct m as [a|e]; [|done]. cbn [bind].
      rewrite (Hput1 (ks a) (s a) track1); [done|].
      by rewrite bool_decide_eq_false_2. }
  destruct (decide (node0 ∈ heads es)) as [Hk0|Hk0].
  - rewrite bool_decide_eq_true_2 by done.
    cbn [bind]. rewrite (Hget0 Hk0). cbn [bind].
    destruct (Hinner cur_idx) as [idxs Hrun]. exists idxs.
    etrans; [|etrans; [exact (f_equal (fun r => let* (child, idxs) := r in
                        let* track := py_setitem (yl_tree es) (KStr node0) child in
                        Ok (track, idxs)) Hrun)|]].
    + done.
    + destruct (py_index all_fields 1) as [field1|e]; [|done]. cbn [bind].
      destruct (row_get row field1) as [node1|e]; [|done]. cbn [bind].
      destruct m as [a|e]; [|done]. cbn [bind].
      rewrite (Hput0 (node1 :: ks a) (s a) (yl_tree es)); [done|].
      by rewrite bool_decide_eq_true_2.
  - rewrite bool_decide_eq_false_2 by done. rewrite Hset0. cbn [bind].
    rewrite (Hget0new Hk0). cbn [bind].
    destruct (Hinner cur_idx) as [idxs Hrun]. exists idxs.
    etrans; [|etrans; [exact (f_equal (fun r => let* (child, idxs) := r in
                        let* track := py_setitem track0 (KStr node0) child in
                        Ok (track, idxs)) Hrun)|]].
    + done.
    + destruct (py_index all_fields 1) as [field1|e]; [|done]. cbn [bind].
      destruct (row_get row field1) as [node1|e]; [|done]. cbn [bind].
      destruct m as [a|e]; [|done]. cbn [bind].
      rewrite (Hput0 (node1 :: ks a) (s a) track0); [done|].
      by rewrite bool_decide_eq_false_2.
Qed.

(** ** The record of the year levels *)

Lemma yl_levels_snoc (ts : list (string * string)) (sub tok k : string) :
  yl_levels (ts ++ [(sub, tok)]) k
  = yl_levels ts k ∪ (if decide (k = "All levels" \/ sub = k) then {[tok]} else ∅).
Proof.
  unfold yl_levels. rewrite filter_app, fmap_app, list_to_set_app_L. f_equal.
  case_decide as Hk.
  - rewrite filter_cons_True by done. simpl. set_solver.
  - rewrite filter_cons_False by done. done.
Qed.

Lemma yl_levels_fresh (ts : list (string * string)) (k : string) :
  k ∉ "All levels" :: ts.*1 -> yl_levels ts k = ∅.
Proof.
  intros Hk. unfold yl_levels.
  assert (Hnil : filter (fun t : string * string => k = "All levels" \/ t.1 = k) ts = []).
  { induction ts as [|[s t] ts IH]; [done|].
    rewrite filter_cons_False.
    - apply IH. intros Hin. apply Hk. simpl.
      apply elem_of_cons in Hin as [->|Hin]; [left|right; by right].
    - intros [->|Heq]; apply Hk; [left|]. simpl in *. subst. right. left. }
  by rewrite Hnil.
Qed.

Lemma yl_record_summary (subtopic year_level : string) (ts : list (string * string)) :
  yl_record subtopic year_level (yl_summary ts)
  = Ok (yl_summary (ts ++ [(subtopic, "Y" +:+ year_level)])).
Proof.
  unfold yl_record, yl_summary. cbv zeta.
  set (tok := "Y" +:+ year_level).
  set (ks := first_occ ("All levels" :: ts.*1)).
  assert (Hnd : NoDup ks) by apply NoDup_first_occ.
  assert (Hall : "All levels" ∈ ks) by (apply elem_of_first_occ; left).
  assert (Hnd' : NoDup (add_new ks subtopic)).
  { unfold add_new. case_bool_decide; [done|]. apply NoDup_app. split_and!; [done| |].
    - intros k Hk ->%list_elem_of_singleton. done.
    - apply NoDup_singleton. }
  assert (Hd0 : (if dict_mem subtopic ((fun k => (k, yl_levels ts k)) <$> ks)
                 then (fun k => (k, yl_levels ts k)) <$> ks
                 else dict_set subtopic ∅ ((fun k => (k, yl_levels ts k)) <$> ks))
                = (fun k => (k, yl_levels ts k)) <$> add_new ks subtopic).
  { unfold dict_mem, add_new. rewrite dict_get_keyed.
    destruct (decide (subtopic ∈ ks)) as [Hin|Hnin].
    - rewrite bool_decide_eq_true_2 by eauto. by rewrite bool_decide_eq_true_2.
    - rewrite bool_decide_eq_false_2 by (by intros [? ?]).
      rewrite bool_decide_eq_false_2 by done.
      rewrite dict_set_fresh by (by rewrite keyed_keys).
      rewrite fmap_app. cbn [fmap list_fmap]. rewrite (yl_levels_fresh ts subtopic); [done|].
      intros Hin. apply Hnin. by apply elem_of_first_occ. }
  rewrite Hd0. unfold yl_add at 1. rewrite dict_get_keyed.
  rewrite decide_True by (apply add_new_elem_of; by right). cbn [bind].
  rewrite dict_set_keyed by done.
  assert (Hagain : add_new (add_new ks subtopic) subtopic = add_new ks subtopic).
  { unfold add_new at 1. rewrite bool_decide_eq_true_2; [done|].
    apply add_new_elem_of. by right. }
  rewrite Hagain. unfold yl_add. rewrite dict_get_keyed.
  rewrite decide_True by (apply add_new_elem_of; by left).
  rewrite dict_set_keyed by done.
  assert (Hall' : add_new (add_new ks subtopic) "All levels" = add_new ks subtopic).
  { unfold add_new at 1. rewrite bool_decide_eq_true_2; [done|].
    apply add_new_elem_of. by left. }
  rewrite Hall'. f_equal.
  rewrite fmap_app. cbn [fmap list_fmap fst].
  change ("All levels" :: ts.*1 ++ [subtopic]) with (("All levels" :: ts.*1) ++ [subtopic]).
  rewrite first_occ_snoc. fold ks.
  apply list_fmap_ext. intros i k _. f_equal.
  rewrite yl_levels_snoc. fold tok.
  destruct (decide (k = "All levels")) as [->|Hk].
  - rewrite (decide_True (P := "All levels" = "All levels" \/ _)) by by left.
    case_decide as Hsub; [|done]. rewrite <-Hsub. set_solver.
  - destruct (decide (k = subtopic)) as [->|Hk'].
    + rewrite decide_True by by right. done.
    + rewrite decide_False by naive_solver. set_solver.
Qed.

(** ** One row, and all rows *)

Lemma yl_third_level_cells (all_fields : list string) (row : record) (entry : string)
    (cur_idx : Z) (es : list path_entry) :
  exists idxs,
    yl_third_level all_fields row entry cur_idx (yl_array es)
    = let* a := (let* field := py_index all_fields (DEPTH - 1) in
                 let* topic := row_get row field in
                 let* field := py_index all_fields DEPTH in
                 let* tag_node := row_get row field in
                 Ok (topic, tag_node)) in
      Ok (yl_array (es ++ [([a.1; a.2], entry)]), idxs).
Proof.
  destruct (py_index all_fields (DEPTH - 1)) as [field|e] eqn:Hfield.
  2: { exists (0%Z, 0%Z). unfold yl_third_level. by rewrite Hfield. }
  destruct (row !! field) as [topic|] eqn:Htopic.
  2: { exists (0%Z, 0%Z). unfold yl_third_level. rewrite Hfield. cbn [bind].
       unfold row_get. by rewrite Htopic. }
  destruct (yl_third_level_topic all_fields row entry field topic es Hfield Htopic cur_idx)
    as [idxs ->].
  exists idxs. cbn [bind]. rewrite (proj2 (row_get_Ok _ _ _) Htopic). cbn [bind].
  destruct (py_index all_fields DEPTH) as [f4|]; [|done]. cbn [bind].
  by destruct (row_get row f4).
Qed.

(** A row on the state that the rows before have left: the cells of the
    row decide what happens, and the indices left behind play no part. *)
Lemma yl_row_cells (all_fields : list string) (row : record)
    (es : list path_entry) (ts : list (string * string)) (cur_idx dis_idx : Z) :
  exists cur_idx' dis_idx',
    yl_row all_fields (YlState (yl_tree es) (yl_summary ts) cur_idx dis_idx) row
    = let* c := yl_cells all_fields row in
      Ok (YlState (yl_tree (es ++ [c.1])) (yl_summary (ts ++ [c.2])) cur_idx' dis_idx').
Proof.
  unfold yl_row, yl_cells. cbn [yl_output year_level_dict yl_cur_idx].
  destruct (py_index all_fields IDX_CONTENT_TAG) as [ft|]; [|by exists 0%Z, 0%Z].
  cbn [bind]. destruct (row_get row ft) as [next_tag|]; [|by exists 0%Z, 0%Z].
  cbn [bind]. destruct (py_index all_fields IDX_YEAR_LEVEL) as [fy|]; [|by exists 0%Z, 0%Z].
  cbn [bind]. destruct (row_get row fy) as [year_level|]; [|by exists 0%Z, 0%Z].
  cbn [bind]. destruct (py_index all_fields IDX_SUBTOPIC) as [fs|]; [|by exists 0%Z, 0%Z].
  cbn [bind]. destruct (row_get row fs) as [subtopic|]; [|by exists 0%Z, 0%Z].
  cbn [bind]. rewrite yl_record_summary. cbn [bind].
  set (entry := "Y" +:+ year_level +:+ " " +:+ next_tag).
  destruct (py_index all_fields 0) as [f0|e] eqn:Hf0.
  2: { exists 0%Z, 0%Z. change (seqZ 0 (DEPTH - 2)) with [0%Z; 1%Z].
       cbn [yl_first_levels]. by rewrite Hf0. }
  destruct (row !! f0) as [node0|] eqn:Hn0.
  2: { exists 0%Z, 0%Z. change (seqZ 0 (DEPTH - 2)) with [0%Z; 1%Z].
       cbn [yl_first_levels]. rewrite Hf0. cbn [bind]. unfold row_get. by rewrite Hn0. }
  destruct (yl_first_levels_tree_eq all_fields row
              (yl_third_level all_fields row entry) f0 node0 _
              (fun a : string * string => [a.1; a.2]) (fun _ => entry) es Hf0 Hn0
              (yl_third_level_cells all_fields row entry) cur_idx) as [idxs ->].
  exists idxs.1, idxs.2. cbn [bind].
  rewrite (proj2 (row_get_Ok _ _ _) Hn0). cbn [bind].
  destruct (py_index all_fields 1) as [f1|]; [|done]. cbn [bind].
  destruct (row_get row f1) as [node1|]; [|done]. cbn [bind].
  destruct (py_index all_fields (DEPTH - 1)) as [f3|]; [|done]. cbn [bind].
  destruct (row_get row f3) as [topic|]; [|done]. cbn [bind].
  destruct (py_index all_fields DEPTH) as [f4|]; [|done]. cbn [bind].
  destruct (row_get row f4) as [tag_node|]; [|done]. done.
Qed.

Lemma yl_rows_cells (all_fields : list string) (rs : list record) :
  forall (cs : list (path_entry * (string * string))) (cur_idx dis_idx : Z),
    exists cur_idx' dis_idx',
      foldM (yl_row all_fields) (YlState (yl_tree cs.*1) (yl_summary cs.*2) cur_idx dis_idx) rs
      = let* cs' := foldM (fun cells row =>
                             let* c := yl_cells all_fields row in Ok (cells ++ [c])) cs rs in
        Ok (YlState (yl_tree cs'.*1) (yl_summary cs'.*2) cur_idx' dis_idx').
Proof.
  induction rs as [|row rs IH]; intros cs cur_idx dis_idx.
  - by exists cur_idx, dis_idx.
  - cbn [foldM].
    destruct (yl_row_cells all_fields row cs.*1 cs.*2 cur_idx dis_idx)
      as (cur1 & dis1 & ->).
    destruct (yl_cells all_fields row) as [c|e]; [|by exists 0%Z, 0%Z]. cbn [bind].
    destruct (IH (cs ++ [c]) cur1 dis1) as (cur2 & dis2 & Hrun).
    exists cur2, dis2. rewrite !fmap_app in Hrun. exact Hrun.
Qed.

(** ** The report of the year levels *)

Lemma foldl_add_new_app (l1 l2 : list string) :
  foldl add_new (first_occ l1) l2 = first_occ (l1 ++ l2).
Proof.
  revert l1. induction l2 as [|x l2 IH]; intros l1; simpl.
  - by rewrite app_nil_r.
  - rewrite <-first_occ_snoc, IH, <-app_assoc. done.
Qed.

Lemma add_new_present (xs : list string) (x : string) : x ∈ xs -> add_new xs x = xs.
Proof. intros Hx. unfold add_new. by rewrite bool_decide_eq_true_2. Qed.

Lemma foldl_add_new_filter (b : string) (l : list string) :
  forall xs, b ∈ xs ->
    foldl add_new xs (filter (fun y => y <> b) l) = foldl add_new xs l.
Proof.
  induction l as [|x l IH]; intros xs Hb; [done|].
  destruct (decide (x = b)) as [->|Hne].
  - rewrite filter_cons_False by naive_solver. simpl.
    rewrite add_new_present by done. by apply IH.
  - rewrite filter_cons_True by done. simpl. apply IH.
    apply add_new_elem_of. by left.
Qed.

Lemma foldl_add_new_first_occ (l : list string) :
  forall xs, foldl add_new xs (first_occ l) = foldl add_new xs l.
Proof.
  induction l as [|x l IH]; intros xs; [done|]. simpl.
  rewrite foldl_add_new_filter by (apply add_new_elem_of; by right). apply IH.
Qed.

Lemma NoDup_add_new (xs : list string) (x : string) : NoDup xs -> NoDup (add_new xs x).
Proof.
  intros Hnd. unfold add_new. case_bool_decide; [done|].
  apply NoDup_app. split_and!; [done| |apply NoDup_singleton].
  by intros k Hk ->%list_elem_of_singleton.
Qed.

(** The report sets one key after the other: a key of the tree keeps its
    place and loses its subtree, a new key goes last. *)
Lemma yl_report_keyed (summary : string -> gset string) (sks : list string) :
  forall (g : string -> value) (ks : list string),
    NoDup ks -> NoDup sks ->
    foldM yl_report (VDict ((fun k => (KStr k, g k)) <$> ks))
      ((fun k => (k, summary k)) <$> sks)
    = Ok (VDict ((fun k => (KStr k,
                            if decide (k ∈ sks)
                            then VStr (py_join " " (py_sorted (elements (summary k))))
                            else g k))
                 <$> foldl add_new ks sks)).
Proof.
  induction sks as [|k sks IH]; intros g ks Hks Hsks.
  - cbn [fmap list_fmap foldM foldl]. do 2 f_equal.
    all: apply list_fmap_ext; intros i k' _; rewrite decide_False; [done|];
         apply not_elem_of_nil.
  - apply NoDup_cons in Hsks as [Hk Hsks].
    rewrite fmap_cons. cbn [foldM foldl]. unfold yl_report at 1. cbn [fst snd].
    rewrite py_setitem_dict, dict_set_kstr by done. cbn [bind].
    rewrite IH by (done || by apply NoDup_add_new). do 2 f_equal.
    apply list_fmap_ext. intros i k' _. f_equal.
    destruct (decide (k' = k)) as [->|Hne].
    + rewrite decide_False by done. rewrite decide_True by left. done.
    + destruct (decide (k' ∈ sks)) as [Hin|Hnin].
      * rewrite decide_True by by right. done.
      * rewrite decide_False; [done|]. by intros [?|?]%elem_of_cons.
Qed.

Lemma yl_report_summary (es : list path_entry) (ts : list (string * string)) :
  foldM yl_report (yl_tree es) (yl_summary ts) = Ok (yl_result es ts).
Proof.
  unfold yl_tree, yl_summary, yl_result.
  rewrite yl_report_keyed by apply NoDup_first_occ.
  rewrite foldl_add_new_first_occ, foldl_add_new_app. do 2 f_equal.
  apply list_fmap_ext. intros i k _. f_equal.
  apply decide_ext, elem_of_first_occ.
Qed.

(** ** The builder as a function of the cells *)

Lemma construct_with_yl_cells (data : reader) :
  construct_with_yl data
  = let* cs := yl_all_cells (fieldnames data) (rows data) in
    Ok (yl_result cs.*1 cs.*2).
Proof.
  unfold construct_with_yl, yl_all_cells.
  destruct (yl_rows_cells (fieldnames data) (rows data) [] (-1) 0) as (cur & dis & Hrun).
  change (YlState (yl_tree [].*1) (yl_summary [].*2) (-1) 0) with yl_init in Hrun.
  rewrite Hrun.
  destruct (foldM _ [] (rows data)) as [cs|e]; [|done]. cbn [bind yl_output year_level_dict].
  apply yl_report_summary.
Qed.

(** * The year-level builder: outcome and contents *)

(** ** What a run of the year-level builder ends in *)

Lemma py_index_field_at (all_fields : list string) (i : Z) (f : string) :
  py_index all_fields i = Ok f -> field_at all_fields i = f.
Proof. unfold field_at. by intros ->. Qed.

Lemma py_index_valid {A} (l : list A) (i : Z) :
  (- Z.of_nat (length l) <= i < Z.of_nat (length l))%Z ->
  exists x, py_index l i = Ok x.
Proof.
  intros Hi. unfold py_index.
  set (j := if (i <? 0)%Z then (Z.of_nat (length l) + i)%Z else i).
  assert (0 <= j < Z.of_nat (length l))%Z as Hj.
  { subst j. destruct (Z.ltb_spec i 0); lia. }
  destruct (Z.ltb_spec j 0); [lia|].
  destruct (lookup_lt_is_Some_2 l (Z.to_nat j)) as [x Hx]; [lia|].
  rewrite Hx. eauto.
Qed.

Lemma yl_cells_Ok (all_fields : list string) (row : record)
    (c : path_entry * (string * string)) :
  yl_cells all_fields row = Ok c ->
  c = (yl_entry all_fields row, yl_token all_fields row) /\
  complete (yl_columns all_fields) row /\
  5 <= length all_fields.
Proof.
  unfold yl_cells. intros Hrun.
  apply bind_Ok in Hrun as (ft & Hft & Hrun). apply bind_Ok in Hrun as (tag & Htag & Hrun).
  apply bind_Ok in Hrun as (fy & Hfy & Hrun). apply bind_Ok in Hrun as (yl & Hyl & Hrun).
  apply bind_Ok in Hrun as (fs & Hfs & Hrun). apply bind_Ok in Hrun as (sub & Hsub & Hrun).
  apply bind_Ok in Hrun as (f0 & Hf0 & Hrun). apply bind_Ok in Hrun as (k0 & Hk0 & Hrun).
  apply bind_Ok in Hrun as (f1 & Hf1 & Hrun). apply bind_Ok in Hrun as (k1 & Hk1 & Hrun).
  apply bind_Ok in Hrun as (f3 & Hf3 & Hrun). apply bind_Ok in Hrun as (k3 & Hk3 & Hrun).
  apply bind_Ok in Hrun as (f4 & Hf4 & Hrun). apply bind_Ok in Hrun as (k4 & Hk4 & Hrun).
  injection Hrun as <-.
  apply row_get_Ok in Htag, Hyl, Hsub, Hk0, Hk1, Hk3, Hk4.
  split_and!.
  - unfold yl_entry, yl_token.
    rewrite (py_index_field_at _ _ _ Hft), (py_index_field_at _ _ _ Hfy),
      (py_index_field_at _ _ _ Hfs), (py_index_field_at _ _ _ Hf0),
      (py_index_field_at _ _ _ Hf1), (py_index_field_at _ _ _ Hf3),
      (py_index_field_at _ _ _ Hf4).
    by rewrite (lookup_total_correct _ _ _ Htag), (lookup_total_correct _ _ _ Hyl),
      (lookup_total_correct _ _ _ Hsub), (lookup_total_correct _ _ _ Hk0),
      (lookup_total_correct _ _ _ Hk1), (lookup_total_correct _ _ _ Hk3),
      (lookup_total_correct _ _ _ Hk4).
  - unfold yl_columns, complete. cbn [fmap list_fmap].
    rewrite (py_index_field_at _ _ _ Hft), (py_index_field_at _ _ _ Hfy),
      (py_index_field_at _ _ _ Hfs), (py_index_field_at _ _ _ Hf0),
      (py_index_field_at _ _ _ Hf3), (py_index_field_at _ _ _ Hf4).
    repeat constructor; eauto.
  - rewrite py_index_nonneg in Hf4 by done.
    destruct (all_fields !! Z.to_nat DEPTH) eqn:Hl; [|done].
    apply lookup_lt_Some in Hl. unfold DEPTH in Hl. lia.
Qed.

Lemma yl_cells_complete (all_fields : list string) (row : record) :
  5 <= length all_fields ->
  complete (yl_columns all_fields) row ->
  yl_cells all_fields row = Ok (yl_entry all_fields row, yl_token all_fields row).
Proof.
  intros Hlen Hrow.
  assert (Hcell : forall i, i ∈ [IDX_CONTENT_TAG; IDX_YEAR_LEVEL; IDX_SUBTOPIC;
                                 0%Z; 1%Z; (DEPTH - 1)%Z; DEPTH] ->
            exists f c, py_index all_fields i = Ok f /\ row_get row f = Ok c).
  { intros i Hi. destruct (py_index_valid all_fields i) as [f Hf].
    { unfold IDX_CONTENT_TAG, IDX_YEAR_LEVEL, IDX_SUBTOPIC, DEPTH in Hi.
      repeat (apply elem_of_cons in Hi as [->|Hi]); try lia. by apply elem_of_nil in Hi. }
    exists f. destruct (proj1 (Forall_forall _ _) Hrow f) as [c Hc].
    { unfold yl_columns. apply list_elem_of_fmap. exists i.
      split; [by rewrite (py_index_field_at _ _ _ Hf)|].
      unfold IDX_SUBTOPIC in *. set_solver. }
    exists c. split; [done|]. by apply row_get_Ok. }
  destruct (yl_cells all_fields row) as [c|e] eqn:Hrun.
  { by apply yl_cells_Ok in Hrun as (-> & _). }
  exfalso. unfold yl_cells in Hrun.
  destruct (Hcell IDX_CONTENT_TAG) as (? & ? & Hf & Hc); [set_solver|].
  rewrite Hf in Hrun. cbn [bind] in Hrun. rewrite Hc in Hrun. cbn [bind] in Hrun.
  clear Hf Hc.
  destruct (Hcell IDX_YEAR_LEVEL) as (? & ? & Hf & Hc); [set_solver|].
  rewrite Hf in Hrun. cbn [bind] in Hrun. rewrite Hc in Hrun. cbn [bind] in Hrun.
  clear Hf Hc.
  destruct (Hcell IDX_SUBTOPIC) as (? & ? & Hf & Hc); [set_solver|].
  rewrite Hf in Hrun. cbn [bind] in Hrun. rewrite Hc in Hrun. cbn [bind] in Hrun.
  clear Hf Hc.
  destruct (Hcell 0%Z) as (? & ? & Hf & Hc); [set_solver|].
  rewrite Hf in Hrun. cbn [bind] in Hrun. rewrite Hc in Hrun. cbn [bind] in Hrun.
  clear Hf Hc.
  destruct (Hcell 1%Z) as (? & ? & Hf & Hc); [set_solver|].
  rewrite Hf in Hrun. cbn [bind] in Hrun. rewrite Hc in Hrun. cbn [bind] in Hrun.
  clear Hf Hc.
  destruct (Hcell (DEPTH - 1)%Z) as (? & ? & Hf & Hc); [set_solver|].
  rewrite Hf in Hrun. cbn [bind] in Hrun. rewrite Hc in Hrun. cbn [bind] in Hrun.
  clear Hf Hc.
  destruct (Hcell DEPTH) as (? & ? & Hf & Hc); [set_solver|].
  rewrite Hf in Hrun. cbn [bind] in Hrun. rewrite Hc in Hrun. cbn [bind] in Hrun.
  done.
Qed.

Lemma yl_cells_Raise (all_fields : list string) (row : record) (e : pyerr) :
  yl_cells all_fields row = Raise e -> e = IndexError \/ e = KeyError.
Proof.
  assert (Hidx : forall i (f : string) e', py_index all_fields i = Raise e' -> e' = IndexError).
  { intros i _ e'. unfold py_index. repeat case_match; congruence. }
  assert (Hget : forall f e', row_get row f = Raise e' -> e' = KeyError).
  { intros f e'. unfold row_get. case_match; congruence. }
  unfold yl_cells.
  repeat (match goal with
          | |- bind ?m _ = Raise e -> _ =>
              let H := fresh in
              destruct m eqn:H; cbn [bind];
              [|intros [= <-];
                first [left; eapply (Hidx _ EmptyString), H | right; eapply Hget, H]]
          end).
  done.
Qed.
Lemma yl_cells_few_columns (all_fields : list string) (row : record) :
  length all_fields < 5 ->
  yl_cells all_fields row
  = if decide (length all_fields < 2 \/ complete all_fields row)
    then Raise IndexError else Raise KeyError.
Proof.
  intros Hlen.
  destruct all_fields as [|a [|b [|c [|d [|x l]]]]]; [| | | | |simpl in Hlen; lia].
  - rewrite decide_True by (left; simpl; lia). done.
  - rewrite decide_True by (left; simpl; lia). done.
  - unfold yl_cells.
    change (py_index [a; b] IDX_CONTENT_TAG) with (Ok (A:=string) a).
    change (py_index [a; b] IDX_YEAR_LEVEL) with (Ok (A:=string) b).
    change (py_index [a; b] IDX_SUBTOPIC) with (Ok (A:=string) b).
    change (py_index [a; b] 0) with (Ok (A:=string) a).
    change (py_index [a; b] 1) with (Ok (A:=string) b).
    change (py_index [a; b] (DEPTH - 1)) with (Raise (A:=string) IndexError).
    cbn [bind]. unfold row_get.
    destruct (row !! a) as [va|] eqn:Ha; cbn [bind].
    + destruct (row !! b) as [vb|] eqn:Hb; cbn [bind].
      * repeat (progress (rewrite ?Ha, ?Hb; cbn [bind])).
        rewrite decide_True; [done|]. right. repeat constructor; eauto.
      * rewrite decide_False; [done|]. intros [?|Hrow]; [simpl in *; lia|].
        apply Forall_cons in Hrow as [_ Hrow]. apply Forall_cons in Hrow as [[? ?] _].
        congruence.
    + rewrite decide_False; [done|]. intros [?|Hrow]; [simpl in *; lia|].
      apply Forall_cons in Hrow as [[? ?] _]. congruence.
  - unfold yl_cells.
    change (py_index [a; b; c] IDX_CONTENT_TAG) with (Ok (A:=string) b).
    change (py_index [a; b; c] IDX_YEAR_LEVEL) with (Ok (A:=string) c).
    change (py_index [a; b; c] IDX_SUBTOPIC) with (Ok (A:=string) b).
    change (py_index [a; b; c] 0) with (Ok (A:=string) a).
    change (py_index [a; b; c] 1) with (Ok (A:=string) b).
    change (py_index [a; b; c] (DEPTH - 1)) with (Raise (A:=string) IndexError).
    cbn [bind]. unfold row_get.
    destruct (row !! b) as [vb|] eqn:Hb; cbn [bind].
    2: { rewrite decide_False; [done|]. intros [?|Hrow]; [simpl in *; lia|].
         apply Forall_cons in Hrow as [_ Hrow]. apply Forall_cons in Hrow as [[? ?] _].
         congruence. }
    destruct (row !! c) as [vc|] eqn:Hc; cbn [bind].
    2: { rewrite decide_False; [done|]. intros [?|Hrow]; [simpl in *; lia|].
         apply Forall_cons in Hrow as [_ Hrow]. apply Forall_cons in Hrow as [_ Hrow].
         apply Forall_cons in Hrow as [[? ?] _]. congruence. }
    destruct (row !! a) as [va|] eqn:Ha; cbn [bind].
    2: { rewrite decide_False; [done|]. intros [?|Hrow]; [simpl in *; lia|].
         apply Forall_cons in Hrow as [[? ?] _]. congruence. }
    repeat (progress (rewrite ?Ha, ?Hb, ?Hc; cbn [bind])).
    rewrite decide_True; [done|]. right. repeat constructor; eauto.
  - unfold yl_cells.
    change (py_index [a; b; c; d] IDX_CONTENT_TAG) with (Ok (A:=string) c).
    change (py_index [a; b; c; d] IDX_YEAR_LEVEL) with (Ok (A:=string) d).
    change (py_index [a; b; c; d] IDX_SUBTOPIC) with (Ok (A:=string) b).
    change (py_index [a; b; c; d] 0) with (Ok (A:=string) a).
    change (py_index [a; b; c; d] 1) with (Ok (A:=string) b).
    change (py_index [a; b; c; d] (DEPTH - 1)) with (Ok (A:=string) d).
    change (py_index [a; b; c; d] DEPTH) with (Raise (A:=string) IndexError).
    cbn [bind]. unfold row_get.
    destruct (row !! c) as [vc|] eqn:Hc; cbn [bind].
    2: { rewrite decide_False; [done|]. intros [?|Hrow]; [simpl in *; lia|].
         apply Forall_cons in Hrow as [_ Hrow]. apply Forall_cons in Hrow as [_ Hrow].
         apply Forall_cons in Hrow as [[? ?] _]. congruence. }
    destruct (row !! d) as [vd|] eqn:Hd; cbn [bind].
    2: { rewrite decide_False; [done|]. intros [?|Hrow]; [simpl in *; lia|].
         do 3 apply Forall_cons in Hrow as [_ Hrow].
         apply Forall_cons in Hrow as [[? ?] _]. congruence. }
    destruct (row !! b) as [vb|] eqn:Hb; cbn [bind].
    2: { rewrite decide_False; [done|]. intros [?|Hrow]; [simpl in *; lia|].
         apply Forall_cons in Hrow as [_ Hrow]. apply Forall_cons in Hrow as [[? ?] _].
         congruence. }
    destruct (row !! a) as [va|] eqn:Ha; cbn [bind].
    2: { rewrite decide_False; [done|]. intros [?|Hrow]; [simpl in *; lia|].
         apply Forall_cons in Hrow as [[? ?] _]. congruence. }
    repeat (progress (rewrite ?Ha, ?Hb, ?Hc, ?Hd; cbn [bind])).
    rewrite decide_True; [done|]. right. repeat constructor; eauto.
Qed.

Lemma yl_cells_KeyError (all_fields : list string) (row : record) (e : pyerr) :
  5 <= length all_fields ->
  yl_cells all_fields row = Raise e -> e = KeyError.
Proof.
  intros Hlen.
  assert (Hidx : forall i, i ∈ [IDX_CONTENT_TAG; IDX_YEAR_LEVEL; IDX_SUBTOPIC;
                                0%Z; 1%Z; (DEPTH - 1)%Z; DEPTH] ->
            exists f, py_index all_fields i = Ok f).
  { intros i Hi. apply py_index_valid.
    unfold IDX_CONTENT_TAG, IDX_YEAR_LEVEL, IDX_SUBTOPIC, DEPTH in Hi.
    repeat (apply elem_of_cons in Hi as [->|Hi]); try lia. by apply elem_of_nil in Hi. }
  assert (Hget : forall f e', row_get row f = Raise e' -> e' = KeyError).
  { intros f e'. unfold row_get. case_match; congruence. }
  unfold yl_cells.
  repeat (match goal with
          | |- bind (py_index all_fields ?i) _ = Raise e -> _ =>
              let H := fresh in
              destruct (Hidx i) as [? H]; [set_solver|]; rewrite H; cbn [bind]; clear H
          | |- bind (row_get row ?f) _ = Raise e -> _ =>
              let H := fresh in
              destruct (row_get row f) eqn:H; cbn [bind];
              [clear H|intros [= ?]; subst; by eapply Hget]
          end).
  done.
Qed.

(** The cells of all rows: with five columns or more, every row is read
    to its end. *)
Lemma yl_all_cells_outcome (all_fields : list string) (rs : list record) :
  5 <= length all_fields ->
  forall cs,
    foldM (fun cells row => let* c := yl_cells all_fields row in Ok (cells ++ [c])) cs rs
    = if decide (Forall (complete (yl_columns all_fields)) rs)
      then Ok (cs ++ ((fun row => (yl_entry all_fields row, yl_token all_fields row)) <$> rs))
      else Raise KeyError.
Proof.
  intros Hlen. induction rs as [|row rs IH]; intros cs.
  - cbn [foldM fmap list_fmap]. rewrite decide_True by constructor. by rewrite app_nil_r.
  - cbn [foldM].
    destruct (decide (complete (yl_columns all_fields) row)) as [Hrow|Hrow].
    + rewrite yl_cells_complete by done. cbn [bind]. rewrite IH.
      destruct (decide (Forall _ rs)) as [Hrs|Hrs].
      * rewrite decide_True by by constructor. by rewrite fmap_cons, <-app_assoc.
      * rewrite decide_False; [done|]. by intros [_ ?]%Forall_cons.
    + rewrite decide_False by (by intros [? _]%Forall_cons).
      destruct (yl_cells all_fields row) as [c|e] eqn:Hrun.
      * by apply yl_cells_Ok in Hrun as (_ & ? & _).
      * cbn [bind]. f_equal. by eapply yl_cells_KeyError.
Qed.

(** The result of a run that returns, from the rows. *)
Lemma construct_with_yl_Ok (data : reader) (out : value) :
  construct_with_yl data = Ok out ->
  out = yl_result (yl_entry (fieldnames data) <$> rows data)
          (yl_token (fieldnames data) <$> rows data).
Proof.
  rewrite construct_with_yl_cells. unfold yl_all_cells.
  destruct (decide (rows data = [])) as [->|Hrows].
  { cbn [foldM bind]. by intros [= <-]. }
  destruct (decide (length (fieldnames data) < 5)) as [Hlen|Hlen].
  { destruct (rows data) as [|row rs]; [done|]. cbn [foldM].
    rewrite yl_cells_few_columns by done. by case_decide. }
  rewrite yl_all_cells_outcome by lia. case_decide; [|done]. cbn [bind].
  intros [= <-]. cbn [app]. by rewrite <-!list_fmap_compose.
Qed.
(** ** The top level of the result *)

Lemma under_entries {A} (f : A -> path_entry) (path : list string) (l : list A) :
  under path (f <$> l)
  = (fun a => (drop (length path) (f a).1, (f a).2))
    <$> filter (fun a => take (length path) (f a).1 = path) l.
Proof.
  rewrite (list_fmap_ext f (fun a => ((f a).1, (f a).2))); [apply under_fmap|].
  intros i a _. by destruct (f a).
Qed.

Lemma heads_under_entries {A} (f : A -> path_entry) (path : list string) (l : list A) :
  heads (under path (f <$> l))
  = omap (fun a => (f a).1 !! length path)
         (filter (fun a => take (length path) (f a).1 = path) l).
Proof.
  rewrite (list_fmap_ext f (fun a => ((f a).1, (f a).2))); [apply heads_under_fmap|].
  intros i a _. by destruct (f a).
Qed.

Lemma heads_yl_entries (all_fields : list string) (rs : list record) :
  heads (yl_entry all_fields <$> rs)
  = (fun row : record => row !!! field_at all_fields 0) <$> rs.
Proof.
  induction rs as [|row rs IH]; [done|].
  rewrite !fmap_cons, <-IH. done.
Qed.

Lemma yl_tokens_subtopics (all_fields : list string) (rs : list record) :
  (yl_token all_fields <$> rs).*1
  = (fun row : record => row !!! field_at all_fields IDX_SUBTOPIC) <$> rs.
Proof. by rewrite <-list_fmap_compose. Qed.

Lemma yl_levels_tokens (all_fields : list string) (rs : list record) (k t : string) :
  t ∈ yl_levels (yl_token all_fields <$> rs) k <->
  exists row, row ∈ rs /\
              (k = "All levels" \/ row !!! field_at all_fields IDX_SUBTOPIC = k) /\
              t = "Y" +:+ row !!! field_at all_fields IDX_YEAR_LEVEL.
Proof.
  unfold yl_levels. rewrite elem_of_list_to_set, list_elem_of_fmap. split.
  - intros ([s t'] & -> & Hin). apply list_elem_of_filter in Hin as [Hk Hin].
    apply list_elem_of_fmap in Hin as (row & Heq & Hrow).
    unfold yl_token in Heq. injection Heq as -> ->. exists row. done.
  - intros (row & Hrow & Hk & ->). exists (yl_token all_fields row). split; [done|].
    apply list_elem_of_filter. split; [done|]. apply list_elem_of_fmap. eauto.
Qed.

Lemma py_getitem_yl_result (es : list path_entry) (ts : list (string * string))
    (k : string) :
  py_getitem (yl_result es ts) (KStr k)
  = if decide (k ∈ "All levels" :: ts.*1)
    then Ok (VStr (py_join " " (py_sorted (elements (yl_levels ts k)))))
    else if decide (k ∈ heads es)
         then Ok (yl_subtopics (below k es))
         else Raise KeyError.
Proof.
  unfold yl_result. cbn [py_getitem]. rewrite dict_get_kstr.
  destruct (decide (k ∈ "All levels" :: ts.*1)) as [Hsum|Hsum].
  - rewrite decide_True; [done|]. apply elem_of_first_occ, elem_of_app. by right.
  - destruct (decide (k ∈ heads es)) as [Hk|Hk].
    + rewrite decide_True; [done|]. apply elem_of_first_occ, elem_of_app. by left.
    + rewrite decide_False; [done|].
      rewrite elem_of_first_occ, elem_of_app. by intros [?|?].
Qed.

(** X14: for ["All levels"] and for every subtopic of a row, the
    result of [construct_with_yl] holds the year levels joined by single
    spaces: sorted as strings, without repetition, and exactly the
    ["Y<year>"] of the rows with this subtopic (of all rows for
    ["All levels"]). *)
Theorem subtopic_summary (data : reader) (out : value) (k : string)
    (Hrun : construct_with_yl data = Ok out)
    (Hk : k = "All levels" \/
          exists row, row ∈ rows data /\
                      row !!! field_at (fieldnames data) IDX_SUBTOPIC = k) :
  exists sorted_val : list string,
    py_getitem out (KStr k) = Ok (VStr (py_join " " sorted_val)) /\
    Sorted String.le sorted_val /\
    NoDup sorted_val /\
    forall t, t ∈ sorted_val <->
      exists row, row ∈ rows data /\
                  (k = "All levels" \/
                   row !!! field_at (fieldnames data) IDX_SUBTOPIC = k) /\
                  t = "Y" +:+ row !!! field_at (fieldnames data) IDX_YEAR_LEVEL.
Proof.
  apply construct_with_yl_Ok in Hrun as ->.
  set (ts := yl_token (fieldnames data) <$> rows data).
  exists (py_sorted (elements (yl_levels ts k))).
  destruct (py_sorted_spec (yl_levels ts k)) as (Hsorted & Hnodup & Helem).
  split_and!; [|done..|].
  - rewrite py_getitem_yl_result, decide_True; [done|].
    subst ts. rewrite yl_tokens_subtopics.
    destruct Hk as [->|(row & Hrow & <-)]; [left|right].
    apply list_elem_of_fmap. eauto.
  - intros t. rewrite Helem. apply yl_levels_tokens.
Qed.

Lemma subtopic_summary_witness :
  exists sorted_val : list string,
    py_getitem sample_yl (KStr "b2") = Ok (VStr (py_join " " sorted_val)) /\
    Sorted String.le sorted_val /\
    NoDup sorted_val /\
    forall t, t ∈ sorted_val <->
      exists row, row ∈ rows sample /\
                  ("b2" = "All levels" \/
                   row !!! field_at (fieldnames sample) IDX_SUBTOPIC = "b2") /\
                  t = "Y" +:+ row !!! field_at (fieldnames sample) IDX_YEAR_LEVEL.
Proof.
  apply (subtopic_summary sample sample_yl "b2").
  - vm_compute. reflexivity.
  - right. exists (csv_row sample_fields ["a"; "b2"; "c"; "d"; "e2"; "t1"; "3"]).
    split; [|vm_compute; reflexivity].
    do 2 apply list_elem_of_further. apply list_elem_of_here.
Defined.

(** X12: the keys of the result of [construct_with_yl] are the
    values of the first column, then ["All levels"], then the subtopics,
    each once and in the order of first occurrence. A subtopic key and
    ["All levels"] hold a string, also when the name is a value of the
    first column as well; every other key holds a dictionary whose keys
    are the subtopics of the rows with this first column. *)
Theorem construct_with_yl_top_level (data : reader) (out : value)
    (Hrun : construct_with_yl data = Ok out) :
  let all_fields := fieldnames data in
  let firsts := (fun row : record => row !!! field_at all_fields 0) <$> rows data in
  let subtopics :=
    (fun row : record => row !!! field_at all_fields IDX_SUBTOPIC) <$> rows data in
  exists kvs,
    out = VDict kvs /\
    kvs.*1 = KStr <$> first_occ (firsts ++ "All levels" :: subtopics) /\
    (forall k, k ∈ "All levels" :: subtopics ->
       exists s, dict_get (KStr k) kvs = Some (VStr s)) /\
    (forall k, k ∈ firsts -> k ∉ "All levels" :: subtopics ->
       exists level1,
         dict_get (KStr k) kvs = Some (VDict level1) /\
         level1.*1 = KStr <$> first_occ
                       ((fun row : record => row !!! field_at all_fields 1)
                        <$> filter (fun row : record => row !!! field_at all_fields 0 = k)
                              (rows data))).
Proof.
  intros all_fields firsts subtopics.
  apply construct_with_yl_Ok in Hrun as ->. fold all_fields.
  set (es := yl_entry all_fields <$> rows data).
  set (ts := yl_token all_fields <$> rows data).
  assert (Hheads : heads es = firsts) by apply heads_yl_entries.
  assert (Hsubs : ts.*1 = subtopics) by apply yl_tokens_subtopics.
  eexists. split; [reflexivity|]. rewrite kstr_keys, Hheads, Hsubs.
  split_and!; [done| |].
  - intros k Hk. rewrite dict_get_kstr.
    rewrite decide_True by (apply elem_of_first_occ, elem_of_app; by right).
    rewrite decide_True by done. eauto.
  - intros k Hk Hnot. rewrite dict_get_kstr.
    rewrite decide_True by (apply elem_of_first_occ, elem_of_app; by left).
    rewrite decide_False by done.
    eexists. split; [reflexivity|]. rewrite kstr_keys. do 2 f_equal.
    subst es. change (below k ?x) with (under [k] x). rewrite heads_under_entries.
    cbn [length].
    erewrite (list_filter_iff _ (fun row : record => row !!! field_at all_fields 0 = k)).
    + by apply omap_fmap_Some, Forall_forall.
    + intros row. cbn [take yl_entry fst]. split; [by intros [= ->]|by intros ->].
Qed.

Lemma construct_with_yl_top_level_witness :
  let all_fields := fieldnames sample in
  let firsts := (fun row : record => row !!! field_at all_fields 0) <$> rows sample in
  let subtopics :=
    (fun row : record => row !!! field_at all_fields IDX_SUBTOPIC) <$> rows sample in
  exists kvs,
    sample_yl = VDict kvs /\
    kvs.*1 = KStr <$> first_occ (firsts ++ "All levels" :: subtopics) /\
    (forall k, k ∈ "All levels" :: subtopics ->
       exists s, dict_get (KStr k) kvs = Some (VStr s)) /\
    (forall k, k ∈ firsts -> k ∉ "All levels" :: subtopics ->
       exists level1,
         dict_get (KStr k) kvs = Some (VDict level1) /\
         level1.*1 = KStr <$> first_occ
                       ((fun row : record => row !!! field_at all_fields 1)
                        <$> filter (fun row : record => row !!! field_at all_fields 0 = k)
                              (rows sample))).
Proof.
  apply (construct_with_yl_top_level sample sample_yl).
  vm_compute. reflexivity.
Defined.
(** ** The arrays of the result *)

(** X13: the array that the result of [construct_with_yl] holds
    under a first-column value and a subtopic has one element for each
    value of the column [DEPTH-1] among the rows with these two values,
    in the order of first occurrence; the element is built from exactly
    the rows with that value, in the order of the rows. *)
Theorem year_level_arrays (data : reader) (out level1 : value) (k0 k1 : string)
    (xs : list value)
    (Hrun : construct_with_yl data = Ok out)
    (Hfirst : py_getitem out (KStr k0) = Ok level1)
    (Hsecond : py_getitem level1 (KStr k1) = Ok (VList xs)) :
  let all_fields := fieldnames data in
  xs = (fun topic =>
          yl_topic topic
            ((fun row : record =>
                ([row !!! field_at all_fields DEPTH], (yl_entry all_fields row).2))
             <$> filter (fun row : record =>
                           row !!! field_at all_fields 0 = k0 /\
                           row !!! field_at all_fields 1 = k1 /\
                           row !!! field_at all_fields (DEPTH - 1) = topic)
                   (rows data)))
       <$> first_occ
             ((fun row : record => row !!! field_at all_fields (DEPTH - 1))
              <$> filter (fun row : record =>
                            row !!! field_at all_fields 0 = k0 /\
                            row !!! field_at all_fields 1 = k1)
                    (rows data)).
Proof.
  intros all_fields. apply construct_with_yl_Ok in Hrun as ->. fold all_fields in Hfirst.
  set (es := yl_entry all_fields <$> rows data) in *.
  rewrite py_getitem_yl_result in Hfirst.
  destruct (decide (k0 ∈ "All levels" :: _)); [by injection Hfirst as <-|].
  destruct (decide (k0 ∈ heads es)); [|done]. injection Hfirst as <-.
  unfold yl_subtopics in Hsecond. cbn [py_getitem] in Hsecond.
  rewrite dict_get_kstr in Hsecond.
  destruct (decide (k1 ∈ first_occ _)); [|done].
  unfold yl_array in Hsecond. injection Hsecond as <-.
  change (below k1 (below k0 es)) with (under [k0; k1] es).
  assert (Hheads : heads (under [k0; k1] es)
                   = (fun row : record => row !!! field_at all_fields (DEPTH - 1))
                     <$> filter (fun row : record =>
                                   row !!! field_at all_fields 0 = k0 /\
                                   row !!! field_at all_fields 1 = k1) (rows data)).
  { subst es. rewrite heads_under_entries. cbn [length].
    erewrite (list_filter_iff _ (fun row : record =>
                                   row !!! field_at all_fields 0 = k0 /\
                                   row !!! field_at all_fields 1 = k1)).
    - by apply omap_fmap_Some, Forall_forall.
    - intros row. cbn [take yl_entry fst]. split; [by intros [= -> ->]|by intros [-> ->]]. }
  rewrite Hheads. apply list_fmap_ext. intros i topic _. f_equal.
  change (below topic (under [k0; k1] es)) with (under [k0; k1; topic] es).
  subst es. rewrite under_entries. cbn [length].
  erewrite (list_filter_iff _ (fun row : record =>
                                 row !!! field_at all_fields 0 = k0 /\
                                 row !!! field_at all_fields 1 = k1 /\
                                 row !!! field_at all_fields (DEPTH - 1) = topic)).
  - done.
  - intros row. cbn [take yl_entry fst].
    split; [by intros [= -> -> ->]|by intros (-> & -> & ->)].
Qed.

Lemma year_level_arrays_witness :
  let all_fields := fieldnames sample in
  [VDict [(KStr "d", VDict [(KStr "e2", VStr "1")]); (KInt 1, VStr "Y3 t1")]]
  = (fun topic =>
       yl_topic topic
         ((fun row : record =>
             ([row !!! field_at all_fields DEPTH], (yl_entry all_fields row).2))
          <$> filter (fun row : record =>
                        row !!! field_at all_fields 0 = "a" /\
                        row !!! field_at all_fields 1 = "b2" /\
                        row !!! field_at all_fields (DEPTH - 1) = topic)
                (rows sample)))
    <$> first_occ
          ((fun row : record => row !!! field_at all_fields (DEPTH - 1))
           <$> filter (fun row : record =>
                         row !!! field_at all_fields 0 = "a" /\
                         row !!! field_at all_fields 1 = "b2")
                 (rows sample)).
Proof.
  apply (year_level_arrays sample sample_yl (VDict sample_level1) "a" "b2").
  - vm_compute. reflexivity.
  - vm_compute. reflexivity.
  - vm_compute. reflexivity.
Defined.
(** ** The index variables between two rows *)

Lemma find_node_start (next_node : string) (track : value) (range : list Z)
    (c c' : Z) :
  find_node next_node track range c false = find_node next_node track range c' false
  \/ (find_node next_node track range c false = Ok (c, false) /\
      find_node next_node track range c' false = Ok (c', false)).
Proof.
  induction range as [|i range IH]; [by right|]. cbn [find_node].
  destruct (py_getitem track (KInt i)) as [node|e]; cbn [bind]; [|by left].
  destruct (py_contains next_node node); [by left|apply IH].
Qed.

Lemma yl_third_level_start (all_fields : list string) (row : record)
    (entry : string) (c c' : Z) (track : value) :
  yl_third_level all_fields row entry c track
  = yl_third_level all_fields row entry c' track.
Proof.
  unfold yl_third_level.
  destruct (py_index all_fields (DEPTH - 1)) as [field|e]; cbn [bind]; [|done].
  destruct (row_get row field) as [next_node|e]; cbn [bind]; [|done].
  destruct (find_node_start next_node track (seqZ 0 (py_len track)) c c')
    as [->|[-> ->]]; [done|].
  cbn [bind]. done.
Qed.

Lemma yl_first_levels_start (range : list Z) (all_fields : list string)
    (row : record) (rest : Z -> value -> result (value * (Z * Z)))
    (Hrest : forall c c' track, rest c track = rest c' track)
    (c c' : Z) (track : value) :
  yl_first_levels range all_fields row rest c track
  = yl_first_levels range all_fields row rest c' track.
Proof.
  revert c c' track. induction range as [|i range IH]; intros c c' track;
    cbn [yl_first_levels]; [apply Hrest|].
  destruct (py_index all_fields i) as [field|e]; cbn [bind]; [|done].
  destruct (row_get row field) as [next_node|e]; cbn [bind]; [|done].
  destruct (py_contains next_node track).
  - cbn [bind]. destruct (py_getitem track (KStr next_node)); cbn [bind]; [|done].
    by rewrite (IH c c').
  - destruct (i =? 0)%Z.
    + destruct (py_setitem track (KStr next_node) (VDict [])) as [track'|e];
        cbn [bind]; [|done].
      destruct (py_getitem track' (KStr next_node)); cbn [bind]; [|done].
      by rewrite (IH c c').
    + destruct (i =? 1)%Z.
      * done.
      * cbn [bind]. destruct (py_getitem track (KStr next_node)); cbn [bind]; [|done].
        by rewrite (IH c c').
Qed.

(** X15: one pass of the loop body of [construct_with_yl] does not
    depend on the values that [cur_idx] and [dis_idx] have when it
    starts: the output, the year levels, the error and the new values of
    both variables are the same for any two starting values. *)
Theorem indices_not_carried (all_fields : list string) (output : value)
    (yld : list (string * gset string)) (cur_idx dis_idx cur_idx' dis_idx' : Z)
    (row : record) :
  yl_row all_fields (YlState output yld cur_idx dis_idx) row
  = yl_row all_fields (YlState output yld cur_idx' dis_idx') row.
Proof.
  unfold yl_row. cbn [yl_output year_level_dict yl_cur_idx yl_dis_idx].
  repeat match goal with
         | |- bind ?m _ = bind ?m _ => destruct m; cbn [bind]; [|done]
         end.
  by rewrite (yl_first_levels_start _ _ _ _ (yl_third_level_start all_fields row _)
                cur_idx cur_idx').
Qed.
(** * The calls of the driver *)

Lemma py_slice_to_DEPTH_length (all_fields : list string) :
  length (py_slice_to all_fields DEPTH) <= Z.to_nat DEPTH.
Proof. rewrite py_slice_to_nonneg by done. rewrite length_take. lia. Qed.

(** A tree that [construct_json] builds with the constant [DEPTH] is
    never too deep for the counters of the labeler. *)
Lemma add_label_after_construct_json (data : reader) (t : tree) :
  construct_json data DEPTH = Ok t -> exists out, add_label t = Ok out.
Proof.
  intros Hrun. destruct (decide (rows data = [])) as [Hrows|Hrows].
  { unfold construct_json in Hrun. rewrite Hrows in Hrun. injection Hrun as <-.
    by apply add_label_total. }
  pose proof (construct_json_grow _ _ _ Hrun) as Hout. cbv zeta in Hout.
  pose proof (py_slice_to_DEPTH_length (fieldnames data)) as Hdepth.
  destruct (construct_json_fields _ _ _ Hrun Hrows) as (init & f2 & f1 & Hfields).
  rewrite Hfields in *. rewrite py_slice_to_minus2 in Hout.
  destruct (add_label_grow first_occ (length init)
              (plain_entry (init ++ [f2; f1]) <$> rows data)) as [Hok _].
  - apply first_occ_nonempty.
  - by destruct (rows data).
  - apply Forall_fmap, Forall_forall. intros row _. cbv [compose].
    rewrite plain_entry_split. simpl.
    rewrite app_nil_r, row_values_length, length_app. simpl. lia.
  - rewrite <-Hout in Hok. apply Hok. rewrite length_app in Hdepth. simpl in Hdepth. lia.
Qed.

(** X22: the labeling in the first block of [create_json_tree]
    never fails: [labeled_json] returns whenever [construct_json] with
    the constant [DEPTH] returns, and raises exactly the errors of that
    call. *)
Theorem labeled_json_outcome (data : reader) :
  ((exists out, labeled_json data = Ok out) <->
     exists t, construct_json data DEPTH = Ok t) /\
  (forall e, labeled_json data = Raise e <-> construct_json data DEPTH = Raise e).
Proof.
  unfold labeled_json.
  destruct (construct_json data DEPTH) as [t|e'] eqn:Hrun; cbn [bind].
  - destruct (add_label_after_construct_json _ _ Hrun) as [out ->].
    split; [|done]. split; eauto.
  - split; [|done]. split; by intros [? ?].
Qed.





